(** * Chorus MCP server: response normalisation, pagination windows,
      bounded output formatting and error classification.

    A shallow embedding of
      - [src/services/api-client.ts]   (isJsonApiList, isJsonApiSingle,
                                        flattenRecord, normalizeResponse),
      - [src/services/formatters.ts]   (truncateResponse,
                                        buildPaginatedResponse, formatOutput),
      - [src/services/error-handler.ts] (handleApiError),
      - [src/constants.ts]             (CHARACTER_LIMIT, ResponseFormat),
    together with the JavaScript run-time operations these functions call
    (property access, the [in] operator, object spread, [??], [String()]
    and the exception it can raise, [Number::toString], the sum and the
    rounded-down quotient of doubles that are integers,
    [JSON.stringify] with a two-space gap, [JSON.parse]). *)

From Stdlib Require Import ZArith List String Ascii Bool Lia.
From Stdlib Require Import Decimal DecimalString DecimalNat DecimalPos DecimalZ.
From Stdlib Require DecimalFacts.
Import ListNotations.

Set Warnings "-register-all,-abstract-large-number".

Open Scope string_scope.
Open Scope Z_scope.

(* ================================================================== *)
(** ** JavaScript values and run-time operations *)
(* ================================================================== *)

Module JS.

(** A Number value.  A finite number other than zero is held as
    [Number::toString] reads it: the digits of the shortest decimal that
    denotes it, without leading or trailing zero, and the position
    [point] of the decimal point after its first [point] digits, so that
    [Finite false "45" 0] is 0.45, [Finite false "25" 5] is 25000 and
    [Finite true "1" (-6)] is -1e-7 (the integer [s], its number of
    digits [k] and the exponent [n] of ECMAScript, 6.1.6.1.20).  Every
    finite double other than zero has exactly one such form. *)
Inductive number : Type :=
| NaN
| Infinity (negative : bool)
| Zero (negative : bool)
| Finite (negative : bool) (digits : string) (point : Z).

(** The values the adapter handles: what [JSON.parse] can produce, plus
    [undefined].  A string is a sequence of code units below 256
    ([String.length] is JavaScript's [.length]).  An object is its list
    of own enumerable properties in insertion order (integer-like keys,
    which JavaScript enumerates first, keep their place here). *)
Inductive value : Type :=
| VUndefined
| VNull
| VBool (b : bool)
| VNum (n : number)
| VStr (s : string)
| VArr (elems : list value)
| VObj (props : list (string * value)).

(** Abrupt completions: the only exception the modelled code can raise
    by itself is a [TypeError]. *)
Inductive exn : Type :=
| TypeError (msg : string).

Inductive result (A : Type) : Type :=
| Ok (a : A)
| Throw (e : exn).
Arguments Ok {A} a.
Arguments Throw {A} e.

Definition bind {A B : Type} (r : result A) (k : A -> result B) : result B :=
  match r with
  | Ok a => k a
  | Throw e => Throw e
  end.

Notation "x <- r ;; k" := (bind r (fun x => k))
  (at level 61, r at next level, right associativity).

(** [Array.prototype.map] with a callback that may throw: elements are
    visited left to right and the first exception aborts the loop. *)
Fixpoint mapM {A B : Type} (f : A -> result B) (l : list A) : result (list B) :=
  match l with
  | [] => Ok []
  | x :: xs =>
      y <- f x ;;
      ys <- mapM f xs ;;
      Ok (y :: ys)
  end.

(** *** Own properties *)

Fixpoint lookup (k : string) (props : list (string * value)) : option value :=
  match props with
  | [] => None
  | (k', v) :: rest => if String.eqb k k' then Some v else lookup k rest
  end.

Definition has_key (k : string) (props : list (string * value)) : bool :=
  match lookup k props with
  | Some _ => true
  | None => false
  end.

(** [CreateDataProperty]/[Set] on an ordinary object: an existing key
    keeps its position and takes the new value, a new key is appended. *)
Fixpoint set_prop (k : string) (v : value) (props : list (string * value))
  : list (string * value) :=
  match props with
  | [] => [(k, v)]
  | (k', v') :: rest =>
      if String.eqb k k' then (k', v) :: rest
      else (k', v') :: set_prop k v rest
  end.

Definition is_nullish (v : value) : bool :=
  match v with
  | VUndefined | VNull => true
  | _ => false
  end.

(** [typeof v === "object"]: true of [null], arrays and objects. *)
Definition typeof_object (v : value) : bool :=
  match v with
  | VNull | VArr _ | VObj _ => true
  | _ => false
  end.

Definition is_null (v : value) : bool :=
  match v with
  | VNull => true
  | _ => false
  end.

(** [Array.isArray]. *)
Definition isArray (v : value) : bool :=
  match v with
  | VArr _ => true
  | _ => false
  end.

(** [v.k] for the named keys the code reads (["data"], ["meta"],
    ["page"], ["total"], ["cursor"], ["id"], ["attributes"], ["message"],
    ["error"]): none of them is an array index, [length] or a prototype
    member, so only an object can have one.  Reading a property of
    [undefined] or [null] throws. *)
Definition get_prop (v : value) (k : string) : result value :=
  match v with
  | VUndefined | VNull =>
      Throw (TypeError "Cannot read properties of undefined or null")
  | VObj props =>
      match lookup k props with
      | Some x => Ok x
      | None => Ok VUndefined
      end
  | _ => Ok VUndefined
  end.

(** [v?.k]. *)
Definition get_opt (v : value) (k : string) : result value :=
  if is_nullish v then Ok VUndefined else get_prop v k.

(** [a ?? b]. *)
Definition nullish_or (a b : value) : value :=
  if is_nullish a then b else a.

(** [k in v] for the same named keys: a [TypeError] unless [v] is an
    object (arrays included). *)
Definition in_op (k : string) (v : value) : result bool :=
  match v with
  | VObj props => Ok (has_key k props)
  | VArr _ => Ok false
  | _ => Throw (TypeError "Cannot use 'in' operator to search for a key in a non-object")
  end.

(** *** Text *)

Definition LF : ascii := ascii_of_nat 10.
Definition CR : ascii := ascii_of_nat 13.
Definition nl : string := String LF EmptyString.

(** [Number::toString] of a safe integer (at most 2^53 - 1 in
    magnitude): its decimal digits, with a leading minus sign when
    negative.  Statuses, lengths, counts, offsets and durations are
    printed with it. *)
Definition number_to_string (n : Z) : string :=
  NilZero.string_of_int (Z.to_int n).

(** [Number.isSafeInteger]: the integers on which the arithmetic of
    doubles is that of the integers. *)
Definition MAX_SAFE_INTEGER : Z := 9007199254740991.

Definition safe_integer (z : Z) : bool := Z.abs z <=? MAX_SAFE_INTEGER.

(** The integer nearest to [n / d], an even one when two are as near. *)
Definition round_half_even (n d : Z) : Z :=
  let m := n / d in
  let r := n mod d in
  if (d <? 2 * r) || ((2 * r =? d) && Z.odd m) then m + 1 else m.

(** The double nearest to an integer: the integer itself when it has at
    most 53 significant bits, otherwise its first 53 bits rounded to
    nearest, ties to even (an integer of 1025 bits or more, which
    overflows to an infinity, is not modelled). *)
Definition double_round (z : Z) : Z :=
  let a := Z.abs z in
  let bits := Z.log2 a + 1 in
  if bits <=? 53 then z
  else
    let shift := bits - 53 in
    Z.sgn z * (round_half_even a (2 ^ shift) * 2 ^ shift).

(** [a + b] on doubles that are integers: the exact sum, rounded. *)
Definition js_add (a b : Z) : Z := double_round (a + b).

(** [Math.floor(a / b)] on doubles that are integers with
    [0 < b <= a]: the quotient is rounded to the nearest double, a
    significand of 53 bits of which [f] come after the point (or
    [- f] zeros before it), and the double is rounded down. *)
Definition js_floor_div (a b : Z) : Z :=
  let bits := Z.log2 (a / b) + 1 in
  let f := 53 - bits in
  if 0 <=? f then round_half_even (a * 2 ^ f) b / 2 ^ f
  else round_half_even a (b * 2 ^ (- f)) * 2 ^ (- f).

Fixpoint all_chars (p : ascii -> bool) (s : string) : bool :=
  match s with
  | EmptyString => true
  | String c rest => p c && all_chars p rest
  end.

(** [c.repeat(n)] for a one-character string [c]. *)
Fixpoint repeat_char (c : ascii) (n : nat) : string :=
  match n with
  | O => EmptyString
  | S m => String c (repeat_char c m)
  end.

(** The decimal digits, [0] to [9]. *)
Definition is_digit (c : ascii) : bool :=
  let n := nat_of_ascii c in ((48 <=? n) && (n <=? 57))%nat.

(** A run of digits without its leading zeros, and without its trailing
    zeros. *)
Fixpoint strip_leading (s : string) : string :=
  match s with
  | EmptyString => EmptyString
  | String c rest => if Ascii.eqb c "0" then strip_leading rest else s
  end.

Fixpoint strip_trailing (s : string) : string :=
  match s with
  | EmptyString => EmptyString
  | String c rest =>
      match strip_trailing rest with
      | EmptyString => if Ascii.eqb c "0" then EmptyString else String c EmptyString
      | kept => String c kept
      end
  end.

(** The digits of a finite number: decimal digits, at least one, the
    first and the last other than zero. *)
Definition shortest (digits : string) : bool :=
  all_chars is_digit digits
  && negb (String.eqb digits EmptyString)
  && String.eqb (strip_leading digits) digits
  && String.eqb (strip_trailing digits) digits.

(** A [number] is a Number value when the digits of a finite one are
    in that form. *)
Definition is_number (n : number) : bool :=
  match n with
  | Finite _ digits _ => shortest digits
  | _ => true
  end.

(** The decimal digits of a positive integer. *)
Definition digits_of (p : positive) : string :=
  NilEmpty.string_of_uint (Pos.to_uint p).

(** The Number value of a safe integer: its digits up to the last one
    that is not zero, the point after all of them. *)
Definition num (z : Z) : number :=
  match z with
  | Z0 => Zero false
  | Zpos p => Finite false (strip_trailing (digits_of p))
                (Z.of_nat (String.length (digits_of p)))
  | Zneg p => Finite true (strip_trailing (digits_of p))
                (Z.of_nat (String.length (digits_of p)))
  end.

Coercion num : Z >-> number.

(** [Number::toString] of a finite number other than zero, steps 6 to
    10: with [k] digits and the point after [n] of them, the digits
    followed by zeros when [k <= n <= 21], the digits with the point
    inside when [0 < n <= 21], zero, the point, zeros and the digits
    when [-6 < n <= 0], and the exponent form otherwise. *)
Definition render_finite (digits : string) (n : Z) : string :=
  let k := Z.of_nat (String.length digits) in
  if (k <=? n) && (n <=? 21) then
    digits ++ repeat_char "0" (Z.to_nat (n - k))
  else if (0 <? n) && (n <=? 21) then
    substring 0 (Z.to_nat n) digits ++ "."
      ++ substring (Z.to_nat n) (Z.to_nat (k - n)) digits
  else if (-6 <? n) && (n <=? 0) then
    "0." ++ repeat_char "0" (Z.to_nat (- n)) ++ digits
  else
    let e := n - 1 in
    let mantissa :=
      match digits with
      | String c (String c' rest) => String c ("." ++ String c' rest)
      | _ => digits
      end in
    mantissa ++ "e" ++ (if 0 <=? e then "+" else "-") ++ number_to_string (Z.abs e).

(** [Number::toString]. *)
Definition render (n : number) : string :=
  match n with
  | NaN => "NaN"
  | Infinity false => "Infinity"
  | Infinity true => "-Infinity"
  | Zero _ => "0"
  | Finite negative digits point =>
      (if negative then "-" else EmptyString) ++ render_finite digits point
  end.

(** [Array.prototype.join]. *)
Fixpoint join (sep : string) (parts : list string) : string :=
  match parts with
  | [] => EmptyString
  | [p] => p
  | p :: rest => p ++ sep ++ join sep rest
  end.

(** [String(v)] and the conversion of a template literal ([ToString]).
    An array is its elements joined by commas, [null] and [undefined]
    elements giving the empty string.  An object is converted by the
    [toString] it has: the inherited one gives ["[object Object]"]; an
    own property named [toString] hides it, and as no value of the
    model is callable, [OrdinaryToPrimitive] then falls back on
    [valueOf], which is absent, not callable or returns the object, and
    raises a [TypeError].  The exception of an element is that of the
    array. *)
Fixpoint to_string (v : value) : result string :=
  match v with
  | VUndefined => Ok "undefined"
  | VNull => Ok "null"
  | VBool true => Ok "true"
  | VBool false => Ok "false"
  | VNum n => Ok (render n)
  | VStr s => Ok s
  | VArr elems =>
      parts <- mapM (fun e => if is_nullish e then Ok EmptyString else to_string e)
                    elems ;;
      Ok (join "," parts)
  | VObj props =>
      if has_key "toString" props
      then Throw (TypeError "Cannot convert object to primitive value")
      else Ok "[object Object]"
  end.

(** The values [String()] converts: all but an object with an own
    [toString] property and an array that holds, at any depth, such an
    object. *)
Fixpoint printable (v : value) : bool :=
  match v with
  | VArr elems => forallb printable elems
  | VObj props => negb (has_key "toString" props)
  | _ => true
  end.

(** [ToBoolean]. *)
Definition truthy (v : value) : bool :=
  match v with
  | VUndefined | VNull => false
  | VBool b => b
  | VNum (NaN | Zero _) => false
  | VNum _ => true
  | VStr s => negb (String.eqb s EmptyString)
  | VArr _ | VObj _ => true
  end.

(** The characters of a decimal numeral. *)
Definition is_numeral_char (c : ascii) : bool :=
  match c with
  | "0" | "1" | "2" | "3" | "4" | "5" | "6" | "7" | "8" | "9" | "-" => true
  | _ => false
  end%char.

(** [hay.includes(needle)]. *)
Fixpoint contains (needle hay : string) : bool :=
  if String.prefix needle hay then true
  else match hay with
       | EmptyString => false
       | String _ rest => contains needle rest
       end.

(** A string is a single line when it holds no line feed and no
    carriage return. *)
Fixpoint single_line (s : string) : bool :=
  match s with
  | EmptyString => true
  | String c rest =>
      (negb (Ascii.eqb c LF) && negb (Ascii.eqb c CR) && single_line rest)%bool
  end.

(** *** JSON.stringify(v, null, 2) *)

Definition hex_digit (n : nat) : ascii :=
  match n with
  | 0 => "0" | 1 => "1" | 2 => "2" | 3 => "3" | 4 => "4"
  | 5 => "5" | 6 => "6" | 7 => "7" | 8 => "8" | 9 => "9"
  | 10 => "a" | 11 => "b" | 12 => "c" | 13 => "d" | 14 => "e"
  | _ => "f"
  end%nat%char.

Definition backslash : ascii := ascii_of_nat 92.
Definition dquote : ascii := ascii_of_nat 34.

(** One code unit of [QuoteJSONString]: the two-character escapes, the
    [\u00XX] form for the other control characters, the unit itself
    otherwise. *)
Definition quote_char (c : ascii) : string :=
  let n := nat_of_ascii c in
  if (n =? 8)%nat then String backslash "b"
  else if (n =? 9)%nat then String backslash "t"
  else if (n =? 10)%nat then String backslash "n"
  else if (n =? 12)%nat then String backslash "f"
  else if (n =? 13)%nat then String backslash "r"
  else if (n =? 34)%nat then String backslash (String dquote EmptyString)
  else if (n =? 92)%nat then String backslash (String backslash EmptyString)
  else if (n <? 32)%nat then
    String backslash
      (String "u" (String "0" (String "0"
        (String (hex_digit (n / 16)) (String (hex_digit (n mod 16)) EmptyString)))))
  else String c EmptyString.

Fixpoint quote_body (s : string) : string :=
  match s with
  | EmptyString => EmptyString
  | String c rest => quote_char c ++ quote_body rest
  end.

Definition quote (s : string) : string :=
  String dquote (quote_body s ++ String dquote EmptyString).

(** The gap of [JSON.stringify(_, null, 2)]. *)
Definition gap : string := "  ".

(** The last step of [SerializeJSONArray] and [SerializeJSONObject]:
    the bare brackets when there is nothing to print, otherwise the
    parts one per line at the inner indentation, separated by commas,
    and the closing bracket on a line of its own at the outer
    indentation. *)
Definition bracket (opening closing indent : string) (partial : list string)
  : string :=
  match partial with
  | [] => opening ++ closing
  | _ =>
      let inner := indent ++ gap in
      opening ++ nl ++ inner ++ join ("," ++ nl ++ inner) partial
              ++ nl ++ indent ++ closing
  end.

(** A number as [SerializeJSONProperty] prints it: [null] unless it
    is finite. *)
Definition number_text (n : number) : string :=
  match n with
  | NaN | Infinity _ => "null"
  | _ => render n
  end.

(** [SerializeJSONProperty] at indentation [indent]; [None] is the
    [undefined] result, which drops an object member and prints as
    [null] inside an array. *)
Fixpoint serialize (indent : string) (v : value) {struct v} : option string :=
  match v with
  | VUndefined => None
  | VNull => Some "null"
  | VBool true => Some "true"
  | VBool false => Some "false"
  | VNum n => Some (number_text n)
  | VStr s => Some (quote s)
  | VArr elems =>
      let inner := indent ++ gap in
      let partial :=
        map (fun e => match serialize inner e with
                      | Some s => s
                      | None => "null"
                      end) elems in
      Some (bracket "[" "]" indent partial)
  | VObj props =>
      let inner := indent ++ gap in
      let partial :=
        (fix members (ps : list (string * value)) : list string :=
           match ps with
           | [] => []
           | (k, x) :: rest =>
               match serialize inner x with
               | Some s => (quote k ++ ": " ++ s) :: members rest
               | None => members rest
               end
           end) props in
      Some (bracket "{" "}" indent partial)
  end.

(** The two lists of parts, by name. *)
Definition elem_texts (inner : string) (elems : list value) : list string :=
  map (fun e => match serialize inner e with
                | Some s => s
                | None => "null"
                end) elems.

Fixpoint member_texts (inner : string) (props : list (string * value))
  : list string :=
  match props with
  | [] => []
  | (k, x) :: rest =>
      match serialize inner x with
      | Some s => (quote k ++ ": " ++ s) :: member_texts inner rest
      | None => member_texts inner rest
      end
  end.

(** [JSON.stringify(v, null, 2)]: a string, or [undefined] ([None]). *)
Definition stringify (v : value) : option string := serialize EmptyString v.

(** Decimal text of an array index. *)
Definition index_key (i : nat) : string :=
  NilEmpty.string_of_uint (Nat.to_uint i).

Fixpoint indexed {A : Type} (f : A -> value) (i : nat) (l : list A)
  : list (string * value) :=
  match l with
  | [] => []
  | x :: xs => (index_key i, f x) :: indexed f (S i) xs
  end.

(** Own enumerable properties that [...v] copies ([CopyDataProperties]):
    nothing for [undefined], [null], booleans and numbers; the indexed
    characters of a string; the indexed elements of an array. *)
Definition own_props (v : value) : list (string * value) :=
  match v with
  | VObj props => props
  | VArr elems => indexed (fun x => x) 0 elems
  | VStr s => indexed (fun c => VStr (String c EmptyString)) 0 (list_ascii_of_string s)
  | _ => []
  end.

(** [{ ...target, ...source }]: the source's properties are written one
    after the other, in order, over what the literal holds so far. *)
Definition spread (target : list (string * value)) (source : value)
  : list (string * value) :=
  fold_left (fun acc kv => set_prop (fst kv) (snd kv) acc) (own_props source) target.

(** *** JSON.parse *)

(** JSON white space: space, tab, line feed, carriage return. *)
Definition is_ws (c : ascii) : bool :=
  let n := nat_of_ascii c in
  ((n =? 32) || (n =? 9) || (n =? 10) || (n =? 13))%nat.

Fixpoint skip_ws (s : string) : string :=
  match s with
  | EmptyString => EmptyString
  | String c rest => if is_ws c then skip_ws rest else s
  end.

(** The longest run of digits [s] opens with, and what follows it. *)
Fixpoint scan_digits (s : string) : string * string :=
  match s with
  | EmptyString => (EmptyString, EmptyString)
  | String c rest =>
      if is_digit c then let (d, r) := scan_digits rest in (String c d, r)
      else (EmptyString, s)
  end.

(** The integer part of a JSON number: at least one digit, and no
    leading zero before another digit. *)
Definition valid_int_part (d : string) : bool :=
  match d with
  | EmptyString => false
  | String _ EmptyString => true
  | String c _ => negb (Ascii.eqb c "0")
  end.

(** The characters that would carry a numeral on. *)
Definition continues_numeral (s : string) : bool :=
  match s with
  | String c _ =>
      (is_digit c || Ascii.eqb c "." || Ascii.eqb c "e" || Ascii.eqb c "E")%bool
  | EmptyString => false
  end.

(** The text opens with a digit. *)
Definition starts_with_digit (s : string) : bool :=
  match s with
  | String c _ => is_digit c
  | EmptyString => false
  end.

(** The integer a run of digits writes. *)
Definition numeral_value (x : string) : Z :=
  match NilEmpty.uint_of_string x with
  | Some u => Z.of_uint u
  | None => 0
  end.

(** The fraction of a JSON number: a point and at least one digit, or
    nothing. *)
Definition parse_fraction (s : string) : option (string * string) :=
  match s with
  | String c r =>
      if Ascii.eqb c "." then
        match scan_digits r with
        | (EmptyString, _) => None
        | (f, r1) => Some (f, r1)
        end
      else Some (EmptyString, s)
  | EmptyString => Some (EmptyString, s)
  end.

Definition parse_sign (s : string) : bool * string :=
  match s with
  | String c r =>
      if Ascii.eqb c "-" then (true, r)
      else if Ascii.eqb c "+" then (false, r)
      else (false, s)
  | EmptyString => (false, s)
  end.

(** The exponent of a JSON number: [e] or [E], an optional sign and at
    least one digit, or nothing. *)
Definition parse_exponent (s : string) : option (Z * string) :=
  match s with
  | String c r =>
      if (Ascii.eqb c "e" || Ascii.eqb c "E")%bool then
        let (negative, r1) := parse_sign r in
        match scan_digits r1 with
        | (EmptyString, _) => None
        | (x, r2) => Some (if negative then - numeral_value x else numeral_value x, r2)
        end
      else Some (0, s)
  | EmptyString => Some (0, s)
  end.

(** The number a numeral denotes, from its sign, the digits before and
    after the point and its exponent: a zero of that sign when every
    digit is zero, otherwise the digits from the first to the last that
    is not zero, with the point moved accordingly.  This is the number
    [JSON.parse] returns when the numeral is the shortest one of that
    number (what [Number::toString] prints) or has at most 15
    significant digits and a magnitude no double overflows or
    underflows at; any other numeral is rounded by [JSON.parse] to the
    nearest double, which the model does not compute. *)
Definition decimal (negative : bool) (int_part fraction : string) (e : Z) : number :=
  let all := int_part ++ fraction in
  let significant := strip_leading all in
  match significant with
  | EmptyString => Zero negative
  | _ => Finite negative (strip_trailing significant)
           (Z.of_nat (String.length int_part)
            - Z.of_nat (String.length all - String.length significant) + e)
  end.

(** A JSON number: an optional minus sign, the integer part, an
    optional fraction, an optional exponent. *)
Definition parse_number (s : string) : option (number * string) :=
  let (negative, s1) :=
    match s with
    | String c r => if Ascii.eqb c "-" then (true, r) else (false, s)
    | EmptyString => (false, s)
    end in
  let (int_part, s2) := scan_digits s1 in
  if valid_int_part int_part then
    match parse_fraction s2 with
    | Some (fraction, s3) =>
        match parse_exponent s3 with
        | Some (e, s4) => Some (decimal negative int_part fraction e, s4)
        | None => None
        end
    | None => None
    end
  else None.

Definition hex_value (c : ascii) : option nat :=
  let n := nat_of_ascii c in
  if ((48 <=? n) && (n <=? 57))%nat%bool then Some (n - 48)%nat
  else if ((97 <=? n) && (n <=? 102))%nat%bool then Some (n - 87)%nat
  else if ((65 <=? n) && (n <=? 70))%nat%bool then Some (n - 55)%nat
  else None.

(** The code unit of [\uXXXX], when it is one of the 256 the model
    holds. *)
Definition unicode_escape (h1 h2 h3 h4 : ascii) : option ascii :=
  match hex_value h1, hex_value h2, hex_value h3, hex_value h4 with
  | Some a, Some b, Some c, Some d =>
      if ((a =? 0) && (b =? 0))%nat%bool then Some (ascii_of_nat (16 * c + d))
      else None
  | _, _, _, _ => None
  end.

Definition prepend (c : ascii) (r : option (string * string))
  : option (string * string) :=
  match r with
  | Some (body, rest) => Some (String c body, rest)
  | None => None
  end.

(** The characters of a string token after its opening quote, up to and
    including the closing quote: escapes are decoded, a raw control
    character is a syntax error. *)
Fixpoint parse_string_body (s : string) : option (string * string) :=
  match s with
  | EmptyString => None
  | String c rest =>
      if Ascii.eqb c dquote then Some (EmptyString, rest)
      else if Ascii.eqb c backslash then
        match rest with
        | String e rest1 =>
            if Ascii.eqb e dquote then prepend dquote (parse_string_body rest1)
            else if Ascii.eqb e backslash then prepend backslash (parse_string_body rest1)
            else if Ascii.eqb e "/" then prepend "/" (parse_string_body rest1)
            else if Ascii.eqb e "b" then prepend (ascii_of_nat 8) (parse_string_body rest1)
            else if Ascii.eqb e "f" then prepend (ascii_of_nat 12) (parse_string_body rest1)
            else if Ascii.eqb e "n" then prepend (ascii_of_nat 10) (parse_string_body rest1)
            else if Ascii.eqb e "r" then prepend (ascii_of_nat 13) (parse_string_body rest1)
            else if Ascii.eqb e "t" then prepend (ascii_of_nat 9) (parse_string_body rest1)
            else if Ascii.eqb e "u" then
              match rest1 with
              | String h1 (String h2 (String h3 (String h4 rest2))) =>
                  match unicode_escape h1 h2 h3 h4 with
                  | Some u => prepend u (parse_string_body rest2)
                  | None => None
                  end
              | _ => None
              end
            else None
        | EmptyString => None
        end
      else if (nat_of_ascii c <? 32)%nat then None
      else prepend c (parse_string_body rest)
  end.

(** [s] must open with [word]; what follows it. *)
Fixpoint expect (word s : string) : option string :=
  match word with
  | EmptyString => Some s
  | String w word' =>
      match s with
      | String c rest => if Ascii.eqb c w then expect word' rest else None
      | EmptyString => None
      end
  end.

(** The recursive-descent parser of JSON text, on [fuel] nested calls:
    a value, the elements of an array after its first bracket, the
    members of an object after its first brace.  The members are
    returned in source order, and the object is built from them one
    property after the other. *)
Fixpoint parse_value (fuel : nat) (s : string) {struct fuel}
  : option (value * string) :=
  match fuel with
  | O => None
  | S fuel' =>
      match skip_ws s with
      | EmptyString => None
      | String c rest =>
          if Ascii.eqb c "n" then
            match expect "ull" rest with Some r => Some (VNull, r) | None => None end
          else if Ascii.eqb c "t" then
            match expect "rue" rest with Some r => Some (VBool true, r) | None => None end
          else if Ascii.eqb c "f" then
            match expect "alse" rest with Some r => Some (VBool false, r) | None => None end
          else if Ascii.eqb c dquote then
            match parse_string_body rest with
            | Some (str, r) => Some (VStr str, r)
            | None => None
            end
          else if Ascii.eqb c "[" then
            match expect "]" (skip_ws rest) with
            | Some r => Some (VArr [], r)
            | None =>
                match parse_elements fuel' rest with
                | Some (elems, r) => Some (VArr elems, r)
                | None => None
                end
            end
          else if Ascii.eqb c "{" then
            match expect "}" (skip_ws rest) with
            | Some r => Some (VObj [], r)
            | None =>
                match parse_members fuel' rest with
                | Some (members, r) =>
                    Some (VObj (fold_left (fun acc kv => set_prop (fst kv) (snd kv) acc)
                                          members []), r)
                | None => None
                end
            end
          else
            match parse_number (String c rest) with
            | Some (n, r) => Some (VNum n, r)
            | None => None
            end
      end
  end

with parse_elements (fuel : nat) (s : string) {struct fuel}
  : option (list value * string) :=
  match fuel with
  | O => None
  | S fuel' =>
      match parse_value fuel' s with
      | Some (v, r) =>
          match expect "," (skip_ws r) with
          | Some r' =>
              match parse_elements fuel' r' with
              | Some (vs, r'') => Some (v :: vs, r'')
              | None => None
              end
          | None =>
              match expect "]" (skip_ws r) with
              | Some r' => Some ([v], r')
              | None => None
              end
          end
      | None => None
      end
  end

with parse_members (fuel : nat) (s : string) {struct fuel}
  : option (list (string * value) * string) :=
  match fuel with
  | O => None
  | S fuel' =>
      match expect (String dquote EmptyString) (skip_ws s) with
      | Some rest =>
          match parse_string_body rest with
          | Some (key, r) =>
              match expect ":" (skip_ws r) with
              | Some r1 =>
                  match parse_value fuel' r1 with
                  | Some (v, r2) =>
                      match expect "," (skip_ws r2) with
                      | Some r3 =>
                          match parse_members fuel' r3 with
                          | Some (ms, r4) => Some ((key, v) :: ms, r4)
                          | None => None
                          end
                      | None =>
                          match expect "}" (skip_ws r2) with
                          | Some r3 => Some ([(key, v)], r3)
                          | None => None
                          end
                      end
                  | None => None
                  end
              | None => None
              end
          | None => None
          end
      | None => None
      end
  end.

(** [JSON.parse(text)]: the value, or [None] for a [SyntaxError] (and
    for an escape [\uXXXX] of a code unit above 255, which the strings
    of the model do not hold).  The parser runs on fuel of twice the
    length of the text and two more, ample for the nesting a text of
    that length can hold. *)
Definition parse (text : string) : option value :=
  match parse_value (2 * String.length text + 2) text with
  | Some (v, rest) =>
      match skip_ws rest with
      | EmptyString => Some v
      | _ => None
      end
  | None => None
  end.

(** *** Canonical values and deep equality *)

Definition is_undefined (v : value) : bool :=
  match v with
  | VUndefined => true
  | _ => false
  end.

(** The value with every property whose value is [undefined] left out,
    at every depth. *)
Fixpoint prune (v : value) : value :=
  match v with
  | VArr elems => VArr (map prune elems)
  | VObj props =>
      VObj ((fix members (ps : list (string * value)) : list (string * value) :=
               match ps with
               | [] => []
               | (k, x) :: rest =>
                   if is_undefined x then members rest
                   else (k, prune x) :: members rest
               end) props)
  | _ => v
  end.

(** Deep equality as the repository's tests take it ([toEqual]):
    recursive equality that ignores properties whose value is
    [undefined]. *)
Definition deep_equal (a b : value) : Prop := prune a = prune b.

Fixpoint distinct (keys : list string) : bool :=
  match keys with
  | [] => true
  | k :: rest => negb (existsb (String.eqb k) rest) && distinct rest
  end.

(** A canonical value: a record, a collection or a passed-through JSON
    value.  The keys of every object are distinct, and [undefined]
    occurs only as the value of a property (an absent [cursor] or [id]),
    never as the value itself or as an array element. *)
Fixpoint canonical (v : value) : bool :=
  match v with
  | VUndefined => false
  | VNum n => is_number n
  | VArr elems => forallb canonical elems
  | VObj props =>
      distinct (map fst props) &&
      (fix members (ps : list (string * value)) : bool :=
         match ps with
         | [] => true
         | (_, x) :: rest => (is_undefined x || canonical x) && members rest
         end) props
  | _ => true
  end.

(** A JSON value: canonical, and [undefined] nowhere. *)
Fixpoint is_json (v : value) : bool :=
  match v with
  | VUndefined => false
  | VNum n => is_number n
  | VArr elems => forallb is_json elems
  | VObj props =>
      distinct (map fst props) &&
      (fix members (ps : list (string * value)) : bool :=
         match ps with
         | [] => true
         | (_, x) :: rest => is_json x && members rest
         end) props
  | _ => true
  end.

(** The numbers [JSON.parse] reads back from what [JSON.stringify]
    prints for them: the finite ones other than negative zero, which is
    printed as [0]; [NaN] and the infinities are printed as [null]. *)
Definition reads_back (n : number) : bool :=
  match n with
  | Zero false | Finite _ _ _ => true
  | _ => false
  end.

(** Every number in the value reads back. *)
Fixpoint exact_numbers (v : value) : bool :=
  match v with
  | VNum n => reads_back n
  | VArr elems => forallb exact_numbers elems
  | VObj props =>
      (fix members (ps : list (string * value)) : bool :=
         match ps with
         | [] => true
         | (_, x) :: rest => exact_numbers x && members rest
         end) props
  | _ => true
  end.

(** A canonical value whose numbers read back. *)
Fixpoint readable (v : value) : bool :=
  match v with
  | VUndefined => false
  | VNum n => is_number n && reads_back n
  | VArr elems => forallb readable elems
  | VObj props =>
      distinct (map fst props) &&
      (fix members (ps : list (string * value)) : bool :=
         match ps with
         | [] => true
         | (_, x) :: rest => (is_undefined x || readable x) && members rest
         end) props
  | _ => true
  end.

(** The properties of an object. *)
Definition members_of (v : value) : list (string * value) :=
  match v with
  | VObj props => props
  | _ => []
  end.

(** An object under construction is tidy when its keys are distinct and
    each of its values is [undefined] or canonical. *)
Definition tidy (acc : list (string * value)) : Prop :=
  NoDup (map fst acc)
  /\ Forall (fun kv => snd kv = VUndefined \/ canonical (snd kv) = true) acc.

(** What a serialised value starts with: not white space, and none of
    the characters that close an array or an object. *)
Definition opens_value (text : string) : Prop :=
  exists c t, text = String c t
              /\ is_ws c = false
              /\ Ascii.eqb c "]" = false /\ Ascii.eqb c "}" = false.

(** A value round-trips when the parser, given fuel for the length of
    its serialisation, reads the serialisation back as the pruned value
    and stops where the serialisation ends. *)
Definition round_trips (v : value) : Prop :=
  readable v = true ->
  forall (indent text rest : string) (fuel : nat),
    all_chars is_ws indent = true ->
    serialize indent v = Some text ->
    continues_numeral rest = false ->
    (String.length text <= fuel)%nat ->
    parse_value fuel (text ++ rest) = Some (prune v, rest).

End JS.

(* ================================================================== *)
(** ** src/services/api-client.ts *)
(* ================================================================== *)

Module ApiClient.
Import JS.

(** [isJsonApiList]: the six conjuncts, evaluated left to right with
    short-circuit.  The last one applies [in] to [data[0]] whatever it is. *)
Definition isJsonApiList (body : value) : result bool :=
  if negb (typeof_object body) then Ok false
  else if is_null body then Ok false
  else
    hasData <- in_op "data" body ;;
    if negb hasData then Ok false
    else
      data <- get_prop body "data" ;;
      match data with
      | VArr elems =>
          match elems with
          | [] => Ok false
          | first :: _ => in_op "attributes" first
          end
      | _ => Ok false
      end.

(** [isJsonApiSingle]: here [data] is checked to be a non-null object
    before [in] is applied to it. *)
Definition isJsonApiSingle (body : value) : result bool :=
  if negb (typeof_object body) then Ok false
  else if is_null body then Ok false
  else
    hasData <- in_op "data" body ;;
    if negb hasData then Ok false
    else
      data <- get_prop body "data" ;;
      if isArray data then Ok false
      else if negb (typeof_object data) then Ok false
      else if is_null data then Ok false
      else in_op "attributes" data.

(** [flattenRecord]: [{ id: record.id, ...record.attributes }].  The
    [id] property is created first and the attribute bag is spread over
    it. *)
Definition flattenRecord (record : value) : result value :=
  id <- get_prop record "id" ;;
  attributes <- get_prop record "attributes" ;;
  Ok (VObj (spread [("id", id)] attributes)).

(** The third shape of [normalizeResponse]: [{ data: [] }]. *)
Definition isEmptyList (body : value) : result bool :=
  if negb (typeof_object body) then Ok false
  else if is_null body then Ok false
  else
    hasData <- in_op "data" body ;;
    if negb hasData then Ok false
    else
      data <- get_prop body "data" ;;
      match data with
      | VArr [] => Ok true
      | _ => Ok false
      end.

Definition elements (v : value) : list value :=
  match v with
  | VArr elems => elems
  | _ => []
  end.

Definition normalizeResponse (body : value) : result value :=
  isList <- isJsonApiList body ;;
  if isList then
    data <- get_prop body "data" ;;
    items <- mapM flattenRecord (elements data) ;;
    meta <- get_prop body "meta" ;;
    page <- get_opt meta "page" ;;
    total <- get_opt page "total" ;;
    cursor <- get_opt page "cursor" ;;
    Ok (VObj [ ("items", VArr items);
               ("total", nullish_or total (VNum (Z.of_nat (List.length items))));
               ("cursor", cursor) ])
  else
    isSingle <- isJsonApiSingle body ;;
    if isSingle then
      data <- get_prop body "data" ;;
      flattenRecord data
    else
      isEmpty <- isEmptyList body ;;
      if isEmpty then Ok (VObj [ ("items", VArr []); ("total", VNum 0) ])
      else Ok body.

(** A JSON:API record as the collection shape expects it: an object
    carrying an attribute bag. *)
Definition carries_attributes (record : value) : Prop :=
  exists props attributes,
    record = VObj props /\ lookup "attributes" props = Some attributes.

(** [body.meta?.page?.k] as a function of the body's properties: the
    property [k] of [meta.page] when [meta] and [page] are objects and
    [page] has it, [undefined] in every other case ([meta] or [page]
    missing, [null] or not an object). *)
Definition page_field (props : list (string * value)) (k : string) : value :=
  match lookup "meta" props with
  | Some (VObj meta) =>
      match lookup "page" meta with
      | Some (VObj page) =>
          match lookup k page with
          | Some x => x
          | None => VUndefined
          end
      | _ => VUndefined
      end
  | _ => VUndefined
  end.

End ApiClient.

(* ================================================================== *)
(** ** src/constants.ts and src/services/formatters.ts *)
(* ================================================================== *)

Module Formatters.
Import JS.

Definition CHARACTER_LIMIT : Z := 25000.

Inductive ResponseFormat : Type :=
| MARKDOWN
| JSON.

(** The text [truncateResponse] appends after the cut. *)
Definition TRUNCATION_NOTICE : string :=
  nl ++ nl ++ "---" ++ nl ++
  "*Response truncated. Use `limit` and `offset` parameters or add filters to see more results.*".

Definition truncateResponse (text : string) : string :=
  if Z.of_nat (String.length text) <=? CHARACTER_LIMIT then text
  else
    let truncated := substring 0 (Z.to_nat CHARACTER_LIMIT) text in
    truncated ++ TRUNCATION_NOTICE.

Record PaginatedResponse (T : Type) : Type := mkPaginatedResponse {
  total : Z;
  count : Z;
  offset : Z;
  items : list T;
  has_more : bool;
  next_offset : option Z
}.
Arguments mkPaginatedResponse {T}.
Arguments total {T}.
Arguments count {T}.
Arguments offset {T}.
Arguments items {T}.
Arguments has_more {T}.
Arguments next_offset {T}.

(** [items.length]. *)
Definition len {T : Type} (l : list T) : Z := Z.of_nat (List.length l).

(** [buildPaginatedResponse], for a total and an offset that are
    integers (doubles without a fraction): [offset + items.length] is
    the sum of two doubles. *)
Definition buildPaginatedResponse {T : Type} (items : list T) (total offset : Z)
  : PaginatedResponse T :=
  {| total := total;
     count := len items;
     offset := offset;
     items := items;
     has_more := total >? js_add offset (len items);
     next_offset := if total >? js_add offset (len items)
                    then Some (js_add offset (len items))
                    else None |}.

(** The window as the object literal of [buildPaginatedResponse] makes
    it: [next_offset] is a property only when there is one. *)
Definition response_value (w : PaginatedResponse value) : value :=
  VObj ([ ("total", VNum (total w));
          ("count", VNum (count w));
          ("offset", VNum (offset w));
          ("items", VArr (items w));
          ("has_more", VBool (has_more w)) ]
        ++ match next_offset w with
           | Some n => [ ("next_offset", VNum n) ]
           | None => []
           end)%list.

(** [formatOutput].  The renderer is the caller's closure: it returns
    a string or raises, and what it raises leaves [formatOutput]
    uncaught.  [JSON.stringify] yields [undefined] for an [undefined]
    value, whose [.length] [truncateResponse] then reads. *)
Definition formatOutput (data : value) (markdownFormatter : unit -> result string)
  (responseFormat : ResponseFormat) : result string :=
  match responseFormat with
  | MARKDOWN =>
      text <- markdownFormatter tt ;;
      Ok (truncateResponse text)
  | JSON =>
      match stringify data with
      | Some text => Ok (truncateResponse text)
      | None => Throw (TypeError "Cannot read properties of undefined (reading 'length')")
      end
  end.

End Formatters.

(* ================================================================== *)
(** ** src/services/error-handler.ts *)
(* ================================================================== *)

Module ErrorHandler.
Import JS.

(** [error.response] of an axios error. *)
Record AxiosResponse : Type := mkResponse {
  status : Z;
  data : value
}.

(** [axios.isAxiosError] on a value of the model: the test of the
    library, an object whose [isAxiosError] property is [true]. *)
Definition isAxiosError (v : value) : bool :=
  match v with
  | VObj props =>
      match lookup "isAxiosError" props with
      | Some (VBool true) => true
      | _ => false
      end
  | _ => false
  end.

(** What a [catch] clause of a handler can receive: an axios error
    ([axios.isAxiosError] holds; it is an [Error], has a [message], may
    have a [code] and a [response] with an integer [status]), another
    [Error] instance, or any other value on which [axios.isAxiosError]
    is false.  A thrown plain object that poses as an axios error is
    not among them. *)
Inductive thrown : Type :=
| AxiosError (message : string) (code : option string) (response : option AxiosResponse)
| ErrorObject (message : string)
| Thrown (v : value) (plain : isAxiosError v = false).

(** [message] of the response branch: [data.message ?? data.error ?? ""]
    when [data] is a non-null object, [""] otherwise. *)
Definition upstream_message (d : value) : value :=
  if (typeof_object d && negb (is_null d))%bool then
    match get_prop d "message", get_prop d "error" with
    | Ok m, Ok e => nullish_or m (nullish_or e (VStr EmptyString))
    | _, _ => VStr EmptyString
    end
  else VStr EmptyString.

Definition code_is (code : option string) (c : string) : bool :=
  match code with
  | Some x => String.eqb x c
  | None => false
  end.

(** [handleApiError].  [String(message)] and [String(error)] are the
    calls that can raise; nothing in the function catches what they
    raise. *)
Definition handleApiError (error : thrown) : result string :=
  let unexpected (cause : string) := "Error: Unexpected error occurred: " ++ cause in
  match error with
  | AxiosError msg code (Some resp) =>
      let status := status resp in
      let message := upstream_message (data resp) in
      if status =? 400 then
        detail <- (if truthy message then to_string message
                   else Ok "Check your parameters and try again.") ;;
        Ok ("Error: Bad request. " ++ detail)
      else if status =? 401 then
        Ok "Error: Authentication failed. Check your CHORUS_API_KEY environment variable. Generate a token from Chorus Personal Settings."
      else if status =? 403 then
        Ok "Error: Access denied. Your API key may lack permissions for this resource, or the recording is marked as private."
      else if status =? 404 then
        Ok "Error: Resource not found. Verify the ID is correct and that you have access to this resource."
      else if status =? 429 then
        Ok "Error: Rate limit exceeded. Wait a moment before making more requests."
      else if status >=? 500 then
        Ok ("Error: Chorus API server error (" ++ number_to_string status ++ "). Try again later.")
      else
        detail <- (if truthy message then to_string message else Ok EmptyString) ;;
        Ok ("Error: API request failed with status " ++ number_to_string status ++ ". "
              ++ detail)
  | AxiosError msg code None =>
      if code_is code "ECONNABORTED" then
        Ok "Error: Request timed out. The Chorus API did not respond within 30 seconds. Try again."
      else if code_is code "ECONNREFUSED" then
        Ok "Error: Could not connect to the Chorus API. Check your network connection."
      else Ok (unexpected msg)
  | ErrorObject msg => Ok (unexpected msg)
  | Thrown v _ => cause <- to_string v ;; Ok (unexpected cause)
  end.

End ErrorHandler.

(* ================================================================== *)
(** ** The error taxonomy of the specification *)
(* ================================================================== *)

Module Taxonomy.
Import JS ErrorHandler.

(** The categories of the specification's [ErrorCategory]. *)
Inductive ErrorCategory : Type :=
| BadRequest
| AuthFailure
| Forbidden
| NotFound
| RateLimited
| ServerError (status : Z)
| Timeout
| ConnectionRefused
| UnknownStatus (status : Z)
| Unexpected.

(** The fixed text with which [handleApiError] opens the message of a
    category: the start of the corresponding [return] statement. *)
Definition lead (c : ErrorCategory) : string :=
  match c with
  | BadRequest => "Error: Bad request."
  | AuthFailure => "Error: Authentication failed."
  | Forbidden => "Error: Access denied."
  | NotFound => "Error: Resource not found."
  | RateLimited => "Error: Rate limit exceeded."
  | ServerError status =>
      "Error: Chorus API server error (" ++ number_to_string status ++ ")"
  | Timeout => "Error: Request timed out."
  | ConnectionRefused => "Error: Could not connect to the Chorus API."
  | UnknownStatus status =>
      "Error: API request failed with status " ++ number_to_string status ++ "."
  | Unexpected => "Error: Unexpected error occurred:"
  end.

(** A message belongs to a category when it opens with that category's
    text. *)
Definition in_category (message : string) (c : ErrorCategory) : Prop :=
  exists rest, message = lead c ++ rest.

(** The table of the specification (section 4.4), read as a function of
    the thrown value. *)
Definition classify (error : thrown) : ErrorCategory :=
  match error with
  | AxiosError _ _ (Some resp) =>
      let s := status resp in
      if s =? 400 then BadRequest
      else if s =? 401 then AuthFailure
      else if s =? 403 then Forbidden
      else if s =? 404 then NotFound
      else if s =? 429 then RateLimited
      else if s >=? 500 then ServerError s
      else UnknownStatus s
  | AxiosError _ code None =>
      if code_is code "ECONNABORTED" then Timeout
      else if code_is code "ECONNREFUSED" then ConnectionRefused
      else Unexpected
  | ErrorObject _ => Unexpected
  | Thrown _ _ => Unexpected
  end.

(** The upstream text a message repeats, as [String()] gives it: the
    response's message in the bad-request and unknown-status branches
    when it is truthy, the error's message or the stringified value in
    the last branch, nothing in the branches whose text is fixed.  It
    is an exception when [String()] raises one. *)
Definition echoed (error : thrown) : result string :=
  match error with
  | AxiosError _ _ (Some resp) =>
      let s := status resp in
      let message := upstream_message (data resp) in
      let detail := if truthy message then to_string message else Ok EmptyString in
      if s =? 400 then detail
      else if (s =? 401) || (s =? 403) || (s =? 404) || (s =? 429) then Ok EmptyString
      else if s >=? 500 then Ok EmptyString
      else detail
  | AxiosError msg code None =>
      if code_is code "ECONNABORTED" || code_is code "ECONNREFUSED"
      then Ok EmptyString else Ok msg
  | ErrorObject msg => Ok msg
  | Thrown v _ => to_string v
  end.

(** The status of the response, when the error has one, is a safe
    integer: [number_to_string] prints it as the code does. *)
Definition safe_status (error : thrown) : bool :=
  match error with
  | AxiosError _ _ (Some resp) => safe_integer (status resp)
  | _ => true
  end.

End Taxonomy.

(* ================================================================== *)
(** ** src/services/formatters.ts: durations, participants, page hints *)
(* ================================================================== *)

Module Rendering.
Import JS Formatters.

(** [formatDuration] on a whole number of seconds.  From sixty seconds
    on the operands are non-negative integers: [a % b] is then the
    remainder of the integers, which is exact, and
    [Math.floor(a / b)] is the rounded quotient rounded down. *)
Definition formatDuration (seconds : Z) : string :=
  if seconds <? 60 then number_to_string seconds ++ "s"
  else
    let minutes := js_floor_div seconds 60 in
    let remaining := seconds mod 60 in
    if minutes <? 60 then
      if remaining >? 0
      then number_to_string minutes ++ "m " ++ number_to_string remaining ++ "s"
      else number_to_string minutes ++ "m"
    else
      let hours := js_floor_div minutes 60 in
      let remainingMinutes := minutes mod 60 in
      if remainingMinutes >? 0
      then number_to_string hours ++ "h " ++ number_to_string remainingMinutes ++ "m"
      else number_to_string hours ++ "h".

(** [ChorusParticipant]: only [name] is required. *)
Record ChorusParticipant : Type := mkParticipant {
  name : string;
  email : option string;
  role : option string
}.

Definition formatParticipants (participants : list ChorusParticipant) : string :=
  if len participants =? 0 then "None"
  else if len participants <=? 3 then join ", " (map name participants)
  else
    let shown := map name (firstn 3 participants) in
    join ", " shown ++ " (+" ++ number_to_string (len participants - 3) ++ " others)".

(** [formatPaginationInfo]: the summary line, and the hint line when the
    window has more and carries a next offset. *)
Definition formatPaginationInfo {T : Type} (response : PaginatedResponse T) : string :=
  let summary :=
    "Showing " ++ number_to_string (count response) ++ " of "
      ++ number_to_string (total response) ++ " results (offset: "
      ++ number_to_string (offset response) ++ ")" in
  let lines :=
    match has_more response, next_offset response with
    | true, Some next =>
        [ summary; "More results available. Use offset=" ++ number_to_string next ]
    | _, _ => [ summary ]
    end in
  join nl lines.

End Rendering.

(* ================================================================== *)
(** ** src/services/api-client.ts: the API key and the request *)
(* ================================================================== *)

Module Transport.
Import JS ApiClient ErrorHandler.

Definition API_BASE_URL : string := "https://chorus.ai/api/v1".

Inductive Method : Type := GET | POST | PUT | DELETE.

(** The configuration [makeApiRequest] hands to axios. *)
Record AxiosRequestConfig : Type := mkConfig {
  method : Method;
  url : string;
  headers : list (string * string);
  timeout : Z;
  data : option value;
  params : option (list (string * value))
}.

(** How a call to axios settles: a response, of which only the body is
    read, or a rejection with whatever was thrown. *)
Inductive AxiosOutcome : Type :=
| Responds (body : value)
| Fails (error : thrown).

(** Why [makeApiRequest] rejects: the [Error] of [getApiKey], the
    rejection of axios, or the exception [normalizeResponse] raised. *)
Inductive rejection : Type :=
| MissingKey (message : string)
| AxiosRejection (error : thrown)
| Raised (e : exn).

Inductive settled (A : Type) : Type :=
| Resolved (a : A)
| Rejected (r : rejection).
Arguments Resolved {A} a.
Arguments Rejected {A} r.

Definition MISSING_KEY_MESSAGE : string :=
  "CHORUS_API_KEY environment variable is not set. " ++
  "Generate an API token from your Chorus Personal Settings page.".

(** [getApiKey]: [env] is [process.env.CHORUS_API_KEY], a string or
    [undefined]; [!key] holds of [undefined] and of the empty string. *)
Definition getApiKey (env : option string) : settled string :=
  match env with
  | None => Rejected (MissingKey MISSING_KEY_MESSAGE)
  | Some key =>
      if String.eqb key EmptyString then Rejected (MissingKey MISSING_KEY_MESSAGE)
      else Resolved key
  end.

(** [makeApiRequest], with the environment variable and axios as
    arguments.  [method] defaults to [GET]; [data] and [params] enter
    the configuration unless they are [undefined]. *)
Definition makeApiRequest (env : option string)
    (axios : AxiosRequestConfig -> AxiosOutcome)
    (endpoint : string) (method : option Method) (data : value)
    (params : option (list (string * value))) : settled value :=
  match getApiKey env with
  | Rejected r => Rejected r
  | Resolved apiKey =>
      let config :=
        {| method := match method with Some m => m | None => GET end;
           url := API_BASE_URL ++ "/" ++ endpoint;
           headers := [ ("Authorization", apiKey);
                        ("Content-Type", "application/json");
                        ("Accept", "application/json") ];
           timeout := 30000;
           data := if is_undefined data then None else Some data;
           params := params |} in
      match axios config with
      | Fails error => Rejected (AxiosRejection error)
      | Responds body =>
          match normalizeResponse body with
          | Ok v => Resolved v
          | Throw e => Rejected (Raised e)
          end
      end
  end.

(** The value a [catch] clause receives for a rejection: the key error
    and a [TypeError] are [Error] instances with their message. *)
Definition caught (r : rejection) : thrown :=
  match r with
  | MissingKey message => ErrorObject message
  | AxiosRejection error => error
  | Raised (TypeError message) => ErrorObject message
  end.

End Transport.

(* ================================================================== *)
(** ** Tool handlers and helpers built on the services *)
(* ================================================================== *)

Module Handlers.
Import JS ApiClient Formatters ErrorHandler Transport.

(** The handler of [chorus_delete_recording] (tools/video-conferences.ts):
    the text of its single content item, or the exception
    [handleApiError] raises inside the [catch] clause, with which the
    handler's promise rejects. *)
Definition chorus_delete_recording (env : option string)
    (axios : AxiosRequestConfig -> AxiosOutcome) (conference_id : string)
  : result string :=
  match makeApiRequest env axios ("video-conferences/" ++ conference_id)
                       (Some DELETE) VUndefined None with
  | Resolved _ => Ok ("Recording " ++ conference_id ++ " deleted successfully.")
  | Rejected r => handleApiError (caught r)
  end.

(** [Array.prototype.slice(start, end)] for integer arguments: a
    negative index counts from the end, and both are clamped to the
    array. *)
Definition slice {A : Type} (start finish : Z) (l : list A) : list A :=
  let n := len l in
  let k := if start <? 0 then Z.max (n + start) 0 else Z.min start n in
  let final := if finish <? 0 then Z.max (n + finish) 0 else Z.min finish n in
  firstn (Z.to_nat (final - k)) (skipn (Z.to_nat k) l).

(** The text of a value that [String()] converts. *)
Definition text_of (v : value) : string :=
  match to_string v with
  | Ok text => text
  | Throw _ => EmptyString
  end.

(** The window [chorus_get_team_members] (tools/teams.ts) builds from
    the user ids of the team record: the page is sliced here, each id
    goes through [String()], which may raise, and the whole list gives
    the total. *)
Definition teamMembersWindow (allUsers : list value) (offset limit : Z)
  : result (PaginatedResponse value) :=
  let start := offset in
  let finish := js_add start limit in
  let pageUsers := slice start finish allUsers in
  members <- mapM (fun uid => id <- to_string uid ;; Ok (VObj [ ("id", VStr id) ]))
                  pageUsers ;;
  Ok (buildPaginatedResponse members (len allUsers) offset).

(** A client that reads the member list page by page, from [offset] on,
    following [next_offset] for at most [fuel] pages, and stops at the
    first page that fails. *)
Fixpoint readPages (allUsers : list value) (limit : Z) (fuel : nat) (offset : Z)
  : result (list value) :=
  match fuel with
  | O => Ok []
  | S fuel' =>
      w <- teamMembersWindow allUsers offset limit ;;
      match next_offset w with
      | Some next =>
          others <- readPages allUsers limit fuel' next ;;
          Ok (items w ++ others)%list
      | None => Ok (items w)
      end
  end.

(** [a || b]. *)
Definition or_else (a b : value) : value := if truthy a then a else b.

(** What [extractMeta] (tools/conversations.ts) returns. *)
Record ConversationMeta : Type := mkMeta {
  name : value;
  id : value;
  date : value;
  duration : value;
  participants : value;
  status : value;
  summary : value;
  actionItems : value;
  recording : value
}.

Definition extractMeta (c : value) : result ConversationMeta :=
  r <- get_prop c "recording" ;;
  let recording := or_else r (VObj []) in
  n <- get_prop c "name" ;;
  i <- get_prop c "id" ;;
  start <- get_prop recording "start_time" ;;
  d <- get_prop recording "duration" ;;
  ps <- get_prop c "participants" ;;
  st <- get_prop c "status" ;;
  su <- get_prop c "summary" ;;
  ai <- get_prop c "action_items" ;;
  Ok {| name := or_else n (VStr "Untitled Conversation");
        id := i;
        date := or_else start (VStr EmptyString);
        duration := or_else d (VNum 0);
        participants := or_else ps (VArr []);
        status := st;
        summary := su;
        actionItems := ai;
        recording := recording |}.

End Handlers.

(* ================================================================== *)
(** ** tests/fixtures: wrapping records as the API returns them *)
(* ================================================================== *)

Module Fixtures.
Import JS.

Fixpoint without (k : string) (props : list (string * value))
  : list (string * value) :=
  match props with
  | [] => []
  | (k', v) :: rest =>
      if String.eqb k' k then without k rest else (k', v) :: without k rest
  end.

Definition type_name (typeName : option string) : string :=
  match typeName with
  | Some t => t
  | None => "record"
  end.

(** [wrapJsonApi]: [const { id, ...attributes } = record] reads [id] and
    copies every other own property; destructuring [null] or
    [undefined] throws. *)
Definition wrapJsonApi (record : value) (typeName : option string) : result value :=
  id <- get_prop record "id" ;;
  let attributes := without "id" (own_props record) in
  Ok (VObj [ ("id", id); ("type", VStr (type_name typeName));
             ("attributes", VObj attributes) ]).

Definition wrapJsonApiList (records : list value) (typeName : option string)
  : result value :=
  data <- mapM (fun r => wrapJsonApi r typeName) records ;;
  Ok (VObj [ ("data", VArr data);
             ("meta", VObj [ ("page",
                              VObj [ ("total", VNum (Z.of_nat (List.length records))) ]) ]) ]).

Definition wrapJsonApiSingle (record : value) (typeName : option string)
  : result value :=
  data <- wrapJsonApi record typeName ;;
  Ok (VObj [ ("data", data) ]).

End Fixtures.

(* ================================================================== *)
(** ** Shapes of a response body *)
(* ================================================================== *)

Module Shapes.
Import JS.

Definition is_object_or_array (v : value) : bool :=
  match v with
  | VObj _ | VArr _ => true
  | _ => false
  end.

Definition has_attributes (v : value) : bool :=
  match v with
  | VObj props => has_key "attributes" props
  | _ => false
  end.

(** [data] of a body, when the body is an object that has one. *)
Definition data_of (body : value) : option value :=
  match body with
  | VObj props => lookup "data" props
  | _ => None
  end.

(** The bodies on which normalisation raises: [data] is a non-empty
    array and either its first element is neither an object nor an
    array, or the first element carries an attribute bag and a later
    element is [null] or [undefined]. *)
Definition raises (body : value) : bool :=
  match data_of body with
  | Some (VArr (first :: others)) =>
      negb (is_object_or_array first)
      || (has_attributes first && existsb is_nullish others)
  | _ => false
  end.

(** The bodies normalisation hands back as they are: no [data], a
    [data] that is neither an object nor an array, an object [data]
    without an attribute bag, or a non-empty array [data] whose first
    element is an array or an object without an attribute bag. *)
Definition passes_through (body : value) : bool :=
  match data_of body with
  | None => true
  | Some (VArr []) => false
  | Some (VArr (first :: _)) => is_object_or_array first && negb (has_attributes first)
  | Some (VObj d) => negb (has_key "attributes" d)
  | Some _ => true
  end.

(** The bodies that are a collection envelope or an empty one. *)
Definition is_collection (body : value) : bool :=
  match data_of body with
  | Some (VArr []) => true
  | Some (VArr (first :: _)) => has_attributes first
  | _ => false
  end.

End Shapes.

Import JS ApiClient Formatters ErrorHandler Taxonomy.

(* ================================================================== *)
(** ** Strings: length, concatenation, prefixes *)
(* ================================================================== *)

Section StringFacts.

Lemma length_app (a b : string) :
  String.length (a ++ b) = (String.length a + String.length b)%nat.
Proof.
  induction a as [|c a IH]; simpl; [reflexivity | now rewrite IH].
Qed.

Lemma app_assoc_str (a b c : string) : (a ++ b) ++ c = a ++ (b ++ c).
Proof.
  induction a as [|x a IH]; simpl; [reflexivity | now rewrite IH].
Qed.

Lemma app_empty_r (a : string) : a ++ EmptyString = a.
Proof.
  induction a as [|x a IH]; simpl; [reflexivity | now rewrite IH].
Qed.

(** [s.slice(0, n)] keeps [min n s.length] code units and is a prefix
    of [s]. *)
Lemma app_inv_head_str (a x y : string) : a ++ x = a ++ y -> x = y.
Proof.
  induction a as [|c a IH]; simpl; intros H; [exact H|].
  injection H as H. now apply IH.
Qed.

Lemma length_slice0 (n : nat) (s : string) :
  String.length (substring 0 n s) = Nat.min n (String.length s).
Proof.
  revert s; induction n as [|n IH]; intros [|c s]; simpl; try reflexivity.
  now rewrite IH.
Qed.

Lemma slice0_prefix (n : nat) (s : string) :
  exists rest, s = substring 0 n s ++ rest.
Proof.
  revert s; induction n as [|n IH]; intros s.
  - exists s. destruct s; reflexivity.
  - destruct s as [|c s]; simpl.
    + exists EmptyString; reflexivity.
    + destruct (IH s) as [rest Hrest]. exists rest. now rewrite <- Hrest.
Qed.

Lemma length_repeat_char (c : ascii) (n : nat) :
  String.length (repeat_char c n) = n.
Proof.
  induction n as [|n IH]; simpl; [reflexivity | now rewrite IH].
Qed.

Lemma prefix_app (a b : string) : String.prefix a (a ++ b) = true.
Proof.
  induction a as [|c a IH]; simpl.
  - now destruct b.
  - destruct (ascii_dec c c); [exact IH | congruence].
Qed.

Lemma contains_eq (needle hay : string) :
  contains needle hay
  = if String.prefix needle hay then true
    else match hay with
         | EmptyString => false
         | String _ rest => contains needle rest
         end.
Proof.
  destruct hay; reflexivity.
Qed.

Lemma contains_prefix (needle hay : string) :
  String.prefix needle hay = true -> contains needle hay = true.
Proof.
  intros H. rewrite contains_eq. now rewrite H.
Qed.

Lemma contains_skip (needle a hay : string) :
  contains needle hay = true -> contains needle (a ++ hay) = true.
Proof.
  intros H. induction a as [|c a IH]; [exact H|].
  rewrite contains_eq. cbn [append].
  rewrite IH. now destruct (String.prefix needle (String c (a ++ hay))).
Qed.

(** A string contains whatever stands between two of its parts. *)
Lemma contains_middle (a needle b : string) :
  contains needle (a ++ needle ++ b) = true.
Proof.
  apply contains_skip, contains_prefix, prefix_app.
Qed.

Lemma single_line_app (a b : string) :
  single_line (a ++ b) = (single_line a && single_line b)%bool.
Proof.
  induction a as [|c a IH]; simpl; [reflexivity|].
  rewrite IH. now rewrite !andb_assoc.
Qed.

End StringFacts.

(* ================================================================== *)
(** ** Values *)
(* ================================================================== *)

Section ValueFacts.

(** Induction on values, with the hypothesis for every element of an
    array and every property value of an object. *)
Lemma value_rect_nested (P : value -> Prop) :
  P VUndefined -> P VNull -> (forall b, P (VBool b)) ->
  (forall n, P (VNum n)) -> (forall s, P (VStr s)) ->
  (forall elems, Forall P elems -> P (VArr elems)) ->
  (forall props, Forall (fun kv => P (snd kv)) props -> P (VObj props)) ->
  forall v, P v.
Proof.
  intros Hu Hn Hb Hz Hs Ha Ho.
  fix IH 1. intros [| |b|n|s|elems|props].
  - exact Hu.
  - exact Hn.
  - apply Hb.
  - apply Hz.
  - apply Hs.
  - apply Ha. induction elems as [|e es IHes]; constructor; [apply IH | exact IHes].
  - apply Ho. induction props as [|[k x] ps IHps]; constructor; [apply IH | exact IHps].
Qed.

(** [String()] returns on the printable values and raises on the
    others. *)
Lemma to_string_printable (v : value) :
  printable v = true -> exists text, to_string v = Ok text.
Proof.
  induction v as [| |b|n|s|elems IH|props IH] using value_rect_nested;
    cbn [printable to_string]; intros H; try (eexists; reflexivity).
  - destruct b; eexists; reflexivity.
  - assert (Hparts : exists parts,
               mapM (fun e => if is_nullish e then Ok EmptyString else to_string e)
                    elems = Ok parts).
    { induction IH as [|e es He Hes IHes]; [eexists; reflexivity|].
      cbn [forallb] in H. apply andb_true_iff in H as [H1 H2].
      destruct (IHes H2) as [parts Hparts]. cbn [mapM]. rewrite Hparts.
      destruct (is_nullish e); [eexists; reflexivity|].
      destruct (He H1) as [t ->]. eexists; reflexivity. }
    destruct Hparts as [parts ->]. eexists; reflexivity.
  - apply negb_true_iff in H. rewrite H. eexists; reflexivity.
Qed.

Lemma to_string_unprintable (v : value) :
  printable v = false -> exists e, to_string v = Throw e.
Proof.
  induction v as [| |b|n|s|elems IH|props IH] using value_rect_nested;
    cbn [printable to_string]; intros H; try discriminate H.
  - assert (Hparts : exists e,
               mapM (fun e => if is_nullish e then Ok EmptyString else to_string e)
                    elems = Throw e).
    { induction IH as [|x xs Hx Hxs IHxs]; [discriminate H|].
      cbn [forallb] in H. cbn [mapM].
      destruct (printable x) eqn:Ex.
      - cbn [andb] in H. destruct (IHxs H) as [e ->].
        destruct (is_nullish x); [eexists; reflexivity|].
        destruct (to_string_printable x Ex) as [t ->]. eexists; reflexivity.
      - destruct (Hx eq_refl) as [e He].
        assert (Hn : is_nullish x = false) by (destruct x; try reflexivity; discriminate Ex).
        rewrite Hn, He. eexists; reflexivity. }
    destruct Hparts as [e ->]. eexists; reflexivity.
  - apply negb_false_iff in H. rewrite H. eexists; reflexivity.
Qed.

End ValueFacts.

(* ================================================================== *)
(** ** Pagination window, truncation and output formatting *)
(* ================================================================== *)

Section FormatterProperties.

(** On the safe integers rounding to a double does nothing, and the sum
    of two doubles is the sum of the integers. *)
Lemma double_round_safe (z : Z) : safe_integer z = true -> double_round z = z.
Proof.
  unfold safe_integer, MAX_SAFE_INTEGER, double_round. intros H.
  apply Z.leb_le in H.
  assert (Hbits : Z.log2 (Z.abs z) + 1 <= 53).
  { destruct (Z.eq_dec (Z.abs z) 0) as [->|Hne]; [simpl; lia|].
    assert (Hlt : Z.log2 (Z.abs z) < 53)
      by (apply Z.log2_lt_pow2; [lia | change (2 ^ 53) with 9007199254740992; lia]).
    lia. }
  apply Z.leb_le in Hbits. now rewrite Hbits.
Qed.

Lemma js_add_safe (a b : Z) : safe_integer (a + b) = true -> js_add a b = a + b.
Proof.
  apply double_round_safe.
Qed.

(** A quotient by [b] kept with a precision [1 / P] finer than
    [2 / b] is rounded to a number with the same integer part. *)
Lemma round_half_even_floor (a b P : Z) :
  0 < b -> 0 < P -> b < 2 * P -> 0 <= a ->
  round_half_even (a * P) b / P = a / b.
Proof.
  intros Hb HP HbP Ha. unfold round_half_even.
  pose proof (Z.div_mod a b ltac:(lia)) as Da.
  pose proof (Z.mod_pos_bound a b Hb) as Ra.
  pose proof (Z.div_mod (a * P) b ltac:(lia)) as Dn.
  pose proof (Z.mod_pos_bound (a * P) b Hb) as Rn.
  set (q := a / b) in *. set (rho := a mod b) in *.
  set (m := (a * P) / b) in *. set (r := (a * P) mod b) in *.
  assert (Hlow : q * P <= m).
  { subst m. apply Z.div_le_lower_bound; [exact Hb|]. nia. }
  assert (Hup : m < (q + 1) * P).
  { subst m. apply Z.div_lt_upper_bound; [exact Hb|]. nia. }
  assert (Hgoal : forall x, q * P <= x < (q + 1) * P -> x / P = q).
  { intros x Hx. symmetry. apply Z.div_unique with (r := x - q * P); lia. }
  destruct ((b <? 2 * r) || ((2 * r =? b) && Z.odd m)) eqn:E.
  - apply Hgoal. split; [lia|].
    assert (Hr : b <= 2 * r).
    { apply orb_true_iff in E as [E|E].
      - apply Z.ltb_lt in E. lia.
      - apply andb_true_iff in E as [E _]. apply Z.eqb_eq in E. lia. }
    destruct (Z.eq_dec (m + 1) ((q + 1) * P)) as [Heq|Hne]; [|lia].
    exfalso. nia.
  - apply Hgoal. lia.
Qed.

(** [Math.floor(a / b)] is the quotient of the integers when the
    divisor is below 64 and the quotient below 2^48: the double then
    keeps at least five bits after the point. *)
Lemma js_floor_div_exact (a b : Z) :
  0 < b -> b <= a -> b < 64 -> a / b < 2 ^ 48 ->
  js_floor_div a b = a / b.
Proof.
  intros Hb Hab Hb64 Hq. unfold js_floor_div.
  assert (Hq1 : 1 <= a / b) by (apply Z.div_le_lower_bound; lia).
  assert (Hlog : Z.log2 (a / b) < 48) by (apply Z.log2_lt_pow2; lia).
  pose proof (Z.log2_nonneg (a / b)) as Hl0.
  set (f := 53 - (Z.log2 (a / b) + 1)) in *.
  assert (Hf : 5 <= f) by (subst f; lia).
  destruct (Z.leb_spec 0 f) as [_|?]; [|lia].
  assert (HP : 32 <= 2 ^ f).
  { change 32 with (2 ^ 5). apply Z.pow_le_mono_r; lia. }
  apply round_half_even_floor; lia.
Qed.

(** On the safe integers from sixty on, [Math.floor(a / 60)] is the
    quotient of the integers. *)
Lemma safe_integer_bound (a : Z) :
  safe_integer a = true -> - 9007199254740991 <= a <= 9007199254740991.
Proof.
  unfold safe_integer, MAX_SAFE_INTEGER. intros H. apply Z.leb_le in H. lia.
Qed.

Lemma quotient_below (a : Z) :
  60 <= a -> a <= 9007199254740991 -> a / 60 < 2 ^ 48.
Proof.
  intros Ha Hs.
  assert (H48 : 2 ^ 48 = 281474976710656) by (vm_compute; reflexivity).
  rewrite H48. apply Z.div_lt_upper_bound; lia.
Qed.

Lemma js_floor_div_sixty (a : Z) :
  60 <= a -> safe_integer a = true -> js_floor_div a 60 = a / 60.
Proof.
  intros Ha Hs. apply safe_integer_bound in Hs.
  apply js_floor_div_exact.
  - lia.
  - lia.
  - lia.
  - apply quotient_below; lia.
Qed.

(** C2, as the claim states it, fails beyond the safe integers: with
    three items, a total of 9007199254740996 and an offset of
    9007199254740992 (2^53), the total is greater than offset + count,
    but the sum of the two doubles rounds up to the total, so the window
    has [has_more = false] and no [next_offset]. *)
Lemma buildPaginatedResponse_rounds :
  let w := buildPaginatedResponse ["a"; "b"; "c"] 9007199254740996 9007199254740992 in
  count w = 3
  /\ 9007199254740996 > 9007199254740992 + count w
  /\ has_more w = false
  /\ next_offset w = None.
Proof.
  repeat split.
Qed.

(** C2, amended.  For every item list, total and offset such that
    [offset + items.length] is a safe integer, the window built by
    [buildPaginatedResponse] has [count = items.length]; [has_more] is
    true exactly when [total > offset + count]; [next_offset] is present
    exactly when [has_more] is true, and then equals [offset + count]. *)
Theorem buildPaginatedResponse_window {T : Type} (l : list T) (tot off : Z) :
  safe_integer (off + len l) = true ->
  let w := buildPaginatedResponse l tot off in
  count w = len l
  /\ items w = l /\ total w = tot /\ offset w = off
  /\ (has_more w = true <-> tot > off + count w)
  /\ (next_offset w <> None <-> has_more w = true)
  /\ (has_more w = true -> next_offset w = Some (off + count w)).
Proof.
  intros Hsafe. unfold buildPaginatedResponse; simpl.
  rewrite (js_add_safe off (len l) Hsafe).
  repeat split; try reflexivity.
  - intros H. apply Z.gtb_gt in H. lia.
  - intros H. apply Z.gtb_gt. lia.
  - destruct (tot >? off + len l); [reflexivity | intros H; now elim H].
  - intros H; rewrite H; discriminate.
  - intros H; now rewrite H.
Qed.

(** C2 on the window of two items out of ten at offset zero. *)
Lemma buildPaginatedResponse_window_witness :
  has_more (buildPaginatedResponse ["a"; "b"] 10 0) = true
  /\ next_offset (buildPaginatedResponse ["a"; "b"] 10 0) = Some 2.
Proof.
  pose proof (buildPaginatedResponse_window ["a"; "b"] 10 0 eq_refl) as H.
  cbv zeta in H.
  destruct H as (Hcount & _ & _ & _ & Hmore & _ & Hnext).
  assert (Hm : has_more (buildPaginatedResponse ["a"; "b"] 10 0) = true).
  { apply Hmore. rewrite Hcount. vm_compute. reflexivity. }
  split; [exact Hm|].
  rewrite (Hnext Hm), Hcount. reflexivity.
Defined.

Lemma truncateResponse_short (text : string) :
  Z.of_nat (String.length text) <= CHARACTER_LIMIT ->
  truncateResponse text = text.
Proof.
  intros H. unfold truncateResponse.
  apply Z.leb_le in H. now rewrite H.
Qed.

Lemma truncateResponse_long (text : string) :
  Z.of_nat (String.length text) > CHARACTER_LIMIT ->
  truncateResponse text
  = substring 0 (Z.to_nat CHARACTER_LIMIT) text ++ TRUNCATION_NOTICE.
Proof.
  intros H. unfold truncateResponse.
  destruct (Z.leb_spec (Z.of_nat (String.length text)) CHARACTER_LIMIT); [lia | reflexivity].
Qed.

Lemma CHARACTER_LIMIT_nonneg : 0 <= CHARACTER_LIMIT.
Proof. unfold CHARACTER_LIMIT; lia. Qed.

Lemma truncateResponse_length (text : string) :
  Z.of_nat (String.length (truncateResponse text))
  <= CHARACTER_LIMIT + Z.of_nat (String.length TRUNCATION_NOTICE).
Proof.
  pose proof CHARACTER_LIMIT_nonneg as Hlim.
  destruct (Z.leb_spec (Z.of_nat (String.length text)) CHARACTER_LIMIT) as [Hle|Hgt].
  - rewrite truncateResponse_short by exact Hle. lia.
  - rewrite truncateResponse_long by lia.
    rewrite length_app, length_slice0. lia.
Qed.

(** C5.  An input longer than the budget of 25,000 code units comes back
    as its first 25,000 code units followed by the truncation notice, so
    its length is the budget plus the length of the notice and it ends
    with the notice, which names [limit], [offset] and filters; an input
    at or under the budget comes back unchanged. *)
Theorem truncateResponse_budget (text : string) :
  CHARACTER_LIMIT = 25000
  /\ (Z.of_nat (String.length text) > CHARACTER_LIMIT ->
       Z.of_nat (String.length (truncateResponse text))
         <= CHARACTER_LIMIT + Z.of_nat (String.length TRUNCATION_NOTICE)
       /\ exists kept dropped,
            text = kept ++ dropped
            /\ Z.of_nat (String.length kept) = CHARACTER_LIMIT
            /\ truncateResponse text = kept ++ TRUNCATION_NOTICE)
  /\ (Z.of_nat (String.length text) <= CHARACTER_LIMIT ->
       truncateResponse text = text)
  /\ contains "truncated" TRUNCATION_NOTICE = true
  /\ contains "`limit` and `offset`" TRUNCATION_NOTICE = true
  /\ contains "filters" TRUNCATION_NOTICE = true.
Proof.
  split; [reflexivity|].
  split; [|split; [apply truncateResponse_short | now vm_compute]].
  intros Hgt. split; [apply truncateResponse_length|].
  destruct (slice0_prefix (Z.to_nat CHARACTER_LIMIT) text) as [rest Hrest].
  exists (substring 0 (Z.to_nat CHARACTER_LIMIT) text), rest.
  split; [exact Hrest|]. split.
  - rewrite length_slice0. pose proof CHARACTER_LIMIT_nonneg. lia.
  - now apply truncateResponse_long.
Qed.

(** The two cases of C5 at concrete inputs: 26,000 code units (the
    budget exceeded by 1000) and a short text. *)
Lemma truncateResponse_budget_witness :
  (Z.of_nat (String.length (truncateResponse (repeat_char "x" 26000)))
     <= CHARACTER_LIMIT + Z.of_nat (String.length TRUNCATION_NOTICE)
   /\ exists kept dropped,
        repeat_char "x" 26000 = kept ++ dropped
        /\ Z.of_nat (String.length kept) = CHARACTER_LIMIT
        /\ truncateResponse (repeat_char "x" 26000) = kept ++ TRUNCATION_NOTICE)
  /\ truncateResponse "Short text" = "Short text".
Proof.
  split.
  - apply (truncateResponse_budget (repeat_char "x" 26000)).
    rewrite length_repeat_char. now vm_compute.
  - apply (truncateResponse_budget "Short text"). now vm_compute.
Defined.


Lemma stringify_defined (v : value) :
  v <> VUndefined -> exists text, stringify v = Some text.
Proof.
  unfold stringify. destruct v as [| |[|]|n|s|elems|props]; simpl; intros H;
    try (eexists; reflexivity).
  now elim H.
Qed.



(** C10.  In narrative (markdown) mode the output is the truncation of
    the renderer's string: two calls with the same renderer and any two
    data values return the same string (or raise what the renderer
    raises). *)
Theorem formatOutput_markdown_ignores_data
    (data1 data2 : value) (markdownFormatter : unit -> result string) :
  (forall rendering,
      markdownFormatter tt = Ok rendering ->
      formatOutput data1 markdownFormatter MARKDOWN = Ok (truncateResponse rendering)
      /\ formatOutput data2 markdownFormatter MARKDOWN
         = Ok (truncateResponse rendering))
  /\ formatOutput data1 markdownFormatter MARKDOWN
     = formatOutput data2 markdownFormatter MARKDOWN.
Proof.
  split; [|reflexivity].
  intros rendering H. cbn [formatOutput]. rewrite H. split; reflexivity.
Qed.

End FormatterProperties.

(* ================================================================== *)
(** ** Response normalisation *)
(* ================================================================== *)

Section NormalizerProperties.

Lemma lookup_set_prop_same (k : string) (v : value) (ps : list (string * value)) :
  lookup k (set_prop k v ps) = Some v.
Proof.
  induction ps as [|[k' v'] ps IH]; simpl.
  - now rewrite String.eqb_refl.
  - destruct (String.eqb k k') eqn:E; simpl; rewrite E; [reflexivity | exact IH].
Qed.

Lemma lookup_set_prop_other (k k' : string) (v : value) (ps : list (string * value)) :
  k <> k' -> lookup k (set_prop k' v ps) = lookup k ps.
Proof.
  intros Hne. induction ps as [|[k0 v0] ps IH]; simpl.
  - destruct (String.eqb_spec k k'); [contradiction | reflexivity].
  - destruct (String.eqb_spec k' k0) as [->|Hk]; simpl.
    + destruct (String.eqb_spec k k0); [contradiction | reflexivity].
    + destruct (String.eqb_spec k k0); [reflexivity | exact IH].
Qed.

Lemma has_key_cons (k k' : string) (v : value) (ps : list (string * value)) :
  has_key k ((k', v) :: ps) = false -> k <> k' /\ has_key k ps = false.
Proof.
  unfold has_key; simpl.
  destruct (String.eqb_spec k k'); [discriminate | now split].
Qed.

(** Spreading a source that has no property [k] leaves [k] as it was. *)
Lemma lookup_fold_absent (k : string) (src tgt : list (string * value)) :
  has_key k src = false ->
  lookup k (fold_left (fun acc kv => set_prop (fst kv) (snd kv) acc) src tgt)
  = lookup k tgt.
Proof.
  revert tgt; induction src as [|[k' v'] src IH]; intros tgt H; simpl.
  - reflexivity.
  - apply has_key_cons in H as [Hne Hrest].
    rewrite IH by exact Hrest. now apply lookup_set_prop_other.
Qed.

(** Spreading a source that has a property [k] (keys distinct, as in any
    object) writes the source's value for [k]. *)
Lemma lookup_fold_present (k : string) (v : value) (src tgt : list (string * value)) :
  NoDup (map fst src) ->
  lookup k src = Some v ->
  lookup k (fold_left (fun acc kv => set_prop (fst kv) (snd kv) acc) src tgt)
  = Some v.
Proof.
  revert tgt; induction src as [|[k' v'] src IH]; intros tgt Hnd H; simpl in *.
  - discriminate.
  - inversion Hnd as [|? ? Hnotin Hnd']; subst.
    destruct (String.eqb_spec k k') as [->|Hne].
    + injection H as <-.
      rewrite lookup_fold_absent; [apply lookup_set_prop_same|].
      unfold has_key. destruct (lookup k' src) eqn:E; [|reflexivity].
      exfalso. apply Hnotin. clear - E.
      induction src as [|[k0 v0] src IH]; simpl in *; [discriminate|].
      destruct (String.eqb_spec k' k0) as [->|]; [now left | right; now apply IH].
    + now apply IH.
Qed.

(** [flattenRecord] on a record whose attribute bag has no property
    named [id]: the flattened record's [id] is the record's own. *)
Lemma flattenRecord_id_kept (props : list (string * value)) (attributes : value) :
  lookup "attributes" props = Some attributes ->
  has_key "id" (own_props attributes) = false ->
  exists flat,
    flattenRecord (VObj props) = Ok (VObj flat)
    /\ get_prop (VObj flat) "id" = get_prop (VObj props) "id".
Proof.
  intros Hattr Hno. unfold flattenRecord; simpl. rewrite Hattr.
  destruct (lookup "id" props) as [i|] eqn:Hid; simpl;
    eexists; (split; [reflexivity|]);
    unfold spread; rewrite lookup_fold_absent by exact Hno; simpl; reflexivity.
Qed.

(** The same on a record whose attribute bag does have a property named
    [id]: the flattened record's [id] is the attribute's value, whatever
    the record's own identifier is. *)
Lemma flattenRecord_id_overwritten
    (props attrs : list (string * value)) (attr_id : value) :
  lookup "attributes" props = Some (VObj attrs) ->
  NoDup (map fst attrs) ->
  lookup "id" attrs = Some attr_id ->
  exists flat,
    flattenRecord (VObj props) = Ok (VObj flat)
    /\ get_prop (VObj flat) "id" = Ok attr_id.
Proof.
  intros Hattr Hnd Hid. unfold flattenRecord; simpl. rewrite Hattr.
  destruct (lookup "id" props) as [i|]; simpl;
    eexists; (split; [reflexivity|]);
    unfold spread; simpl own_props;
    rewrite (lookup_fold_present "id" attr_id) by assumption; reflexivity.
Qed.

(** C1.  The code at a record whose attribute bag has a field named
    [id]: [flattenRecord] writes the record's identifier first and
    spreads the attribute bag over it, so the flattened [id] is the
    attribute's value ["attr-9"], not the record's identifier ["rec-1"]. *)
Theorem flattenRecord_attribute_id_wins :
  let record :=
    VObj [ ("id", VStr "rec-1"); ("type", VStr "conversation");
           ("attributes", VObj [ ("title", VStr "Weekly sync");
                                 ("id", VStr "attr-9") ]) ] in
  get_prop record "id" = Ok (VStr "rec-1")
  /\ flattenRecord record
     = Ok (VObj [ ("id", VStr "attr-9"); ("title", VStr "Weekly sync") ])
  /\ (r <- flattenRecord record ;; get_prop r "id") = Ok (VStr "attr-9").
Proof.
  repeat split.
Qed.

Lemma mapM_flattenRecord (records : list value) :
  Forall carries_attributes records ->
  exists flattened,
    mapM flattenRecord records = Ok flattened
    /\ Forall2 (fun record flat => flattenRecord record = Ok flat) records flattened.
Proof.
  induction 1 as [|r rs Hr Hrs IH]; simpl.
  - exists []; split; [reflexivity | constructor].
  - destruct IH as [fl [Hmap Hall]].
    destruct Hr as [props [attributes [-> Hattr]]].
    assert (Hflat : exists flat, flattenRecord (VObj props) = Ok flat).
    { unfold flattenRecord; simpl. rewrite Hattr.
      destruct (lookup "id" props); simpl; eexists; reflexivity. }
    destruct Hflat as [flat Hflat]. rewrite Hflat, Hmap; simpl.
    exists (flat :: fl); split; [reflexivity | now constructor].
Qed.

Lemma get_opt_page_field (props : list (string * value)) (k : string) :
  (meta <- get_prop (VObj props) "meta" ;;
   page <- get_opt meta "page" ;;
   get_opt page k) = Ok (page_field props k).
Proof.
  unfold page_field. cbn [get_prop].
  destruct (lookup "meta" props) as [[| |b|n|t|elems|meta]|]; try reflexivity.
  cbn [bind get_opt is_nullish get_prop].
  destruct (lookup "page" meta) as [[| |b|n|t|elems|page]|]; try reflexivity.
  cbn [bind get_opt is_nullish get_prop].
  destruct (lookup k page); reflexivity.
Qed.

(** X2.  [normalizeResponse] on a collection envelope: [data] a non-empty
    array of records that each carry an attribute bag.  The result has
    one flattened record per input record, in input order; [total] is
    [meta.page.total] unless that is [undefined] or [null] (or [meta]
    or [page] is missing or not an object), and then the number of
    records; [cursor] is [meta.page.cursor], [undefined] when there is
    none. *)
Lemma normalizeResponse_collection
    (props : list (string * value)) (first : value) (others : list value) :
  lookup "data" props = Some (VArr (first :: others)) ->
  Forall carries_attributes (first :: others) ->
  exists flattened,
    normalizeResponse (VObj props)
    = Ok (VObj [ ("items", VArr flattened);
                 ("total", if is_nullish (page_field props "total")
                           then VNum (len (first :: others))
                           else page_field props "total");
                 ("cursor", page_field props "cursor") ])
    /\ Forall2 (fun record flat => flattenRecord record = Ok flat)
               (first :: others) flattened
    /\ List.length flattened = List.length (first :: others).
Proof.
  intros Hdata Hall.
  destruct (mapM_flattenRecord _ Hall) as [fl [Hmap Hf2]].
  assert (Hlen : List.length fl = List.length (first :: others))
    by (symmetry; eapply Forall2_length; exact Hf2).
  assert (Hfirst : in_op "attributes" first = Ok true).
  { inversion Hall as [|? ? [p [a [-> Ha]]] _]; subst.
    simpl. unfold has_key. now rewrite Ha. }
  assert (Hlist : isJsonApiList (VObj props) = Ok true).
  { unfold isJsonApiList; simpl. unfold has_key. rewrite Hdata. simpl.
    exact Hfirst. }
  exists fl. split; [|split; [exact Hf2 | exact Hlen]].
  pose proof (get_opt_page_field props "total") as Htotal.
  pose proof (get_opt_page_field props "cursor") as Hcursor.
  unfold normalizeResponse. rewrite Hlist. cbn [bind].
  unfold get_prop at 1. rewrite Hdata. cbn [bind elements].
  rewrite Hmap. cbn [bind].
  destruct (get_prop (VObj props) "meta") as [meta|e]; cbn [bind] in *;
    [|discriminate Htotal].
  destruct (get_opt meta "page") as [page|e]; cbn [bind] in *;
    [|discriminate Htotal].
  rewrite Htotal, Hcursor. cbn [bind]. unfold nullish_or, len.
  now rewrite Hlen.
Qed.

(** C4.  The code at a collection envelope of two records, the first of
    which has an attribute named [id]: two flattened records come back in
    input order with [total] and [cursor] read from [meta.page], but the
    first one holds the attribute's ["attr-9"] under [id] and the source
    record's identifier ["rec-1"] nowhere. *)
Theorem normalizeResponse_collection_attribute_id :
  let envelope :=
    VObj [ ("data",
            VArr [ VObj [ ("id", VStr "rec-1"); ("type", VStr "conversation");
                          ("attributes", VObj [ ("title", VStr "Weekly sync");
                                                ("id", VStr "attr-9") ]) ];
                   VObj [ ("id", VStr "rec-2"); ("type", VStr "conversation");
                          ("attributes", VObj [ ("title", VStr "Demo") ]) ] ]);
           ("meta", VObj [ ("page", VObj [ ("total", VNum 10);
                                           ("cursor", VStr "c2") ]) ]) ] in
  normalizeResponse envelope
  = Ok (VObj [ ("items",
                VArr [ VObj [ ("id", VStr "attr-9"); ("title", VStr "Weekly sync") ];
                       VObj [ ("id", VStr "rec-2"); ("title", VStr "Demo") ] ]);
               ("total", VNum 10);
               ("cursor", VStr "c2") ]).
Proof.
  reflexivity.
Qed.

(** Pass-through: a body that is not an object with a [data] property
    is returned as it is. *)
Lemma normalizeResponse_no_data (body : value) :
  (forall props, body = VObj props -> has_key "data" props = false) ->
  normalizeResponse body = Ok body.
Proof.
  intros H.
  destruct body as [| |b|n|s|elems|props]; try reflexivity.
  specialize (H props eq_refl).
  unfold normalizeResponse, isJsonApiList, isJsonApiSingle, isEmptyList; simpl.
  now rewrite H.
Qed.

(** Pass-through: [data] present but neither an object nor an array. *)
Lemma normalizeResponse_data_primitive (props : list (string * value)) (data : value) :
  lookup "data" props = Some data ->
  match data with VArr _ | VObj _ => False | _ => True end ->
  normalizeResponse (VObj props) = Ok (VObj props).
Proof.
  intros Hdata Hprim.
  unfold normalizeResponse, isJsonApiList, isJsonApiSingle, isEmptyList; simpl.
  unfold has_key. rewrite Hdata. simpl.
  destruct data; try contradiction; reflexivity.
Qed.

(** Pass-through: [data] a non-empty array whose first element is an
    object without an attribute bag, or an array. *)
Lemma normalizeResponse_data_plain_list
    (props : list (string * value)) (first : value) (others : list value) :
  lookup "data" props = Some (VArr (first :: others)) ->
  in_op "attributes" first = Ok false ->
  normalizeResponse (VObj props) = Ok (VObj props).
Proof.
  intros Hdata Hfirst.
  unfold normalizeResponse, isJsonApiList, isJsonApiSingle, isEmptyList; simpl.
  unfold has_key. rewrite Hdata. simpl. rewrite Hfirst. reflexivity.
Qed.

(** C7.  The code at [{ data: ["conv-1", "conv-2"] }], a body that is
    none of the three envelope shapes (its [data] is a non-empty array
    whose first element is not an object): [isJsonApiList] applies [in]
    to the string ["conv-1"] and [normalizeResponse] ends in a
    [TypeError] instead of returning the body. *)
Theorem normalizeResponse_throws_on_primitive_element :
  let body := VObj [ ("data", VArr [ VStr "conv-1"; VStr "conv-2" ]) ] in
  isJsonApiSingle body = Ok false
  /\ isEmptyList body = Ok false
  /\ isJsonApiList body
     = Throw (TypeError "Cannot use 'in' operator to search for a key in a non-object")
  /\ normalizeResponse body
     = Throw (TypeError "Cannot use 'in' operator to search for a key in a non-object").
Proof.
  repeat split.
Qed.

End NormalizerProperties.

(* ================================================================== *)
(** ** Error classification *)
(* ================================================================== *)

Section ClassifierProperties.

Lemma all_chars_uint (d : uint) :
  all_chars is_numeral_char (NilEmpty.string_of_uint d) = true.
Proof.
  induction d; simpl; auto.
Qed.

Lemma all_chars_number (n : Z) :
  all_chars is_numeral_char (number_to_string n) = true.
Proof.
  unfold number_to_string, NilZero.string_of_int, NilZero.string_of_uint.
  destruct (Z.to_int n) as [d|d]; destruct d; simpl;
    rewrite ?all_chars_uint; reflexivity.
Qed.

Lemma all_chars_single_line (p : ascii -> bool) (s : string) :
  p LF = false -> p CR = false ->
  all_chars p s = true -> single_line s = true.
Proof.
  intros Hlf Hcr. induction s as [|c s IH]; simpl; [reflexivity|].
  intros H. apply andb_true_iff in H as [Hc Hs].
  rewrite IH by exact Hs.
  destruct (Ascii.eqb_spec c LF) as [->|]; [congruence|].
  destruct (Ascii.eqb_spec c CR) as [->|]; [congruence|].
  reflexivity.
Qed.

Lemma single_line_number (n : Z) : single_line (number_to_string n) = true.
Proof.
  apply (all_chars_single_line is_numeral_char); try reflexivity.
  apply all_chars_number.
Qed.

(** Two texts made of characters satisfying [p], each followed by the
    same delimiter that does not satisfy [p], are equal as soon as the
    delimited strings are. *)
Lemma delimited_inj (p : ascii -> bool) (d : ascii) (s1 s2 r1 r2 : string) :
  p d = false ->
  all_chars p s1 = true -> all_chars p s2 = true ->
  s1 ++ String d r1 = s2 ++ String d r2 -> s1 = s2.
Proof.
  intros Hd. revert s2.
  induction s1 as [|c1 s1 IH]; intros [|c2 s2]; simpl; intros H1 H2 E.
  - reflexivity.
  - injection E as -> _. apply andb_true_iff in H2 as [H2 _]. congruence.
  - injection E as -> _. apply andb_true_iff in H1 as [H1 _]. congruence.
  - injection E as -> E.
    apply andb_true_iff in H1 as [_ H1]. apply andb_true_iff in H2 as [_ H2].
    f_equal. now apply IH.
Qed.

Lemma to_int_not_nil (n : Z) : Z.to_int n <> Pos Nil /\ Z.to_int n <> Neg Nil.
Proof.
  destruct n as [|p|p]; simpl; split; try discriminate;
    intros H; injection H as H; now apply DecimalPos.Unsigned.to_uint_nonnil in H.
Qed.

Lemma number_to_string_inj (a b : Z) :
  number_to_string a = number_to_string b -> a = b.
Proof.
  unfold number_to_string. intros H.
  destruct (to_int_not_nil a) as [Ha1 Ha2], (to_int_not_nil b) as [Hb1 Hb2].
  apply (f_equal NilZero.int_of_string) in H.
  rewrite !NilZero.isi in H by assumption.
  injection H as H. now apply to_int_inj.
Qed.

(** When [String()] converts the upstream value, the message is
    returned, opens with the text of the category the table assigns to
    the thrown value and with ["Error: "], and is a single line exactly
    when the upstream text is; when [String()] raises, so does
    [handleApiError]. *)
Lemma handleApiError_echoed (error : thrown) :
  match echoed error with
  | Ok upstream =>
      exists text,
        handleApiError error = Ok text
        /\ in_category text (classify error)
        /\ String.prefix "Error: " text = true
        /\ single_line text = single_line upstream
  | Throw e => handleApiError error = Throw e
  end.
Proof.
  unfold in_category.
  destruct error as [msg code [[st d]|]|msg|v Hv];
    cbn [handleApiError echoed classify status ErrorHandler.data].
  - destruct (st =? 400).
    { destruct (truthy (upstream_message d)).
      - destruct (to_string (upstream_message d)) as [t|e]; cbn [bind];
          [|reflexivity].
        eexists. split; [reflexivity|]. split; [eexists; reflexivity|].
        split; reflexivity.
      - cbn [bind]. eexists. split; [reflexivity|].
        split; [eexists; reflexivity|]. split; reflexivity. }
    destruct (st =? 401);
      [eexists; split; [reflexivity|]; split; [eexists; reflexivity|]; split; reflexivity|].
    destruct (st =? 403);
      [eexists; split; [reflexivity|]; split; [eexists; reflexivity|]; split; reflexivity|].
    destruct (st =? 404);
      [eexists; split; [reflexivity|]; split; [eexists; reflexivity|]; split; reflexivity|].
    destruct (st =? 429);
      [eexists; split; [reflexivity|]; split; [eexists; reflexivity|]; split; reflexivity|].
    cbn [orb].
    destruct (st >=? 500).
    + eexists. split; [reflexivity|]. split; [|split; [reflexivity|]].
      * exists ". Try again later.". cbn [lead]. now rewrite !app_assoc_str.
      * now rewrite !single_line_app, single_line_number.
    + assert (Hgen : forall detail,
                 exists text,
                   Ok ("Error: API request failed with status "
                         ++ number_to_string st ++ ". " ++ detail) = Ok text
                   /\ (exists rest, text = lead (UnknownStatus st) ++ rest)
                   /\ String.prefix "Error: " text = true
                   /\ single_line text = single_line detail).
      { intros detail. eexists. split; [reflexivity|]. split; [|split; [reflexivity|]].
        - exists (" " ++ detail). cbn [lead]. rewrite !app_assoc_str. reflexivity.
        - now rewrite !single_line_app, single_line_number. }
      destruct (truthy (upstream_message d)).
      * destruct (to_string (upstream_message d)) as [t|e]; cbn [bind];
          [apply Hgen | reflexivity].
      * cbn [bind]. apply Hgen.
  - destruct (code_is code "ECONNABORTED"); cbn [orb];
      [eexists; split; [reflexivity|]; split; [eexists; reflexivity|]; split; reflexivity|].
    destruct (code_is code "ECONNREFUSED");
      eexists; (split; [reflexivity|]); (split; [eexists; reflexivity|]);
      split; reflexivity.
  - eexists. split; [reflexivity|]. split; [eexists; reflexivity|]. split; reflexivity.
  - destruct (to_string v) as [t|e]; cbn [bind]; [|reflexivity].
    eexists. split; [reflexivity|]. split; [eexists; reflexivity|]. split; reflexivity.
Qed.

Lemma handleApiError_in_classify (error : thrown) (text : string) :
  handleApiError error = Ok text -> in_category text (classify error).
Proof.
  intros H. pose proof (handleApiError_echoed error) as He.
  destruct (echoed error) as [upstream|e].
  - destruct He as (t & Ht & Hc & _). rewrite Ht in H. now injection H as <-.
  - rewrite He in H. discriminate H.
Qed.

(** No message belongs to two categories. *)
Lemma in_category_unique (message : string) (c1 c2 : ErrorCategory) :
  in_category message c1 -> in_category message c2 -> c1 = c2.
Proof.
  intros [r1 H1] [r2 H2]. rewrite H1 in H2. clear H1.
  destruct c1 as [| | | | |s1| | |s1|], c2 as [| | | | |s2| | |s2|];
    try reflexivity; try (simpl in H2; discriminate H2);
    unfold lead in H2; rewrite !app_assoc_str in H2;
    apply app_inv_head_str in H2;
    apply (delimited_inj is_numeral_char) in H2;
    try reflexivity; try apply all_chars_number;
    f_equal; now apply number_to_string_inj.
Qed.

Lemma handleApiError_server_error (msg : string) (code : option string)
    (st : Z) (d : value) :
  st >= 500 ->
  handleApiError (AxiosError msg code (Some (mkResponse st d)))
  = Ok ("Error: Chorus API server error (" ++ number_to_string st
          ++ "). Try again later.").
Proof.
  intros H. unfold handleApiError; cbn [status ErrorHandler.data].
  destruct (Z.eqb_spec st 400); [lia|].
  destruct (Z.eqb_spec st 401); [lia|].
  destruct (Z.eqb_spec st 403); [lia|].
  destruct (Z.eqb_spec st 404); [lia|].
  destruct (Z.eqb_spec st 429); [lia|].
  destruct (Z.geb_spec st 500); [reflexivity | lia].
Qed.

(** C3, as the claim states it, fails: on a 400 response whose body is
    [{ message: { toString: 1 } }] the message is truthy,
    [String(message)] raises a [TypeError], and [handleApiError] lets it
    through: no text is returned and no category assigned. *)
Lemma handleApiError_rethrows :
  let error :=
    AxiosError "Request failed with status code 400" (Some "ERR_BAD_REQUEST")
      (Some (mkResponse 400
               (VObj [ ("message", VObj [ ("toString", VNum 1) ]) ]))) in
  handleApiError error = Throw (TypeError "Cannot convert object to primitive value")
  /\ ~ (exists text, handleApiError error = Ok text).
Proof.
  split; [reflexivity|]. intros [text H]. discriminate H.
Qed.

(** C3, amended.  For every thrown value whose upstream value
    [String()] converts (and whose status, if any, is a safe integer),
    [handleApiError] returns a message, and the message belongs to
    exactly one category of the taxonomy; status 401 gives the
    authentication failure, 404 not-found, 429 rate-limited, every
    status of 500 or more the server error carrying that status, a
    response-less axios error coded [ECONNABORTED] the timeout, and a
    thrown string the unexpected category with a message that contains
    the string. *)
Theorem handleApiError_classification :
  (forall error upstream,
      echoed error = Ok upstream -> safe_status error = true ->
      exists text,
        handleApiError error = Ok text /\ exists! c, in_category text c)
  /\ (forall msg code d,
        exists text,
          handleApiError (AxiosError msg code (Some (mkResponse 401 d))) = Ok text
          /\ in_category text AuthFailure)
  /\ (forall msg code d,
        exists text,
          handleApiError (AxiosError msg code (Some (mkResponse 404 d))) = Ok text
          /\ in_category text NotFound)
  /\ (forall msg code d,
        exists text,
          handleApiError (AxiosError msg code (Some (mkResponse 429 d))) = Ok text
          /\ in_category text RateLimited)
  /\ (forall msg code st d,
        st >= 500 -> safe_integer st = true ->
        exists text,
          handleApiError (AxiosError msg code (Some (mkResponse st d))) = Ok text
          /\ in_category text (ServerError st)
          /\ contains (number_to_string st) text = true)
  /\ (forall msg,
        exists text,
          handleApiError (AxiosError msg (Some "ECONNABORTED") None) = Ok text
          /\ in_category text Timeout)
  /\ (forall s,
        handleApiError (Thrown (VStr s) eq_refl)
        = Ok ("Error: Unexpected error occurred: " ++ s)
        /\ in_category ("Error: Unexpected error occurred: " ++ s) Unexpected
        /\ contains s ("Error: Unexpected error occurred: " ++ s) = true).
Proof.
  split.
  { intros error upstream Hup _.
    pose proof (handleApiError_echoed error) as He. rewrite Hup in He.
    destruct He as (text & Ht & Hc & _).
    exists text. split; [exact Ht|]. exists (classify error). split; [exact Hc|].
    intros c' H. symmetry. eapply in_category_unique; [exact H | exact Hc]. }
  repeat split; intros.
  - eexists. split; [reflexivity|]. eexists; reflexivity.
  - eexists. split; [reflexivity|]. eexists; reflexivity.
  - eexists. split; [reflexivity|]. eexists; reflexivity.
  - eexists. split; [now apply handleApiError_server_error|]. split.
    + exists ". Try again later.". unfold lead. now rewrite !app_assoc_str.
    + apply contains_middle.
  - eexists. split; [reflexivity|]. eexists; reflexivity.
  - exists (" " ++ s). reflexivity.
  - pose proof (contains_middle "Error: Unexpected error occurred: " s "") as H.
    rewrite app_empty_r in H. exact H.
Qed.

(** C3 at status 503. *)
Lemma handleApiError_classification_witness :
  exists text,
    handleApiError
      (AxiosError "Request failed with status code 503" (Some "ERR_BAD_RESPONSE")
                  (Some (mkResponse 503 (VObj [])))) = Ok text
    /\ in_category text (ServerError 503)
    /\ contains "503" text = true.
Proof.
  destruct handleApiError_classification as (_ & _ & _ & _ & H & _).
  apply (H _ _ 503); [lia | reflexivity].
Defined.

(** C9, as the claim states it, fails: a 400 response whose message has
    two lines gives a message of two lines. *)
Lemma handleApiError_two_lines :
  ~ (forall error text,
        handleApiError error = Ok text ->
        single_line text = true /\ String.prefix "Error: " text = true).
Proof.
  intros H.
  destruct (H (AxiosError "Request failed with status code 400" (Some "ERR_BAD_REQUEST")
                 (Some (mkResponse 400
                    (VObj [ ("message",
                             VStr ("start_date is invalid" ++ nl ++
                                   "end_date is invalid")) ]))))
              _ eq_refl)
    as [Hline _].
  vm_compute in Hline. discriminate Hline.
Qed.

(** C9, amended.  For every thrown value whose upstream value
    [String()] converts, [handleApiError] returns a message that begins
    with ["Error: "], and the message is a single line exactly when the
    upstream text it repeats (the response's message, the error's
    message or the stringified value; nothing in the branches with a
    fixed text) is. *)
Theorem handleApiError_prefix_and_lines (error : thrown) (upstream : string) :
  echoed error = Ok upstream ->
  exists text,
    handleApiError error = Ok text
    /\ String.prefix "Error: " text = true
    /\ single_line text = single_line upstream.
Proof.
  intros Hup. pose proof (handleApiError_echoed error) as He. rewrite Hup in He.
  destruct He as (text & Ht & _ & Hp & Hl). now exists text.
Qed.

(** C9, amended, on a 404 (a fixed text, one line) and on a thrown
    array of two strings, which [String()] joins with a comma. *)
Lemma handleApiError_prefix_and_lines_witness :
  (exists text,
     handleApiError (AxiosError "Request failed with status code 404"
                       (Some "ERR_BAD_REQUEST") (Some (mkResponse 404 VNull)))
     = Ok text
     /\ String.prefix "Error: " text = true /\ single_line text = true)
  /\ (exists text,
        handleApiError (Thrown (VArr [VStr "disk"; VStr "full"]) eq_refl) = Ok text
        /\ String.prefix "Error: " text = true /\ single_line text = true).
Proof.
  split.
  - apply (handleApiError_prefix_and_lines
             (AxiosError "Request failed with status code 404"
                (Some "ERR_BAD_REQUEST") (Some (mkResponse 404 VNull))) EmptyString).
    reflexivity.
  - apply (handleApiError_prefix_and_lines
             (Thrown (VArr [VStr "disk"; VStr "full"]) eq_refl) "disk,full").
    reflexivity.
Defined.

(** When [String()] raises on the upstream value, [handleApiError]
    raises the same exception. *)
Lemma handleApiError_raises (error : thrown) (e : exn) :
  echoed error = Throw e -> handleApiError error = Throw e.
Proof.
  intros Hup. pose proof (handleApiError_echoed error) as He.
  now rewrite Hup in He.
Qed.

End ClassifierProperties.



(* ================================================================== *)
(** ** Structured output: parsing back what [JSON.stringify] printed *)
(* ================================================================== *)

Section RoundTrip.

(** *** White space *)

Lemma skip_ws_app (w s : string) :
  all_chars is_ws w = true -> skip_ws (w ++ s) = skip_ws s.
Proof.
  induction w as [|c w IH]; simpl; [reflexivity|].
  intros H. apply andb_true_iff in H as [Hc Hw]. rewrite Hc. now apply IH.
Qed.

Lemma skip_ws_stop (c : ascii) (s : string) :
  is_ws c = false -> skip_ws (String c s) = String c s.
Proof.
  intros H. simpl. now rewrite H.
Qed.

Lemma all_chars_app (p : ascii -> bool) (a b : string) :
  all_chars p (a ++ b) = (all_chars p a && all_chars p b)%bool.
Proof.
  induction a as [|c a IH]; simpl; [reflexivity|].
  now rewrite IH, andb_assoc.
Qed.

Lemma parse_value_skip (fuel : nat) (w s : string) :
  all_chars is_ws w = true -> parse_value fuel (w ++ s) = parse_value fuel s.
Proof.
  intros H. destruct fuel; simpl; [reflexivity|]. now rewrite skip_ws_app.
Qed.

Lemma parse_members_skip (fuel : nat) (w s : string) :
  all_chars is_ws w = true -> parse_members fuel (w ++ s) = parse_members fuel s.
Proof.
  intros H. destruct fuel; simpl; [reflexivity|]. now rewrite skip_ws_app.
Qed.

Lemma parse_elements_skip (fuel : nat) (w s : string) :
  all_chars is_ws w = true -> parse_elements fuel (w ++ s) = parse_elements fuel s.
Proof.
  intros H. destruct fuel; simpl; [reflexivity|]. now rewrite parse_value_skip.
Qed.

(** *** Numbers *)

Lemma digit_is_plain (c : ascii) :
  is_digit c = true ->
  Ascii.eqb c "-" = false /\ Ascii.eqb c "+" = false /\ Ascii.eqb c "." = false
  /\ Ascii.eqb c "e" = false /\ Ascii.eqb c "E" = false.
Proof.
  destruct c as [[|] [|] [|] [|] [|] [|] [|] [|]]; intros H;
    try discriminate H; repeat split.
Qed.

Lemma continues_digit (c : ascii) (s : string) :
  continues_numeral (String c s) = false ->
  is_digit c = false /\ Ascii.eqb c "." = false
  /\ Ascii.eqb c "e" = false /\ Ascii.eqb c "E" = false.
Proof.
  cbn [continues_numeral]. intros H.
  apply orb_false_iff in H as [H HE]. apply orb_false_iff in H as [H He].
  apply orb_false_iff in H as [Hd Hp]. now repeat split.
Qed.

Lemma scan_digits_app (d rest : string) :
  all_chars is_digit d = true ->
  starts_with_digit rest = false ->
  scan_digits (d ++ rest) = (d, rest).
Proof.
  intros Hd Hrest. induction d as [|c d IH]; cbn [append].
  - destruct rest as [|c r]; [reflexivity|]. cbn in *. now rewrite Hrest.
  - cbn [all_chars] in Hd. apply andb_true_iff in Hd as [Hc Hd].
    cbn [scan_digits]. rewrite Hc, IH by exact Hd. reflexivity.
Qed.

Lemma all_chars_zeros (j : nat) : all_chars is_digit (repeat_char "0" j) = true.
Proof.
  induction j as [|j IH]; [reflexivity | exact IH].
Qed.

Lemma strip_leading_zeros (j : nat) (d : string) :
  strip_leading (repeat_char "0" j ++ d) = strip_leading d.
Proof.
  induction j as [|j IH]; [reflexivity | exact IH].
Qed.

Lemma strip_trailing_zeros (j : nat) : strip_trailing (repeat_char "0" j) = EmptyString.
Proof.
  induction j as [|j IH]; [reflexivity|]. cbn [repeat_char strip_trailing].
  now rewrite IH.
Qed.

Lemma strip_trailing_app (a b : string) :
  strip_trailing b = EmptyString -> strip_trailing (a ++ b) = strip_trailing a.
Proof.
  intros Hb. induction a as [|c a IH]; [exact Hb|].
  cbn [append strip_trailing]. now rewrite IH.
Qed.

Lemma substring_split (n : nat) (d : string) :
  (n <= String.length d)%nat ->
  substring 0 n d ++ substring n (String.length d - n) d = d.
Proof.
  revert d. induction n as [|n IH]; intros d Hn.
  - cbn [substring]. rewrite Nat.sub_0_r. destruct d as [|c d]; [reflexivity|].
    cbn [substring append String.length].
    f_equal. clear. induction d as [|x d IH]; [reflexivity|].
    cbn [String.length substring]. now rewrite IH.
  - destruct d as [|c d]; [simpl in Hn; lia|].
    cbn [String.length] in *. cbn [substring append]. f_equal.
    apply IH. lia.
Qed.

Lemma length_substring0 (n : nat) (d : string) :
  (n <= String.length d)%nat -> String.length (substring 0 n d) = n.
Proof.
  revert d. induction n as [|n IH]; intros [|c d] Hn; cbn in *;
    try lia; try reflexivity.
  rewrite IH by lia. reflexivity.
Qed.

(** The parts of a well-formed digit string. *)
Lemma shortest_parts (d : string) :
  shortest d = true ->
  all_chars is_digit d = true /\ d <> EmptyString
  /\ strip_leading d = d /\ strip_trailing d = d.
Proof.
  unfold shortest. intros H.
  apply andb_true_iff in H as [H Ht]. apply andb_true_iff in H as [H Hl].
  apply andb_true_iff in H as [Ha Hn].
  apply String.eqb_eq in Ht, Hl. repeat split; try assumption.
  intros ->. discriminate Hn.
Qed.

Lemma shortest_head (d : string) :
  shortest d = true ->
  exists c r, d = String c r /\ is_digit c = true /\ Ascii.eqb c "0" = false
              /\ all_chars is_digit r = true.
Proof.
  intros H. destruct (shortest_parts d H) as (Ha & Hn & Hl & _).
  destruct d as [|c r]; [now elim Hn|].
  cbn [all_chars] in Ha. apply andb_true_iff in Ha as [Hc Hr].
  exists c, r. repeat split; try assumption.
  cbn [strip_leading] in Hl. destruct (Ascii.eqb c "0") eqn:E; [|reflexivity].
  exfalso. clear - Hl.
  assert (Hlen : forall s, (String.length (strip_leading s) <= String.length s)%nat).
  { induction s as [|x s IH]; cbn; [lia|]. destruct (Ascii.eqb x "0"); cbn; lia. }
  pose proof (Hlen r) as Hle. rewrite Hl in Hle. cbn in Hle. lia.
Qed.

Lemma exponent_digits (e : Z) :
  0 <= e ->
  exists u, number_to_string e = NilEmpty.string_of_uint u
            /\ u <> Nil /\ Z.of_uint u = e.
Proof.
  intros He. unfold number_to_string.
  destruct e as [|p|p]; [ | | lia ]; cbn [Z.to_int NilZero.string_of_int].
  - exists (D0 Nil). repeat split. discriminate.
  - pose proof (DecimalPos.Unsigned.to_uint_nonnil p) as Hnil.
    exists (Pos.to_uint p). repeat split.
    + destruct (Pos.to_uint p); [now elim Hnil | reflexivity ..].
    + exact Hnil.
    + pose proof (DecimalZ.of_to (Z.pos p)) as Hz. cbn [Z.to_int] in Hz.
      exact Hz.
Qed.

Lemma uint_digits (u : uint) : all_chars is_digit (NilEmpty.string_of_uint u) = true.
Proof.
  induction u; simpl; try reflexivity; exact IHu.
Qed.

Lemma numeral_value_uint (u : uint) :
  numeral_value (NilEmpty.string_of_uint u) = Z.of_uint u.
Proof.
  unfold numeral_value. now rewrite NilEmpty.usu.
Qed.

Lemma parse_exponent_none (rest : string) :
  continues_numeral rest = false -> parse_exponent rest = Some (0, rest).
Proof.
  destruct rest as [|c r]; [reflexivity|]. intros H.
  destruct (continues_digit c r H) as (_ & _ & He & HE).
  cbn [parse_exponent]. now rewrite He, HE.
Qed.

Lemma parse_fraction_none (rest : string) :
  continues_numeral rest = false -> parse_fraction rest = Some (EmptyString, rest).
Proof.
  destruct rest as [|c r]; [reflexivity|]. intros H.
  destruct (continues_digit c r H) as (_ & Hp & _ & _).
  cbn [parse_fraction]. now rewrite Hp.
Qed.

Lemma continues_starts (rest : string) :
  continues_numeral rest = false -> starts_with_digit rest = false.
Proof.
  destruct rest as [|c r]; [reflexivity|]. intros H.
  now destruct (continues_digit c r H) as (Hd & _).
Qed.

Lemma parse_exponent_render (e : Z) (rest : string) :
  starts_with_digit rest = false ->
  parse_exponent ("e" ++ (if 0 <=? e then "+" else "-")
                      ++ number_to_string (Z.abs e) ++ rest)
  = Some (e, rest).
Proof.
  intros Hrest.
  destruct (exponent_digits (Z.abs e) (Z.abs_nonneg e)) as (u & Hu & Hnil & Hval).
  rewrite Hu.
  assert (Hscan : scan_digits (NilEmpty.string_of_uint u ++ rest)
                  = (NilEmpty.string_of_uint u, rest))
    by (apply scan_digits_app; [apply uint_digits | exact Hrest]).
  assert (Hne : exists c t, NilEmpty.string_of_uint u = String c t)
    by (destruct u; [now elim Hnil | simpl; eexists _, _; reflexivity ..]).
  destruct Hne as (c & t & Hct).
  destruct (0 <=? e) eqn:Es; cbn [append parse_exponent];
    change (Ascii.eqb "e" "e") with true; cbn [orb parse_sign];
    [ change (Ascii.eqb "+" "-") with false; change (Ascii.eqb "+" "+") with true
    | change (Ascii.eqb "-" "-") with true ];
    cbv iota; rewrite Hscan, Hct, <- Hct, numeral_value_uint, Hval;
    f_equal; f_equal.
  - apply Z.leb_le in Es. lia.
  - apply Z.leb_gt in Es. lia.
Qed.

Lemma parse_number_sign (negative : bool) (c : ascii) (body : string) :
  is_digit c = true ->
  parse_number ((if negative then "-" else EmptyString) ++ String c body)
  = let (int_part, s2) := scan_digits (String c body) in
    if valid_int_part int_part then
      match parse_fraction s2 with
      | Some (fraction, s3) =>
          match parse_exponent s3 with
          | Some (e, s4) => Some (decimal negative int_part fraction e, s4)
          | None => None
          end
      | None => None
      end
    else None.
Proof.
  intros Hc. destruct (digit_is_plain c Hc) as (Hm & _).
  destruct negative; cbn [append]; unfold parse_number.
  - change (Ascii.eqb "-" "-") with true. reflexivity.
  - now rewrite Hm.
Qed.

(** A numeral without a fraction. *)
Lemma parse_number_whole (negative : bool) (int_part tail rest : string) (e : Z) :
  all_chars is_digit int_part = true ->
  valid_int_part int_part = true ->
  starts_with_digit tail = false ->
  parse_fraction tail = Some (EmptyString, tail) ->
  parse_exponent tail = Some (e, rest) ->
  parse_number ((if negative then "-" else EmptyString) ++ int_part ++ tail)
  = Some (decimal negative int_part EmptyString e, rest).
Proof.
  intros Hd Hv Ht Hf He.
  destruct int_part as [|c i]; [discriminate Hv|].
  pose proof Hd as Hd'. cbn [all_chars] in Hd'. apply andb_true_iff in Hd' as [Hc _].
  cbn [append]. rewrite parse_number_sign by exact Hc.
  change (String c (i ++ tail)) with (String c i ++ tail).
  rewrite scan_digits_app by assumption.
  now rewrite Hv, Hf, He.
Qed.

(** A numeral with a fraction. *)
Lemma parse_number_fraction (negative : bool) (int_part fraction tail rest : string)
    (e : Z) :
  all_chars is_digit int_part = true ->
  valid_int_part int_part = true ->
  all_chars is_digit fraction = true ->
  fraction <> EmptyString ->
  starts_with_digit tail = false ->
  parse_exponent tail = Some (e, rest) ->
  parse_number ((if negative then "-" else EmptyString)
                  ++ int_part ++ "." ++ fraction ++ tail)
  = Some (decimal negative int_part fraction e, rest).
Proof.
  intros Hd Hv Hfd Hfn Ht He.
  destruct int_part as [|c i]; [discriminate Hv|].
  pose proof Hd as Hd'. cbn [all_chars] in Hd'. apply andb_true_iff in Hd' as [Hc _].
  cbn [append]. rewrite parse_number_sign by exact Hc.
  change (String c (i ++ String "." (fraction ++ tail)))
    with (String c i ++ String "." (fraction ++ tail)).
  rewrite scan_digits_app by (try assumption; reflexivity).
  rewrite Hv. cbn [parse_fraction]. change (Ascii.eqb "." ".") with true. cbv iota.
  rewrite scan_digits_app by assumption.
  destruct fraction as [|f fs]; [now elim Hfn|]. now rewrite He.
Qed.

Lemma decimal_shortest (negative : bool) (digits : string) (lead : nat)
    (int_part fraction : string) (zeros : nat) (e : Z) :
  shortest digits = true ->
  int_part ++ fraction = repeat_char "0" lead ++ digits ++ repeat_char "0" zeros ->
  decimal negative int_part fraction e
  = Finite negative digits (Z.of_nat (String.length int_part) - Z.of_nat lead + e).
Proof.
  intros Hs Hall.
  destruct (shortest_parts digits Hs) as (Ha & Hn & Hl & Ht).
  destruct (shortest_head digits Hs) as (c & r & Hcr & Hc & Hc0 & Hr).
  unfold decimal. rewrite Hall, strip_leading_zeros.
  assert (Hsig : strip_leading (digits ++ repeat_char "0" zeros)
                 = digits ++ repeat_char "0" zeros).
  { rewrite Hcr. cbn [append strip_leading]. now rewrite Hc0. }
  rewrite Hsig. rewrite strip_trailing_app by apply strip_trailing_zeros.
  rewrite Ht. rewrite length_app, length_repeat_char.
  replace (lead + String.length (digits ++ repeat_char "0" zeros)
           - String.length (digits ++ repeat_char "0" zeros))%nat with lead by lia.
  rewrite Hcr at 1. cbn [append]. reflexivity.
Qed.

Lemma all_chars_substring (p : ascii -> bool) (n m : nat) (d : string) :
  all_chars p d = true -> all_chars p (substring n m d) = true.
Proof.
  revert n m. induction d as [|c d IH]; intros n m H.
  - destruct n, m; reflexivity.
  - cbn [all_chars] in H. apply andb_true_iff in H as [Hc Hd].
    destruct n as [|n]; [destruct m as [|m]|]; cbn [substring all_chars];
      try reflexivity.
    + rewrite Hc. now apply IH.
    + now apply IH.
Qed.

Lemma length_substring (n m : nat) (d : string) :
  (n + m <= String.length d)%nat -> String.length (substring n m d) = m.
Proof.
  revert n m. induction d as [|c d IH]; intros n m H; cbn [String.length] in H.
  - destruct n, m; try reflexivity; lia.
  - destruct n as [|n]; [destruct m as [|m]|]; cbn [substring String.length];
      try reflexivity.
    + rewrite IH by lia. reflexivity.
    + apply IH. lia.
Qed.

Lemma parse_number_finite (negative : bool) (digits : string) (point : Z)
    (rest : string) :
  shortest digits = true ->
  continues_numeral rest = false ->
  parse_number (render (Finite negative digits point) ++ rest)
  = Some (Finite negative digits point, rest).
Proof.
  intros Hs Hrest.
  destruct (shortest_parts digits Hs) as (Ha & Hn & Hl & Ht).
  destruct (shortest_head digits Hs) as (c & r & Hcr & Hc & Hc0 & Hr).
  pose proof (continues_starts rest Hrest) as Hstart.
  cbn [render]. unfold render_finite.
  remember (Z.of_nat (String.length digits)) as k eqn:Ek.
  assert (Hk : 1 <= k) by (subst k; rewrite Hcr; cbn [String.length]; lia).
  destruct ((k <=? point) && (point <=? 21)) eqn:E1.
  { (* digits followed by zeros *)
    apply andb_true_iff in E1 as [E1 _]. apply Z.leb_le in E1.
    rewrite !app_assoc_str.
    rewrite <- (app_assoc_str digits).
    rewrite parse_number_whole with (e := 0) (rest := rest).
    - rewrite (decimal_shortest negative digits 0 _ _ (Z.to_nat (point - k)));
        [ | exact Hs | now rewrite app_empty_r ].
      rewrite length_app, length_repeat_char. repeat f_equal. lia.
    - now rewrite all_chars_app, Ha, all_chars_zeros.
    - rewrite Hcr. cbn [append valid_int_part].
      destruct (r ++ repeat_char "0" (Z.to_nat (point - k))); [reflexivity|].
      now rewrite Hc0.
    - exact Hstart.
    - now apply parse_fraction_none.
    - now apply parse_exponent_none. }
  destruct ((0 <? point) && (point <=? 21)) eqn:E2.
  { (* a decimal point inside the digits *)
    apply andb_true_iff in E2 as [E2 E2']. apply Z.ltb_lt in E2.
    apply Z.leb_le in E2'.
    apply andb_false_iff in E1 as [E1|E1];
      [apply Z.leb_gt in E1 | apply Z.leb_gt in E1; lia].
    assert (Hlen : (Z.to_nat point <= String.length digits)%nat) by lia.
    pose proof (substring_split (Z.to_nat point) digits Hlen) as Hsplit.
    replace (Z.to_nat (k - point))
      with (String.length digits - Z.to_nat point)%nat by lia.
    set (i := substring 0 (Z.to_nat point) digits) in *.
    set (f := substring (Z.to_nat point) (String.length digits - Z.to_nat point) digits) in *.
    assert (Hi : String.length i = Z.to_nat point)
      by (subst i; now apply length_substring0).
    assert (Hf : String.length f = (String.length digits - Z.to_nat point)%nat)
      by (subst f; apply length_substring; lia).
    rewrite !app_assoc_str.
    rewrite parse_number_fraction with (e := 0) (rest := rest).
    - rewrite (decimal_shortest negative digits 0 _ _ 0);
        [ | exact Hs | cbn [repeat_char append]; now rewrite app_empty_r ].
      repeat f_equal. lia.
    - subst i. now apply all_chars_substring.
    - assert (Hi0 : exists t, i = String c t).
      { subst i. rewrite Hcr. destruct (Z.to_nat point) as [|m] eqn:Em; [lia|].
        cbn [substring]. eexists; reflexivity. }
      destruct Hi0 as [t Hi0]. rewrite Hi0. cbn [valid_int_part].
      destruct t; [reflexivity | now rewrite Hc0].
    - subst f. now apply all_chars_substring.
    - intros Hf0. rewrite Hf0 in Hf. cbn [String.length] in Hf. lia.
    - exact Hstart.
    - now apply parse_exponent_none. }
  destruct ((-6 <? point) && (point <=? 0)) eqn:E3.
  { (* zero, the point, zeros, the digits *)
    apply andb_true_iff in E3 as [_ E3]. apply Z.leb_le in E3.
    change ("0." ++ repeat_char "0" (Z.to_nat (- point)) ++ digits)
      with ("0" ++ "." ++ (repeat_char "0" (Z.to_nat (- point)) ++ digits)).
    rewrite !app_assoc_str.
    rewrite <- (app_assoc_str (repeat_char "0" (Z.to_nat (- point))) digits rest).
    rewrite parse_number_fraction with (e := 0) (rest := rest).
    - rewrite (decimal_shortest negative digits (S (Z.to_nat (- point))) _ _ 0);
        [ | exact Hs | cbn [repeat_char append]; now rewrite app_empty_r ].
      cbn [String.length]. repeat f_equal. lia.
    - reflexivity.
    - reflexivity.
    - now rewrite all_chars_app, Ha, all_chars_zeros.
    - rewrite Hcr. destruct (Z.to_nat (- point)); discriminate.
    - exact Hstart.
    - now apply parse_exponent_none. }
  (* exponent form *)
  pose proof (parse_exponent_render (point - 1) rest Hstart) as Hexp.
  rewrite Hcr. destruct r as [|c' r'].
  - rewrite !app_assoc_str.
    rewrite parse_number_whole with (e := point - 1) (rest := rest).
    + rewrite (decimal_shortest negative digits 0 _ _ 0);
        [ | exact Hs | rewrite Hcr; reflexivity ].
      cbn [String.length]. rewrite <- Hcr. repeat f_equal. lia.
    + cbn [all_chars]. now rewrite Hc.
    + reflexivity.
    + reflexivity.
    + reflexivity.
    + exact Hexp.
  - change (String c ("." ++ String c' r')) with (String c EmptyString ++ "." ++ String c' r').
    rewrite !app_assoc_str.
    rewrite parse_number_fraction with (e := point - 1) (rest := rest).
    + rewrite (decimal_shortest negative digits 0 _ _ 0);
        [ | exact Hs | rewrite Hcr; cbn [repeat_char append]; now rewrite app_empty_r ].
      cbn [String.length]. rewrite <- Hcr. repeat f_equal. lia.
    + cbn [all_chars]. now rewrite Hc.
    + reflexivity.
    + exact Hr.
    + discriminate.
    + reflexivity.
    + exact Hexp.
Qed.

(** *** Whole numbers *)

Lemma to_uint_normal (p : positive) : unorm (Pos.to_uint p) = Pos.to_uint p.
Proof.
  pose proof (DecimalZ.to_of (Z.to_int (Z.pos p))) as H.
  rewrite DecimalZ.of_to in H. simpl in H.
  now injection H as H.
Qed.

Lemma digits_of_head (p : positive) :
  exists c r, digits_of p = String c r /\ is_digit c = true
              /\ Ascii.eqb c "0" = false /\ all_chars is_digit r = true.
Proof.
  pose proof (to_uint_normal p) as Hn.
  pose proof (DecimalPos.Unsigned.to_uint_nonnil p) as Hnil.
  pose proof (DecimalPos.Unsigned.to_uint_nonzero p) as Hz.
  unfold digits_of.
  destruct (Pos.to_uint p) as [|d|d|d|d|d|d|d|d|d|d];
    try (cbn [NilEmpty.string_of_uint]; eexists _, _;
         repeat split; apply uint_digits).
  - now elim Hnil.
  - exfalso. unfold unorm in Hn. rewrite DecimalFacts.nzhead_D0 in Hn.
    destruct (nzhead d) eqn:E; try discriminate Hn.
    + injection Hn as <-. now elim Hz.
    + eapply DecimalFacts.nzhead_nonzero. exact E.
Qed.

Lemma strip_trailing_digits (s : string) :
  all_chars is_digit s = true -> all_chars is_digit (strip_trailing s) = true.
Proof.
  induction s as [|c s IH]; [reflexivity|]. cbn [all_chars strip_trailing].
  intros H. apply andb_true_iff in H as [Hc Hs]. specialize (IH Hs).
  destruct (strip_trailing s) as [|x kept].
  - destruct (Ascii.eqb c "0"); [reflexivity|]. cbn [all_chars]. now rewrite Hc.
  - cbn [all_chars] in *. now rewrite Hc.
Qed.

Lemma strip_trailing_idempotent (s : string) :
  strip_trailing (strip_trailing s) = strip_trailing s.
Proof.
  induction s as [|c s IH]; [reflexivity|]. cbn [strip_trailing].
  destruct (strip_trailing s) as [|x kept] eqn:E.
  - destruct (Ascii.eqb c "0") eqn:E0; [reflexivity|].
    cbn [strip_trailing]. now rewrite E0.
  - cbn [strip_trailing]. cbn [strip_trailing] in IH. now rewrite IH.
Qed.

Lemma strip_trailing_head (c : ascii) (r : string) :
  Ascii.eqb c "0" = false ->
  strip_trailing (String c r) = String c (strip_trailing r).
Proof.
  intros H. cbn [strip_trailing]. rewrite H. now destruct (strip_trailing r).
Qed.

Lemma shortest_digits_of (p : positive) : shortest (strip_trailing (digits_of p)) = true.
Proof.
  destruct (digits_of_head p) as (c & r & Hcr & Hc & Hc0 & Hr).
  unfold shortest. rewrite strip_trailing_idempotent, String.eqb_refl, andb_true_r.
  rewrite strip_trailing_digits
    by (rewrite Hcr; cbn [all_chars]; now rewrite Hc).
  rewrite Hcr, strip_trailing_head by exact Hc0.
  cbn [strip_leading String.eqb]. rewrite Hc0. cbn [negb andb].
  apply String.eqb_refl.
Qed.

Lemma is_number_num (z : Z) : is_number (num z) = true.
Proof.
  destruct z as [|p|p]; [reflexivity | apply shortest_digits_of ..].
Qed.

(** *** Strings *)

Lemma parse_quoted_char (c : ascii) (tail : string) :
  parse_string_body (quote_char c ++ tail) = prepend c (parse_string_body tail).
Proof.
  destruct c as [[|] [|] [|] [|] [|] [|] [|] [|]]; reflexivity.
Qed.

Lemma parse_quoted_body (s rest : string) :
  parse_string_body (quote_body s ++ String dquote rest) = Some (s, rest).
Proof.
  induction s as [|c s IH]; [reflexivity|].
  cbn [quote_body]. rewrite app_assoc_str, parse_quoted_char, IH. reflexivity.
Qed.

(** *** Dispatch on the first character *)

Lemma expect_hit (c : ascii) (r : string) :
  expect (String c EmptyString) (String c r) = Some r.
Proof.
  simpl. now rewrite Ascii.eqb_refl.
Qed.

Lemma expect_miss (c x : ascii) (r : string) :
  Ascii.eqb x c = false -> expect (String c EmptyString) (String x r) = None.
Proof.
  intros H. simpl. now rewrite H.
Qed.

Lemma numeral_char_dispatch (c : ascii) :
  is_numeral_char c = true ->
  is_ws c = false /\ Ascii.eqb c "n" = false /\ Ascii.eqb c "t" = false
  /\ Ascii.eqb c "f" = false /\ Ascii.eqb c dquote = false
  /\ Ascii.eqb c "[" = false /\ Ascii.eqb c "{" = false
  /\ Ascii.eqb c "]" = false /\ Ascii.eqb c "}" = false.
Proof.
  destruct c as [[|] [|] [|] [|] [|] [|] [|] [|]]; intros H;
    try discriminate H; repeat split.
Qed.

Lemma digit_numeral_char (c : ascii) : is_digit c = true -> is_numeral_char c = true.
Proof.
  destruct c as [[|] [|] [|] [|] [|] [|] [|] [|]]; intros H;
    try discriminate H; reflexivity.
Qed.

Lemma render_finite_head (digits : string) (point : Z) :
  shortest digits = true ->
  exists c t, render_finite digits point = String c t /\ is_digit c = true.
Proof.
  intros Hs.
  destruct (shortest_head digits Hs) as (c & r & Hcr & Hc & Hc0 & Hr).
  unfold render_finite.
  destruct ((Z.of_nat (String.length digits) <=? point) && (point <=? 21)).
  { rewrite Hcr. cbn [append]. eexists _, _. split; [reflexivity | exact Hc]. }
  destruct ((0 <? point) && (point <=? 21)) eqn:E2.
  { apply andb_true_iff in E2 as [E2 _]. apply Z.ltb_lt in E2.
    rewrite Hcr. destruct (Z.to_nat point) as [|m] eqn:Em; [lia|].
    cbn [substring append]. eexists _, _. split; [reflexivity | exact Hc]. }
  destruct ((-6 <? point) && (point <=? 0)).
  { cbn [append]. eexists _, _. split; reflexivity. }
  rewrite Hcr. destruct r; cbn [append]; eexists _, _; (split; [reflexivity | exact Hc]).
Qed.

Lemma number_head (n : number) :
  is_number n = true -> reads_back n = true ->
  exists c t, number_text n = String c t /\ is_numeral_char c = true.
Proof.
  destruct n as [|neg|[|]|neg digits point]; intros Hn Hr; try discriminate Hr.
  - eexists _, _. split; reflexivity.
  - cbn [number_text render]. destruct neg; cbn [append].
    + eexists _, _. split; reflexivity.
    + destruct (render_finite_head digits point Hn) as (c & t & -> & Hc).
      exists c, t. split; [reflexivity | now apply digit_numeral_char].
Qed.

Lemma parse_number_roundtrip (n : number) (rest : string) :
  is_number n = true -> reads_back n = true ->
  continues_numeral rest = false ->
  parse_number (number_text n ++ rest) = Some (n, rest).
Proof.
  destruct n as [|neg|[|]|neg digits point]; intros Hn Hr Hrest;
    try discriminate Hr.
  - cbn [number_text render].
    apply (parse_number_whole false "0" rest rest 0); try reflexivity.
    + now apply continues_starts.
    + now apply parse_fraction_none.
    + now apply parse_exponent_none.
  - now apply parse_number_finite.
Qed.

Lemma parse_value_number (fuel : nat) (n : number) (rest : string) :
  is_number n = true -> reads_back n = true ->
  continues_numeral rest = false ->
  parse_value (S fuel) (number_text n ++ rest) = Some (VNum n, rest).
Proof.
  intros Hn Hr Hrest.
  pose proof (parse_number_roundtrip n rest Hn Hr Hrest) as Hnum.
  destruct (number_head n Hn Hr) as [c [t [Hct Hc]]].
  rewrite Hct in *. cbn [append] in *.
  destruct (numeral_char_dispatch c Hc) as (Hws & Hn' & Ht & Hf & Hq & Ha & Ho & _).
  cbn [parse_value]. rewrite skip_ws_stop by exact Hws.
  now rewrite Hn', Ht, Hf, Hq, Ha, Ho, Hnum.
Qed.

Lemma parse_value_string (fuel : nat) (s rest : string) :
  parse_value (S fuel) (quote s ++ rest) = Some (VStr s, rest).
Proof.
  unfold quote. cbn [append parse_value].
  rewrite skip_ws_stop by reflexivity.
  change (Ascii.eqb dquote "n") with false.
  change (Ascii.eqb dquote "t") with false.
  change (Ascii.eqb dquote "f") with false.
  change (Ascii.eqb dquote dquote) with true. cbv iota.
  rewrite app_assoc_str. cbn [append].
  now rewrite parse_quoted_body.
Qed.

Lemma serialize_opens (indent : string) (v : value) (text : string) :
  readable v = true ->
  serialize indent v = Some text -> opens_value text.
Proof.
  unfold opens_value.
  destruct v as [| |[|]|n|s|elems|props]; cbn [readable serialize]; intros Hv H;
    try discriminate H; injection H as <-;
    try (eexists _, _; repeat split; fail).
  - apply andb_true_iff in Hv as [Hn Hr].
    destruct (number_head n Hn Hr) as [c [t [Hct Hc]]].
    destruct (numeral_char_dispatch c Hc) as (Hws & _ & _ & _ & _ & _ & _ & Hb & Hc').
    exists c, t. now repeat split.
  - unfold bracket. destruct (map _ elems); eexists _, _; repeat split.
  - unfold bracket.
    match goal with |- context [match ?l with [] => _ | _ => _ end] =>
      destruct l end; eexists _, _; repeat split.
Qed.

(** *** Lines and indentation *)

Lemma ws_line (indent : string) :
  all_chars is_ws indent = true -> all_chars is_ws (nl ++ indent) = true.
Proof.
  intros H. simpl. exact H.
Qed.

Lemma ws_inner (indent : string) :
  all_chars is_ws indent = true -> all_chars is_ws (indent ++ gap) = true.
Proof.
  intros H. now rewrite all_chars_app, H.
Qed.

Lemma skip_ws_line (indent s : string) :
  all_chars is_ws indent = true -> skip_ws (nl ++ indent ++ s) = skip_ws s.
Proof.
  intros H. rewrite <- app_assoc_str. now apply skip_ws_app, ws_line.
Qed.

Lemma parse_elements_line (fuel : nat) (indent s : string) :
  all_chars is_ws indent = true ->
  parse_elements fuel (nl ++ indent ++ s) = parse_elements fuel s.
Proof.
  intros H. rewrite <- app_assoc_str. now apply parse_elements_skip, ws_line.
Qed.

Lemma parse_members_line (fuel : nat) (indent s : string) :
  all_chars is_ws indent = true ->
  parse_members fuel (nl ++ indent ++ s) = parse_members fuel s.
Proof.
  intros H. rewrite <- app_assoc_str. now apply parse_members_skip, ws_line.
Qed.

Lemma serialize_defined (indent : string) (v : value) :
  readable v = true -> exists text, serialize indent v = Some text.
Proof.
  destruct v as [| |[|]|n|s|elems|props]; simpl; intros H;
    try discriminate H; eexists; reflexivity.
Qed.

(** *** Members of an object *)

Lemma readable_members (ps : list (string * value)) :
  readable (VObj ps) = true ->
  distinct (map fst ps) = true
  /\ Forall (fun kv => snd kv = VUndefined \/ readable (snd kv) = true) ps.
Proof.
  cbn [readable]. intros H. apply andb_true_iff in H as [Hd Hm].
  split; [exact Hd|]. clear Hd.
  induction ps as [|[k x] ps IH]; constructor.
  - apply andb_true_iff in Hm as [Hx _]. apply orb_true_iff in Hx as [Hx|Hx].
    + left. destruct x; try discriminate Hx; reflexivity.
    + now right.
  - apply andb_true_iff in Hm as [_ Hm]. now apply IH.
Qed.

Lemma prune_members_cons (k : string) (x : value) (ps : list (string * value)) :
  members_of (prune (VObj ((k, x) :: ps)))
  = if is_undefined x then members_of (prune (VObj ps))
    else (k, prune x) :: members_of (prune (VObj ps)).
Proof.
  cbn [prune members_of]. destruct (is_undefined x); reflexivity.
Qed.

Lemma readable_defined (v : value) : readable v = true -> is_undefined v = false.
Proof.
  destruct v; simpl; intros H; try discriminate H; reflexivity.
Qed.

Lemma member_texts_nil (inner : string) (ps : list (string * value)) :
  Forall (fun kv => snd kv = VUndefined \/ readable (snd kv) = true) ps ->
  member_texts inner ps = [] ->
  members_of (prune (VObj ps)) = [].
Proof.
  induction 1 as [|[k x] ps Hx Hps IH]; [reflexivity|].
  cbn [member_texts]. rewrite prune_members_cons.
  destruct Hx as [Hx|Hx]; cbn [snd] in Hx.
  - subst x. cbn [serialize is_undefined]. exact IH.
  - destruct (serialize_defined inner x Hx) as [t Ht]. rewrite Ht. discriminate.
Qed.

(** One member: its quoted key, the colon and the space, then its value. *)
Lemma parse_members_key (fuel : nat) (k s : string) :
  parse_members (S fuel) (quote k ++ ": " ++ s)
  = match parse_value fuel s with
    | Some (v, r2) =>
        match expect "," (skip_ws r2) with
        | Some r3 =>
            match parse_members fuel r3 with
            | Some (ms, r4) => Some ((k, v) :: ms, r4)
            | None => None
            end
        | None =>
            match expect "}" (skip_ws r2) with
            | Some r3 => Some ([(k, v)], r3)
            | None => None
            end
        end
    | None => None
    end.
Proof.
  cbn [parse_members]. unfold quote. cbn [append].
  rewrite skip_ws_stop by reflexivity. rewrite expect_hit.
  rewrite app_assoc_str. cbn [append].
  rewrite parse_quoted_body.
  rewrite skip_ws_stop by reflexivity. rewrite expect_hit.
  change (String " " s) with (" " ++ s).
  rewrite parse_value_skip by reflexivity. reflexivity.
Qed.

(** *** Arrays and objects at one indentation *)

Section Indented.

Variables indent rest : string.
Hypothesis indent_ws : all_chars is_ws indent = true.

(** The elements of an array, after the first bracket and the first
    line break and indentation. *)
Lemma parse_elements_texts (es : list value) :
  Forall round_trips es ->
  forallb readable es = true ->
  es <> [] ->
  forall fuel,
    (String.length (join ("," ++ nl ++ indent ++ gap) (elem_texts (indent ++ gap) es))
       < fuel)%nat ->
    parse_elements fuel
      (join ("," ++ nl ++ indent ++ gap) (elem_texts (indent ++ gap) es)
         ++ nl ++ indent ++ "]" ++ rest)
    = Some (map prune es, rest).
Proof.
  intros Hall. induction Hall as [|e es' He Hes' IH]; intros Hcan Hne fuel Hfuel.
  - now elim Hne.
  - cbn [forallb] in Hcan. apply andb_true_iff in Hcan as [Hce Hces].
    destruct (serialize_defined (indent ++ gap) e Hce) as [t Ht].
    cbn [elem_texts map] in *. rewrite Ht in *.
    fold (elem_texts (indent ++ gap) es') in *.
    destruct fuel as [|f]; [lia|].
    destruct es' as [|e2 es''].
    + cbn [elem_texts map join] in *.
      cbn [parse_elements].
      rewrite (He Hce (indent ++ gap) t (nl ++ indent ++ "]" ++ rest) f);
        [ | now apply ws_inner | exact Ht | reflexivity | lia ].
      rewrite skip_ws_line by exact indent_ws.
      cbn [append]. rewrite skip_ws_stop by reflexivity.
      rewrite expect_miss by reflexivity. rewrite expect_hit. reflexivity.
    + assert (Hj : join ("," ++ nl ++ indent ++ gap)
                        (t :: elem_texts (indent ++ gap) (e2 :: es''))
                   = t ++ ("," ++ nl ++ indent ++ gap)
                       ++ join ("," ++ nl ++ indent ++ gap)
                               (elem_texts (indent ++ gap) (e2 :: es''))) by reflexivity.
      rewrite Hj in *. clear Hj.
      set (J := join ("," ++ nl ++ indent ++ gap)
                     (elem_texts (indent ++ gap) (e2 :: es''))) in *.
      rewrite !length_app in Hfuel.
      change (String.length ",") with 1%nat in Hfuel.
      rewrite !app_assoc_str.
      cbn [parse_elements].
      rewrite (He Hce (indent ++ gap) t _ f);
        [ | now apply ws_inner | exact Ht | reflexivity | lia ].
      cbn [append]. rewrite skip_ws_stop by reflexivity.
      rewrite expect_hit.
      change (String LF ?x) with (nl ++ x).
      rewrite <- (app_assoc_str indent gap).
      rewrite parse_elements_line by (now apply ws_inner).
      change (String "]" rest) with ("]" ++ rest).
      rewrite IH; [reflexivity | exact Hces | discriminate | lia].
Qed.

(** The members of an object, likewise. *)
Lemma parse_members_texts (ps : list (string * value)) :
  Forall (fun kv => round_trips (snd kv)) ps ->
  Forall (fun kv => snd kv = VUndefined \/ readable (snd kv) = true) ps ->
  member_texts (indent ++ gap) ps <> [] ->
  forall fuel,
    (String.length (join ("," ++ nl ++ indent ++ gap) (member_texts (indent ++ gap) ps))
       < fuel)%nat ->
    parse_members fuel
      (join ("," ++ nl ++ indent ++ gap) (member_texts (indent ++ gap) ps)
         ++ nl ++ indent ++ "}" ++ rest)
    = Some (members_of (prune (VObj ps)), rest).
Proof.
  intros Hall.
  induction Hall as [|[k x] ps' Hx Hps' IH]; intros Hcan Hne fuel Hfuel.
  - now elim Hne.
  - inversion Hcan as [|? ? Hcx Hcps]; subst. cbn [snd] in Hx, Hcx.
    rewrite prune_members_cons. cbn [member_texts] in *.
    destruct Hcx as [Hcx|Hcx].
    { subst x. cbn [serialize is_undefined] in *. now apply IH. }
    destruct (serialize_defined (indent ++ gap) x Hcx) as [t Ht].
    rewrite Ht in *. rewrite (readable_defined x Hcx).
    destruct fuel as [|f]; [lia|].
    destruct (member_texts (indent ++ gap) ps') as [|m2 ms] eqn:Em.
    + rewrite (member_texts_nil _ _ Hcps Em).
      cbn [join] in *. rewrite !length_app in Hfuel.
      rewrite !app_assoc_str. rewrite parse_members_key.
      rewrite (Hx Hcx (indent ++ gap) t (nl ++ indent ++ "}" ++ rest) f);
        [ | now apply ws_inner | exact Ht | reflexivity | lia ].
      rewrite skip_ws_line by exact indent_ws.
      cbn [append]. rewrite skip_ws_stop by reflexivity.
      rewrite expect_miss by reflexivity. rewrite expect_hit. reflexivity.
    + assert (Hj : join ("," ++ nl ++ indent ++ gap)
                        ((quote k ++ ": " ++ t) :: m2 :: ms)
                   = (quote k ++ ": " ++ t) ++ ("," ++ nl ++ indent ++ gap)
                       ++ join ("," ++ nl ++ indent ++ gap) (m2 :: ms)) by reflexivity.
      rewrite Hj in *. clear Hj.
      set (J := join ("," ++ nl ++ indent ++ gap) (m2 :: ms)) in *.
      rewrite !length_app in Hfuel.
      change (String.length ",") with 1%nat in Hfuel.
      rewrite !app_assoc_str. rewrite parse_members_key.
      rewrite (Hx Hcx (indent ++ gap) t _ f);
        [ | now apply ws_inner | exact Ht | reflexivity | lia ].
      cbn [append]. rewrite skip_ws_stop by reflexivity.
      rewrite expect_hit.
      change (String LF ?y) with (nl ++ y).
      rewrite <- (app_assoc_str indent gap).
      rewrite parse_members_line by (now apply ws_inner).
      change (String "}" rest) with ("}" ++ rest).
      rewrite IH; [reflexivity | exact Hcps | discriminate | lia].
Qed.

End Indented.

(** Building an object from members with distinct keys gives those
    members, in order. *)
Lemma existsb_eqb_false (k : string) (l : list string) :
  existsb (String.eqb k) l = false -> ~ In k l.
Proof.
  induction l as [|x l IH]; simpl; [tauto|].
  intros H [Hx|Hin]; apply orb_false_iff in H as [H1 H2].
  - subst. now rewrite String.eqb_refl in H1.
  - now apply IH.
Qed.

Lemma distinct_NoDup (l : list string) : distinct l = true -> NoDup l.
Proof.
  induction l as [|k l IH]; simpl; intros H; constructor;
    apply andb_true_iff in H as [Hk Hl].
  - apply existsb_eqb_false. now apply negb_true_iff.
  - now apply IH.
Qed.

Lemma NoDup_distinct (l : list string) : NoDup l -> distinct l = true.
Proof.
  induction 1 as [|k l Hk Hl IH]; simpl; [reflexivity|].
  rewrite IH, andb_true_r. apply negb_true_iff.
  destruct (existsb (String.eqb k) l) eqn:E; [|reflexivity].
  apply existsb_exists in E as [x [Hin Hx]].
  apply String.eqb_eq in Hx. now subst.
Qed.

Lemma set_prop_fresh (k : string) (v : value) (acc : list (string * value)) :
  ~ In k (map fst acc) -> set_prop k v acc = (acc ++ [(k, v)])%list.
Proof.
  induction acc as [|[k' v'] acc IH]; simpl; intros H; [reflexivity|].
  destruct (String.eqb_spec k k') as [->|Hne]; [tauto|].
  rewrite IH by tauto. reflexivity.
Qed.

Lemma build_distinct (ms acc : list (string * value)) :
  NoDup (map fst (acc ++ ms)%list) ->
  fold_left (fun a kv => set_prop (fst kv) (snd kv) a) ms acc = (acc ++ ms)%list.
Proof.
  revert acc. induction ms as [|[k v] ms IH]; intros acc H; simpl.
  - now rewrite List.app_nil_r.
  - rewrite set_prop_fresh.
    + rewrite IH; rewrite <- List.app_assoc; [reflexivity | exact H].
    + rewrite map_app in H. simpl in H.
      apply NoDup_remove_2 in H. intros Hin. apply H.
      apply in_or_app. now left.
Qed.

Lemma pruned_keys (k : string) (ps : list (string * value)) :
  In k (map fst (members_of (prune (VObj ps)))) -> In k (map fst ps).
Proof.
  induction ps as [|[k' x] ps IH]; [tauto|].
  rewrite prune_members_cons.
  destruct (is_undefined x); simpl; intros H; [right; now apply IH|].
  destruct H as [H|H]; [now left | right; now apply IH].
Qed.

Lemma pruned_NoDup (ps : list (string * value)) :
  NoDup (map fst ps) -> NoDup (map fst (members_of (prune (VObj ps)))).
Proof.
  induction ps as [|[k x] ps IH]; [intros _; constructor|].
  intros H. simpl in H. inversion H as [|? ? Hk Hps]; subst.
  rewrite prune_members_cons.
  destruct (is_undefined x); [now apply IH|].
  simpl. constructor; [|now apply IH].
  intros Hin. apply Hk. now apply pruned_keys.
Qed.

(** *** Every readable value is parsed back from its serialisation *)

Lemma round_trips_all (v : value) : round_trips v.
Proof.
  induction v as [| |b|n|s|elems IH|props IH] using value_rect_nested;
    intros Hcan indent text rest fuel Hind Hser Hrest Hfuel.
  - discriminate Hcan.
  - injection Hser as <-. destruct fuel as [|f]; [simpl in Hfuel; lia|]. reflexivity.
  - destruct b; injection Hser as <-;
      (destruct fuel as [|f]; [simpl in Hfuel; lia|]); reflexivity.
  - injection Hser as <-.
    cbn [readable] in Hcan. apply andb_true_iff in Hcan as [Hn Hr].
    destruct (number_head n Hn Hr) as [c [t [Hct _]]].
    destruct fuel as [|f]; [rewrite Hct in Hfuel; simpl in Hfuel; lia|].
    now apply parse_value_number.
  - injection Hser as <-.
    destruct fuel as [|f]; [simpl in Hfuel; lia|].
    apply parse_value_string.
  - cbn [serialize] in Hser. injection Hser as <-.
    fold (elem_texts (indent ++ gap) elems) in *.
    cbn [readable] in Hcan.
    destruct elems as [|e es].
    + destruct fuel as [|f]; [simpl in Hfuel; lia|]. reflexivity.
    + assert (Hb : bracket "[" "]" indent (elem_texts (indent ++ gap) (e :: es))
                   = "[" ++ nl ++ (indent ++ gap)
                       ++ join ("," ++ nl ++ indent ++ gap)
                               (elem_texts (indent ++ gap) (e :: es))
                       ++ nl ++ indent ++ "]") by reflexivity.
      rewrite Hb in *. clear Hb.
      set (J := join ("," ++ nl ++ indent ++ gap)
                     (elem_texts (indent ++ gap) (e :: es))) in *.
      destruct (serialize_defined (indent ++ gap) e) as [t Ht].
      { cbn [forallb] in Hcan. now apply andb_true_iff in Hcan as [Hce _]. }
      assert (HJ : opens_value (J ++ nl ++ indent ++ "]" ++ rest)).
      { subst J. cbn [elem_texts map]. rewrite Ht.
        assert (Hre : readable e = true)
          by (cbn [forallb] in Hcan; now apply andb_true_iff in Hcan as [Hce _]).
        destruct (serialize_opens _ _ _ Hre Ht) as [c [t' [-> Hc]]].
        destruct (map _ es); cbn [join append]; eexists _, _; split;
          try reflexivity; exact Hc. }
      destruct HJ as [c [t' [HJ [Hws [Hcb _]]]]].
      rewrite !length_app in Hfuel.
      change (String.length "[") with 1%nat in Hfuel.
      change (String.length nl) with 1%nat in Hfuel.
      destruct fuel as [|f]; [lia|].
      rewrite !app_assoc_str. cbn [append parse_value].
      rewrite skip_ws_stop by reflexivity.
      change (Ascii.eqb "[" "n") with false.
      change (Ascii.eqb "[" "t") with false.
      change (Ascii.eqb "[" "f") with false.
      change (Ascii.eqb "[" dquote) with false.
      change (Ascii.eqb "[" "[") with true. cbv iota.
      change (String LF ?y) with (nl ++ y).
      rewrite <- (app_assoc_str indent gap).
      rewrite skip_ws_line by (now apply ws_inner).
      rewrite parse_elements_line by (now apply ws_inner).
      change (String "]" rest) with ("]" ++ rest).
      rewrite HJ at 1. rewrite skip_ws_stop by exact Hws.
      rewrite expect_miss by exact Hcb.
      subst J. rewrite parse_elements_texts;
        [reflexivity | exact Hind | exact IH | exact Hcan | discriminate | lia].
  - cbn [serialize] in Hser. injection Hser as <-.
    assert (Hm : forall inner ps,
               (fix members (ps : list (string * value)) : list string :=
                  match ps with
                  | [] => []
                  | (k, x) :: rest0 =>
                      match serialize inner x with
                      | Some s => (quote k ++ ": " ++ s) :: members rest0
                      | None => members rest0
                      end
                  end) ps = member_texts inner ps).
    { intros inner ps. induction ps as [|[k x] ps IHps]; [reflexivity|].
      cbn [member_texts]. now rewrite IHps. }
    rewrite Hm in *. clear Hm.
    destruct (readable_members props Hcan) as [Hd Hmem].
    change (prune (VObj props)) with (VObj (members_of (prune (VObj props)))).
    destruct (member_texts (indent ++ gap) props) as [|m ms] eqn:Em.
    + rewrite (member_texts_nil _ _ Hmem Em).
      destruct fuel as [|f]; [simpl in Hfuel; lia|]. reflexivity.
    + assert (Hb : bracket "{" "}" indent (m :: ms)
                   = "{" ++ nl ++ (indent ++ gap)
                       ++ join ("," ++ nl ++ indent ++ gap) (m :: ms)
                       ++ nl ++ indent ++ "}") by reflexivity.
      rewrite Hb in *. clear Hb. rewrite <- Em in *.
      set (J := join ("," ++ nl ++ indent ++ gap)
                     (member_texts (indent ++ gap) props)) in *.
      assert (HJ : exists t', J = String dquote t').
      { subst J. rewrite Em. destruct ms; cbn [join].
        - clear - Em. revert Em. induction props as [|[k x] ps IHps]; [discriminate|].
          cbn [member_texts]. destruct (serialize (indent ++ gap) x).
          + intros H. injection H as <- _. unfold quote. eexists; reflexivity.
          + exact IHps.
        - clear - Em. revert Em. induction props as [|[k x] ps IHps]; [discriminate|].
          cbn [member_texts]. destruct (serialize (indent ++ gap) x).
          + intros H. injection H as <- _. unfold quote. eexists; reflexivity.
          + exact IHps. }
      destruct HJ as [t' HJ].
      rewrite !length_app in Hfuel.
      change (String.length "{") with 1%nat in Hfuel.
      change (String.length nl) with 1%nat in Hfuel.
      destruct fuel as [|f]; [lia|].
      rewrite !app_assoc_str. cbn [append parse_value].
      rewrite skip_ws_stop by reflexivity.
      change (Ascii.eqb "{" "n") with false.
      change (Ascii.eqb "{" "t") with false.
      change (Ascii.eqb "{" "f") with false.
      change (Ascii.eqb "{" dquote) with false.
      change (Ascii.eqb "{" "[") with false.
      change (Ascii.eqb "{" "{") with true. cbv iota.
      change (String LF ?y) with (nl ++ y).
      rewrite <- (app_assoc_str indent gap).
      rewrite skip_ws_line by (now apply ws_inner).
      rewrite parse_members_line by (now apply ws_inner).
      change (String "}" rest) with ("}" ++ rest).
      rewrite HJ at 1. cbn [append]. rewrite skip_ws_stop by reflexivity.
      rewrite expect_miss by reflexivity.
      change (String "}" rest) with ("}" ++ rest).
      subst J. rewrite parse_members_texts;
        [ | exact Hind | exact IH | exact Hmem | rewrite Em; discriminate | lia].
      rewrite build_distinct; [reflexivity|].
      apply pruned_NoDup, distinct_NoDup, Hd.
Qed.

(** *** Pruning *)

Lemma prune_defined (v : value) : is_undefined v = false -> is_undefined (prune v) = false.
Proof.
  destruct v; simpl; intros H; try discriminate H; reflexivity.
Qed.

Lemma prune_idempotent (v : value) : prune (prune v) = prune v.
Proof.
  induction v as [| |b|n|s|elems IH|props IH] using value_rect_nested;
    try reflexivity.
  - cbn [prune]. f_equal. rewrite map_map.
    induction IH as [|e es He Hes IHes]; [reflexivity|].
    cbn [map]. now rewrite He, IHes.
  - change (prune (VObj props)) with (VObj (members_of (prune (VObj props)))).
    change (prune (VObj (members_of (prune (VObj props)))))
      with (VObj (members_of (prune (VObj (members_of (prune (VObj props))))))).
    f_equal.
    induction IH as [|[k x] ps Hx Hps IHps]; [reflexivity|].
    rewrite (prune_members_cons k x ps).
    destruct (is_undefined x) eqn:Eu; [exact IHps|].
    rewrite prune_members_cons, (prune_defined x Eu).
    cbn [snd] in Hx. now rewrite Hx, IHps.
Qed.

Lemma is_json_members (ps : list (string * value)) :
  is_json (VObj ps) = true ->
  distinct (map fst ps) = true /\ Forall (fun kv => is_json (snd kv) = true) ps.
Proof.
  cbn [is_json]. intros H. apply andb_true_iff in H as [Hd Hm].
  split; [exact Hd|]. clear Hd.
  induction ps as [|[k x] ps IH]; constructor;
    apply andb_true_iff in Hm as [Hx Hm]; [exact Hx | now apply IH].
Qed.

Lemma is_json_defined (v : value) : is_json v = true -> is_undefined v = false.
Proof.
  destruct v; simpl; intros H; try discriminate H; reflexivity.
Qed.

Lemma is_json_prune (v : value) : is_json v = true -> prune v = v.
Proof.
  induction v as [| |b|n|s|elems IH|props IH] using value_rect_nested;
    try reflexivity; intros H.
  - cbn [prune is_json] in *. f_equal.
    induction IH as [|e es He Hes IHes]; [reflexivity|].
    cbn [forallb] in H. apply andb_true_iff in H as [H1 H2].
    cbn [map]. now rewrite He, IHes.
  - destruct (is_json_members props H) as [_ Hall]. clear H.
    change (prune (VObj props)) with (VObj (members_of (prune (VObj props)))).
    f_equal.
    induction IH as [|[k x] ps Hx Hps IHps]; [reflexivity|].
    inversion Hall as [|? ? Hjx Hjps]; subst. cbn [snd] in Hx, Hjx.
    rewrite prune_members_cons, (is_json_defined x Hjx), (Hx Hjx), (IHps Hjps).
    reflexivity.
Qed.

Lemma canonical_of_members (ps : list (string * value)) :
  distinct (map fst ps) = true ->
  Forall (fun kv => snd kv = VUndefined \/ canonical (snd kv) = true) ps ->
  canonical (VObj ps) = true.
Proof.
  intros Hd Hall. cbn [canonical]. rewrite Hd. cbn [andb].
  induction Hall as [|[k x] ps Hx Hps IH]; [reflexivity|].
  cbn [map distinct] in Hd. apply andb_true_iff in Hd as [_ Hd].
  rewrite (IH Hd), andb_true_r. cbn [snd] in Hx.
  destruct Hx as [->|Hx]; [reflexivity | now rewrite Hx, orb_true_r].
Qed.

Lemma is_json_canonical (v : value) : is_json v = true -> canonical v = true.
Proof.
  induction v as [| |b|n|s|elems IH|props IH] using value_rect_nested;
    try (intros H; exact H).
  - cbn [is_json canonical]. intros H.
    induction IH as [|e es He Hes IHes]; [reflexivity|].
    cbn [forallb] in *. apply andb_true_iff in H as [H1 H2].
    now rewrite (He H1), (IHes H2).
  - intros H. destruct (is_json_members props H) as [Hd Hall].
    apply canonical_of_members; [exact Hd|]. clear Hd H.
    induction IH as [|[k x] ps Hx Hps IHps]; constructor;
      inversion Hall; subst; [right; now apply Hx | now apply IHps].
Qed.

Lemma exact_members (ps : list (string * value)) :
  exact_numbers (VObj ps) = true ->
  Forall (fun kv => exact_numbers (snd kv) = true) ps.
Proof.
  cbn [exact_numbers]. intros Hm.
  induction ps as [|[k x] ps IH]; constructor;
    apply andb_true_iff in Hm as [Hx Hm]; [exact Hx | now apply IH].
Qed.

Lemma canonical_members (ps : list (string * value)) :
  canonical (VObj ps) = true ->
  distinct (map fst ps) = true
  /\ Forall (fun kv => snd kv = VUndefined \/ canonical (snd kv) = true) ps.
Proof.
  cbn [canonical]. intros H. apply andb_true_iff in H as [Hd Hm].
  split; [exact Hd|]. clear Hd.
  induction ps as [|[k x] ps IH]; constructor.
  - apply andb_true_iff in Hm as [Hx _]. apply orb_true_iff in Hx as [Hx|Hx].
    + left. destruct x; try discriminate Hx; reflexivity.
    + now right.
  - apply andb_true_iff in Hm as [_ Hm]. now apply IH.
Qed.

(** A canonical value whose numbers read back is readable. *)
Lemma canonical_readable (v : value) :
  canonical v = true -> exact_numbers v = true -> readable v = true.
Proof.
  induction v as [| |b|n|s|elems IH|props IH] using value_rect_nested;
    intros Hc He; try reflexivity; try discriminate Hc.
  - cbn [canonical exact_numbers readable] in *. now rewrite Hc, He.
  - cbn [canonical exact_numbers readable] in *.
    induction IH as [|e es Hx Hes IHes]; [reflexivity|].
    cbn [forallb] in *. apply andb_true_iff in Hc as [Hc1 Hc2].
    apply andb_true_iff in He as [He1 He2].
    now rewrite (Hx Hc1 He1), (IHes Hc2 He2).
  - destruct (canonical_members props Hc) as [Hd Hall].
    pose proof (exact_members props He) as Hex.
    cbn [readable]. rewrite Hd. cbn [andb]. clear Hc He Hd.
    induction IH as [|[k x] ps Hx Hps IHps]; [reflexivity|].
    inversion Hall as [|? ? Hcx Hcps]; subst.
    inversion Hex as [|? ? Hex1 Hex2]; subst. cbn [snd] in *.
    rewrite (IHps Hcps Hex2), andb_true_r.
    destruct Hcx as [->|Hcx]; [reflexivity|].
    now rewrite (Hx Hcx Hex1), orb_true_r.
Qed.

(** [JSON.parse] of [JSON.stringify(v, null, 2)], for a canonical [v]
    whose numbers read back: the text exists, and parsing it gives [v]
    without its [undefined] properties. *)
Lemma parse_stringify (v : value) :
  canonical v = true -> exact_numbers v = true ->
  exists text, stringify v = Some text /\ parse text = Some (prune v).
Proof.
  intros Hcan Hex. unfold stringify.
  pose proof (canonical_readable v Hcan Hex) as Hre.
  destruct (serialize_defined EmptyString v Hre) as [text Htext].
  exists text. split; [exact Htext|].
  unfold parse.
  pose proof (round_trips_all v Hre EmptyString text EmptyString
                (2 * String.length text + 2)%nat eq_refl Htext eq_refl) as H.
  rewrite app_empty_r in H. rewrite H by lia. reflexivity.
Qed.

(** C8, as the code has it.  A record whose [change] is negative zero is
    canonical and its structured rendering is far within the budget, but
    [JSON.stringify] prints the number as [0] and [JSON.parse] reads
    positive zero back: the parsed value is not deep-equal to the
    input. *)
Lemma formatOutput_json_negative_zero :
  let data := VObj [ ("id", VStr "m1"); ("change", VNum (Zero true)) ] in
  canonical data = true
  /\ exists text,
       formatOutput data (fun _ => Ok "ignored") JSON = Ok text
       /\ Z.of_nat (String.length text) <= CHARACTER_LIMIT
       /\ parse text = Some (VObj [ ("id", VStr "m1"); ("change", VNum (Zero false)) ])
       /\ ~ deep_equal (VObj [ ("id", VStr "m1"); ("change", VNum (Zero false)) ]) data.
Proof.
  split; [reflexivity|]. eexists. split; [vm_compute; reflexivity|].
  split; [vm_compute; discriminate|]. split; [vm_compute; reflexivity|].
  unfold deep_equal. cbn. discriminate.
Qed.

(** C8, amended.  For every canonical value in which no number is
    negative zero, [NaN] or an infinity, [JSON.stringify] gives a text;
    when the text is within the budget, [formatOutput] in structured
    mode returns it as it is, and [JSON.parse] of it gives a value
    deep-equal to the input: equal up to the properties whose value is
    [undefined], which JSON does not print, and equal outright when the
    input has no such property. *)
Theorem formatOutput_json_round_trip
    (data : value) (markdownFormatter : unit -> result string) :
  canonical data = true ->
  exact_numbers data = true ->
  exists text,
    stringify data = Some text
    /\ (Z.of_nat (String.length text) <= CHARACTER_LIMIT ->
        formatOutput data markdownFormatter JSON = Ok text
        /\ exists parsed,
             parse text = Some parsed
             /\ deep_equal parsed data
             /\ (is_json data = true -> parsed = data)).
Proof.
  intros Hcan Hex.
  destruct (parse_stringify data Hcan Hex) as [text [Htext Hparse]].
  exists text. split; [exact Htext|]. intros Hlen. split.
  - unfold formatOutput. rewrite Htext. now rewrite truncateResponse_short.
  - exists (prune data). split; [exact Hparse|]. split.
    + unfold deep_equal. apply prune_idempotent.
    + apply is_json_prune.
Qed.

(** C8 on activity metrics as the fixtures have them: a talk ratio of
    0.45, a duration of 81000 seconds and no cursor come back from the
    structured rendering, the [undefined] cursor left out. *)
Lemma formatOutput_json_round_trip_witness :
  let data := VObj [ ("userId", VStr "user-001");
                     ("talkRatio", VNum (Finite false "45" 0));
                     ("totalDuration", VNum 81000);
                     ("cursor", VUndefined) ] in
  exists text,
    formatOutput data (fun _ => Ok "ignored") JSON = Ok text
    /\ parse text = Some (VObj [ ("userId", VStr "user-001");
                                 ("talkRatio", VNum (Finite false "45" 0));
                                 ("totalDuration", VNum 81000) ]).
Proof.
  intros data.
  destruct (formatOutput_json_round_trip data (fun _ => Ok "ignored") eq_refl eq_refl)
    as [text [Htext H]].
  vm_compute in Htext. injection Htext as <-.
  destruct H as [Hout [parsed [Hparse [Heq _]]]]; [now vm_compute|].
  eexists. split; [exact Hout|].
  rewrite Hparse. f_equal.
  vm_compute in Hparse. now injection Hparse as <-.
Defined.

(** *** What [normalizeResponse] returns is canonical *)

Lemma tidy_canonical (acc : list (string * value)) :
  tidy acc -> canonical (VObj acc) = true.
Proof.
  intros [Hd Hall]. apply canonical_of_members; [|exact Hall].
  now apply NoDup_distinct.
Qed.

Lemma set_prop_keys (x k : string) (v : value) (acc : list (string * value)) :
  In x (map fst (set_prop k v acc)) -> x = k \/ In x (map fst acc).
Proof.
  induction acc as [|[k' v'] acc IH]; simpl.
  - intros [H|[]]; now left.
  - destruct (String.eqb_spec k k') as [->|Hne]; simpl.
    + intros [H|H]; [right; now left | right; now right].
    + intros [H|H]; [right; now left|].
      destruct (IH H) as [H'|H']; [now left | right; now right].
Qed.

Lemma set_prop_tidy (k : string) (v : value) (acc : list (string * value)) :
  tidy acc -> v = VUndefined \/ canonical v = true -> tidy (set_prop k v acc).
Proof.
  intros [Hd Hall] Hv. induction acc as [|[k' v'] acc IH]; simpl.
  - split; [constructor; [intros [] | constructor]
           | constructor; [exact Hv | constructor]].
  - simpl in Hd. inversion Hd as [|? ? Hk Hd']; subst.
    inversion Hall as [|? ? Hv' Hall']; subst.
    destruct (String.eqb_spec k k') as [->|Hne].
    + split; [exact Hd | constructor; [exact Hv | exact Hall']].
    + destruct (IH Hd' Hall') as [IHd IHall].
      split; simpl; constructor; try assumption.
      intros Hin. apply set_prop_keys in Hin as [Hin|Hin]; [congruence | tauto].
Qed.

Lemma indexed_values {A : Type} (f : A -> value) (P : value -> Prop)
    (l : list A) (i : nat) :
  (forall x, In x l -> P (f x)) -> Forall (fun kv => P (snd kv)) (indexed f i l).
Proof.
  revert i. induction l as [|x l IH]; intros i H; simpl; constructor.
  - apply H. now left.
  - apply IH. intros y Hy. apply H. now right.
Qed.

Lemma own_props_values (src : value) :
  src = VUndefined \/ is_json src = true ->
  Forall (fun kv => snd kv = VUndefined \/ canonical (snd kv) = true) (own_props src).
Proof.
  intros [->|H]; [constructor|].
  destruct src as [| |b|n|s|elems|props]; simpl; try constructor.
  - apply (indexed_values _ (fun v => v = VUndefined \/ canonical v = true)).
    intros x _. now right.
  - apply (indexed_values _ (fun v => v = VUndefined \/ canonical v = true)).
    intros x Hx. right. apply is_json_canonical.
    cbn [is_json] in H. rewrite forallb_forall in H. now apply H.
  - destruct (is_json_members props H) as [_ Hall].
    eapply Forall_impl; [|exact Hall].
    intros [k x] Hx. right. now apply is_json_canonical.
Qed.

Lemma spread_tidy (target : list (string * value)) (source : value) :
  tidy target ->
  source = VUndefined \/ is_json source = true ->
  tidy (spread target source).
Proof.
  intros Ht Hs. unfold spread.
  pose proof (own_props_values source Hs) as Hall. clear Hs.
  revert target Ht. induction Hall as [|[k x] ps Hx Hps IH]; intros target Ht.
  - exact Ht.
  - simpl. apply IH. now apply set_prop_tidy.
Qed.

Lemma get_prop_json (v : value) (k : string) (x : value) :
  is_json v = true -> get_prop v k = Ok x -> x = VUndefined \/ is_json x = true.
Proof.
  intros Hj. destruct v as [| |b|n|s|elems|props]; simpl; intros H;
    try discriminate H; try (injection H as <-; now left).
  destruct (lookup k props) as [y|] eqn:E; injection H as <-; [right | now left].
  destruct (is_json_members props Hj) as [_ Hall]. clear Hj.
  induction Hall as [|[k' v'] ps Hv Hps IH]; simpl in E; [discriminate|].
  destruct (String.eqb k k'); [now injection E as <- | now apply IH].
Qed.

Lemma get_opt_json (v : value) (k : string) (x : value) :
  v = VUndefined \/ is_json v = true ->
  get_opt v k = Ok x -> x = VUndefined \/ is_json x = true.
Proof.
  unfold get_opt. intros [->|Hj]; simpl.
  - intros H. injection H as <-. now left.
  - destruct (is_nullish v); [intros H; injection H as <-; now left|].
    now apply get_prop_json.
Qed.

Lemma flattenRecord_canonical (record flat : value) :
  is_json record = true -> flattenRecord record = Ok flat -> canonical flat = true.
Proof.
  intros Hj. unfold flattenRecord.
  destruct (get_prop record "id") as [id|e] eqn:Hid; [|discriminate].
  destruct (get_prop record "attributes") as [attrs|e] eqn:Hattrs; [|discriminate].
  cbn [bind]. intros H. injection H as <-.
  apply tidy_canonical, spread_tidy.
  - split; [constructor; [intros [] | constructor]|].
    constructor; [|constructor].
    cbn [snd]. destruct (get_prop_json _ _ _ Hj Hid) as [->|H]; [now left|].
    right. now apply is_json_canonical.
  - exact (get_prop_json _ _ _ Hj Hattrs).
Qed.

Lemma mapM_flatten_canonical (records flattened : list value) :
  forallb is_json records = true ->
  mapM flattenRecord records = Ok flattened ->
  forallb canonical flattened = true.
Proof.
  revert flattened. induction records as [|r rs IH]; intros flattened Hj; simpl.
  - intros H. now injection H as <-.
  - cbn [forallb] in Hj. apply andb_true_iff in Hj as [Hr Hrs].
    destruct (flattenRecord r) as [flat|e] eqn:Hflat; [|discriminate].
    destruct (mapM flattenRecord rs) as [fl|e] eqn:Hmap; [|discriminate].
    cbn [bind]. intros H. injection H as <-. cbn [forallb].
    now rewrite (flattenRecord_canonical r flat Hr Hflat), (IH fl Hrs eq_refl).
Qed.

Lemma elements_json (v : value) :
  v = VUndefined \/ is_json v = true -> forallb is_json (elements v) = true.
Proof.
  intros [->|H]; [reflexivity|].
  destruct v; try reflexivity. exact H.
Qed.

(** X7.  Whatever [normalizeResponse] returns for a JSON body is a
    canonical value: the keys of each of its objects are distinct, and
    [undefined] occurs in it only as the value of a property. *)
Lemma normalizeResponse_canonical (body v : value) :
  is_json body = true -> normalizeResponse body = Ok v -> canonical v = true.
Proof.
  intros Hj. unfold normalizeResponse.
  destruct (isJsonApiList body) as [[|]|e]; cbn [bind]; [| |discriminate].
  - destruct (get_prop body "data") as [data|e] eqn:Hdata; [|discriminate].
    cbn [bind].
    destruct (mapM flattenRecord (elements data)) as [fl|e] eqn:Hmap; [|discriminate].
    cbn [bind].
    destruct (get_prop body "meta") as [meta|e] eqn:Hmeta; [|discriminate].
    cbn [bind].
    destruct (get_opt meta "page") as [page|e] eqn:Hpage; [|discriminate].
    cbn [bind].
    destruct (get_opt page "total") as [tot|e] eqn:Htot; [|discriminate].
    cbn [bind].
    destruct (get_opt page "cursor") as [cur|e] eqn:Hcur; [|discriminate].
    cbn [bind]. intros H. injection H as <-.
    pose proof (get_prop_json _ _ _ Hj Hmeta) as Jmeta.
    pose proof (get_opt_json _ _ _ Jmeta Hpage) as Jpage.
    pose proof (get_opt_json _ _ _ Jpage Htot) as Jtot.
    pose proof (get_opt_json _ _ _ Jpage Hcur) as Jcur.
    apply tidy_canonical. split.
    + apply distinct_NoDup. reflexivity.
    + constructor; [|constructor; [|constructor; [|constructor]]]; cbn [snd].
      * right. cbn [canonical].
        apply (mapM_flatten_canonical (elements data)); [|exact Hmap].
        apply elements_json. exact (get_prop_json _ _ _ Hj Hdata).
      * right. unfold nullish_or.
        destruct Jtot as [->|Jt]; [apply is_number_num|].
        destruct (is_nullish tot); [apply is_number_num | now apply is_json_canonical].
      * destruct Jcur as [->|Jc]; [now left | right; now apply is_json_canonical].
  - destruct (isJsonApiSingle body) as [[|]|e]; cbn [bind]; [| |discriminate].
    + destruct (get_prop body "data") as [data|e] eqn:Hdata; [|discriminate].
      cbn [bind]. intros H.
      destruct (get_prop_json _ _ _ Hj Hdata) as [->|Jd]; [discriminate H|].
      exact (flattenRecord_canonical data v Jd H).
    + destruct (isEmptyList body) as [[|]|e]; cbn [bind]; [| |discriminate];
        intros H; injection H as <-; [reflexivity | now apply is_json_canonical].
Qed.

End RoundTrip.

(** The window of canonical records that [buildPaginatedResponse] makes
    is a canonical value. *)
Lemma response_value_canonical (records : list value) (tot off : Z) :
  forallb canonical records = true ->
  canonical (response_value (buildPaginatedResponse records tot off)) = true.
Proof.
  intros H. unfold response_value, buildPaginatedResponse.
  cbn [total count offset items has_more next_offset].
  destruct (tot >? js_add off (len records)); cbn [app];
    (apply canonical_of_members; [reflexivity|]);
    repeat (apply Forall_cons;
            [right; first [exact (is_number_num _) | exact H | reflexivity]|]);
    apply Forall_nil.
Qed.

(** The worked example of the specification: an envelope of two records
    with [meta.page.total = 10], requested at offset zero, gives a
    collection of total 10 and a window with [count = 2],
    [has_more = true] and [next_offset = 2]. *)
Example two_of_ten :
  let envelope :=
    VObj [ ("data",
            VArr [ VObj [ ("id", VStr "rec-1"); ("type", VStr "conversation");
                          ("attributes", VObj [ ("title", VStr "Weekly sync") ]) ];
                   VObj [ ("id", VStr "rec-2"); ("type", VStr "conversation");
                          ("attributes", VObj [ ("title", VStr "Demo") ]) ] ]);
           ("meta", VObj [ ("page", VObj [ ("total", VNum 10) ]) ]) ] in
  let records :=
    [ VObj [ ("id", VStr "rec-1"); ("title", VStr "Weekly sync") ];
      VObj [ ("id", VStr "rec-2"); ("title", VStr "Demo") ] ] in
  normalizeResponse envelope
  = Ok (VObj [ ("items", VArr records); ("total", VNum 10); ("cursor", VUndefined) ])
  /\ buildPaginatedResponse records 10 0
     = {| total := 10; count := 2; offset := 0; items := records;
          has_more := true; next_offset := Some 2 |}.
Proof.
  split; reflexivity.
Qed.

(* ================================================================== *)
(** * Beyond the claims: the rest of the services and their callers *)
(* ================================================================== *)

Import Rendering Transport Handlers Fixtures Shapes.

(* ================================================================== *)
(** ** Durations, participants and page hints *)
(* ================================================================== *)

Section RenderingProperties.

(** Two numerals, each followed by a character that is not one of a
    numeral, agree in numeral, delimiter and remainder as soon as the
    delimited strings are equal. *)
Lemma delimited_split (s1 s2 r1 r2 : string) (d1 d2 : ascii) :
  is_numeral_char d1 = false -> is_numeral_char d2 = false ->
  all_chars is_numeral_char s1 = true -> all_chars is_numeral_char s2 = true ->
  s1 ++ String d1 r1 = s2 ++ String d2 r2 ->
  s1 = s2 /\ d1 = d2 /\ r1 = r2.
Proof.
  intros Hd1 Hd2. revert s2.
  induction s1 as [|c1 s1 IH]; intros [|c2 s2]; simpl; intros H1 H2 E.
  - injection E as -> ->. repeat split.
  - injection E as -> _. apply andb_true_iff in H2 as [H2 _]. congruence.
  - injection E as -> _. apply andb_true_iff in H1 as [H1 _]. congruence.
  - injection E as -> E.
    apply andb_true_iff in H1 as [_ H1]. apply andb_true_iff in H2 as [_ H2].
    destruct (IH s2 H1 H2 E) as (-> & -> & ->). repeat split.
Qed.

Lemma numeral_split (a b : Z) (d1 d2 : ascii) (r1 r2 : string) :
  is_numeral_char d1 = false -> is_numeral_char d2 = false ->
  number_to_string a ++ String d1 r1 = number_to_string b ++ String d2 r2 ->
  a = b /\ d1 = d2 /\ r1 = r2.
Proof.
  intros Hd1 Hd2 E.
  destruct (delimited_split _ _ _ _ _ _ Hd1 Hd2
              (all_chars_number a) (all_chars_number b) E) as (Hn & Hd & Hr).
  split; [now apply number_to_string_inj | now split].
Qed.

(** The three forms [formatDuration] takes below an hour. *)
Lemma formatDuration_below_hour (a : Z) :
  a < 3600 ->
  (a < 60 /\ formatDuration a = number_to_string a ++ String "s" EmptyString)
  \/ (60 <= a /\ a mod 60 = 0
      /\ formatDuration a = number_to_string (a / 60) ++ String "m" EmptyString)
  \/ (60 <= a /\ 0 < a mod 60
      /\ formatDuration a
         = number_to_string (a / 60)
             ++ String "m" (" " ++ number_to_string (a mod 60) ++ "s")).
Proof.
  intros H. unfold formatDuration.
  destruct (Z.ltb_spec a 60) as [Hlt|Hge]; [left; now split|].
  right.
  rewrite js_floor_div_sixty
    by (try exact Hge; unfold safe_integer, MAX_SAFE_INTEGER; apply Z.leb_le; lia).
  assert (Hm : a / 60 < 60) by (apply Z.div_lt_upper_bound; lia).
  destruct (Z.ltb_spec (a / 60) 60) as [_|?]; [|lia].
  pose proof (Z.mod_pos_bound a 60 ltac:(lia)) as Hr.
  destruct (Z.gtb_spec (a mod 60) 0) as [Hpos|Hzero].
  - right. repeat split; [exact Hge | lia].
  - left. repeat split; [exact Hge | lia].
Qed.

(** X13.  Below an hour [formatDuration] loses nothing: two durations
    under 3600 seconds with the same text are the same duration. *)
Theorem formatDuration_injective_below_hour (a b : Z) :
  a < 3600 -> b < 3600 ->
  formatDuration a = formatDuration b -> a = b.
Proof.
  intros Ha Hb E.
  pose proof (Z.div_mod a 60 ltac:(lia)) as Da.
  pose proof (Z.div_mod b 60 ltac:(lia)) as Db.
  destruct (formatDuration_below_hour a Ha) as [[Ha1 Ea]|[(Ha1 & Ha2 & Ea)|(Ha1 & Ha2 & Ea)]];
  destruct (formatDuration_below_hour b Hb) as [[Hb1 Eb]|[(Hb1 & Hb2 & Eb)|(Hb1 & Hb2 & Eb)]];
    rewrite Ea, Eb in E;
    apply numeral_split in E; try reflexivity;
    destruct E as (Hn & Hd & Hr); try discriminate Hd; try discriminate Hr;
    try lia.
  injection Hr as Hr.
  apply numeral_split in Hr; try reflexivity.
  destruct Hr as (Hr & _ & _). lia.
Qed.

(** X13 at a concrete input. *)
Lemma formatDuration_injective_below_hour_witness : 125 = 125.
Proof.
  apply (formatDuration_injective_below_hour 125 125); [lia | lia | reflexivity].
Defined.

(** X14.  From an hour on [formatDuration] shows hours and minutes only:
    two durations of at least 3600 seconds within the same minute, both
    safe integers, have the same text. *)
Theorem formatDuration_hours_drop_seconds (a b : Z) :
  3600 <= a -> 3600 <= b ->
  safe_integer a = true -> safe_integer b = true ->
  a / 60 = b / 60 ->
  formatDuration a = formatDuration b.
Proof.
  intros Ha Hb Hsa Hsb E. unfold formatDuration.
  destruct (Z.ltb_spec a 60); [lia|].
  destruct (Z.ltb_spec b 60); [lia|].
  rewrite (js_floor_div_sixty a), (js_floor_div_sixty b) by (try assumption; lia).
  rewrite <- E.
  assert (60 <= a / 60) by (apply Z.div_le_lower_bound; lia).
  destruct (Z.ltb_spec (a / 60) 60); [lia | reflexivity].
Qed.

(** Beyond the safe integers the bound of X14 is needed: 67553994410557496
    and 67553994410557440 seconds fall in the same minute, but the
    double quotient of the first rounds up to the next minute. *)
Lemma formatDuration_rounds_up :
  67553994410557496 / 60 = 67553994410557440 / 60
  /\ formatDuration 67553994410557496 = "18764998447377h 5m"
  /\ formatDuration 67553994410557440 = "18764998447377h 4m".
Proof.
  repeat split; vm_compute; reflexivity.
Qed.

(** X14 at a concrete input. *)
Lemma formatDuration_hours_drop_seconds_witness :
  formatDuration 7384 = formatDuration 7439 /\ formatDuration 7384 = "2h 3m".
Proof.
  split; [|reflexivity].
  apply (formatDuration_hours_drop_seconds 7384 7439);
    [lia | lia | reflexivity | reflexivity | reflexivity].
Defined.

Lemma prefix_app_l (n a b : string) :
  String.prefix n a = true -> String.prefix n (a ++ b) = true.
Proof.
  revert a. induction n as [|c n IH]; intros a H;
    [now destruct (a ++ b)|].
  destruct a as [|x a]; [discriminate H|].
  simpl in *. destruct (ascii_dec c x); [now apply IH | discriminate H].
Qed.

Lemma contains_app_l (n a b : string) :
  contains n a = true -> contains n (a ++ b) = true.
Proof.
  induction a as [|x a IH]; intros H.
  - rewrite contains_eq in H. destruct n; [|discriminate H].
    rewrite contains_eq. now destruct b.
  - rewrite contains_eq in H. rewrite contains_eq. cbn [append].
    destruct (String.prefix n (String x a)) eqn:E.
    + change (String x (a ++ b)) with (String x a ++ b).
      now rewrite (prefix_app_l _ _ _ E).
    + rewrite (IH H).
      now destruct (String.prefix n (String x (a ++ b))).
Qed.

Lemma contains_self (s : string) : contains s s = true.
Proof.
  apply contains_prefix. rewrite <- (app_empty_r s) at 2. apply prefix_app.
Qed.

(** A joined string contains each of its parts. *)
Lemma contains_join (sep x : string) (parts : list string) :
  In x parts -> contains x (join sep parts) = true.
Proof.
  induction parts as [|p ps IH]; [intros []|].
  intros [->|Hin].
  - destruct ps; cbn [join]; [apply contains_self|].
    apply contains_app_l, contains_self.
  - destruct ps as [|q qs]; [destruct Hin|].
    cbn [join]. apply contains_skip, contains_skip. now apply IH.
Qed.

Lemma len_cons {A : Type} (x : A) (l : list A) : len (x :: l) = 1 + len l.
Proof.
  unfold len. cbn [List.length]. lia.
Qed.

(** X15.  [formatParticipants] names the first three participants of any
    non-empty list, and what it says of a longer list depends on its
    first three participants and its length only. *)
Theorem formatParticipants_first_three (participants : list ChorusParticipant) :
  (forall p, In p (firstn 3 participants) ->
             contains (Rendering.name p) (formatParticipants participants) = true)
  /\ (forall others,
        List.length others = List.length participants ->
        firstn 3 others = firstn 3 participants ->
        formatParticipants others = formatParticipants participants).
Proof.
  split.
  - intros p Hin. unfold formatParticipants.
    destruct participants as [|p1 ps]; [destruct Hin|].
    rewrite len_cons.
    destruct (Z.eqb_spec (1 + len ps) 0) as [H0|_]; [unfold len in H0; lia|].
    destruct (Z.leb_spec (1 + len ps) 3) as [Hle|Hgt].
    + apply contains_join, in_map.
      rewrite firstn_all2 in Hin; [exact Hin|].
      unfold len in Hle. cbn [List.length]. lia.
    + apply contains_app_l, contains_join, in_map, Hin.
  - intros others Hlen Hfirst. unfold formatParticipants, len.
    rewrite Hlen, Hfirst.
    destruct (Z.eqb_spec (Z.of_nat (List.length participants)) 0); [reflexivity|].
    destruct (Z.leb_spec (Z.of_nat (List.length participants)) 3) as [Hle|]; [|reflexivity].
    rewrite <- (firstn_all2 (n := 3%nat) others) by lia.
    rewrite <- (firstn_all2 (n := 3%nat) participants) by lia.
    now rewrite Hfirst.
Qed.

(** X16.  On the window [buildPaginatedResponse] makes from a total, an
    offset and a next offset that are safe integers, the page hint is
    one line when there is nothing more and two lines otherwise; the
    second line names the offset of the next page, [offset + count]. *)
Theorem formatPaginationInfo_of_window {T : Type} (l : list T) (tot off : Z) :
  safe_integer tot = true -> safe_integer off = true ->
  safe_integer (off + len l) = true ->
  let w := buildPaginatedResponse l tot off in
  let summary :=
    "Showing " ++ number_to_string (len l) ++ " of " ++ number_to_string tot
      ++ " results (offset: " ++ number_to_string off ++ ")" in
  single_line (formatPaginationInfo w) = negb (has_more w)
  /\ (tot > off + len l ->
      formatPaginationInfo w
      = summary ++ nl ++ "More results available. Use offset="
          ++ number_to_string (off + len l))
  /\ (tot <= off + len l -> formatPaginationInfo w = summary).
Proof.
  intros _ _ Hsafe.
  cbv zeta. unfold formatPaginationInfo, buildPaginatedResponse.
  cbn [count total offset has_more next_offset].
  rewrite (js_add_safe off (len l) Hsafe).
  destruct (Z.gtb_spec tot (off + len l)) as [Hgt|Hle].
  - split; [|split; [reflexivity | lia]].
    cbn [join negb].
    rewrite !single_line_app, !single_line_number. reflexivity.
  - split; [|split; [lia | reflexivity]].
    cbn [join negb].
    rewrite !single_line_app, !single_line_number. reflexivity.
Qed.

(** X16 at a concrete input. *)
Lemma formatPaginationInfo_of_window_witness :
  formatPaginationInfo (buildPaginatedResponse ["a"; "b"] 10 4)
  = "Showing 2 of 10 results (offset: 4)" ++ nl
      ++ "More results available. Use offset=6".
Proof.
  pose proof (formatPaginationInfo_of_window ["a"; "b"] 10 4 eq_refl eq_refl eq_refl)
    as H.
  cbv zeta in H.
  destruct H as (_ & H & _). rewrite H by (vm_compute; reflexivity). reflexivity.
Defined.

End RenderingProperties.

(* ================================================================== *)
(** ** More on truncation and output formatting *)
(* ================================================================== *)

Section TruncationProperties.

Lemma slice0_app (a b : string) :
  substring 0 (String.length a) (a ++ b) = a.
Proof.
  induction a as [|c a IH]; simpl; [now destruct b | now rewrite IH].
Qed.

(** X11.  Truncating twice is truncating once. *)
Theorem truncateResponse_idempotent (text : string) :
  truncateResponse (truncateResponse text) = truncateResponse text.
Proof.
  destruct (Z.leb_spec (Z.of_nat (String.length text)) CHARACTER_LIMIT) as [Hle|Hgt].
  - rewrite (truncateResponse_short text Hle). now apply truncateResponse_short.
  - rewrite (truncateResponse_long text) by lia.
    set (kept := substring 0 (Z.to_nat CHARACTER_LIMIT) text).
    assert (Hk : String.length kept = Z.to_nat CHARACTER_LIMIT).
    { subst kept. rewrite length_slice0.
      pose proof CHARACTER_LIMIT_nonneg. lia. }
    rewrite truncateResponse_long.
    + rewrite <- Hk, slice0_app. reflexivity.
    + rewrite length_app, Hk. pose proof CHARACTER_LIMIT_nonneg.
      change (String.length TRUNCATION_NOTICE) with 99%nat. lia.
Qed.

(** X12.  [formatOutput] raises in two cases only: in narrative mode
    when the renderer raises, and then what the renderer raised; in
    structured mode on [undefined], the one value [JSON.stringify] has
    no text for. *)
Theorem formatOutput_raises_iff (data : value)
    (markdownFormatter : unit -> result string) (responseFormat : ResponseFormat) :
  ((exists e, formatOutput data markdownFormatter responseFormat = Throw e)
   <-> (responseFormat = MARKDOWN /\ exists e, markdownFormatter tt = Throw e)
       \/ (responseFormat = JSON /\ data = VUndefined))
  /\ (forall e,
        responseFormat = MARKDOWN ->
        (formatOutput data markdownFormatter responseFormat = Throw e
         <-> markdownFormatter tt = Throw e)).
Proof.
  split.
  - split.
    + intros [e H]. destruct responseFormat; cbn [formatOutput] in H.
      * left. split; [reflexivity|]. exists e.
        destruct (markdownFormatter tt); [discriminate H | exact H].
      * right. split; [reflexivity|].
        destruct data; try reflexivity;
          match type of H with
          | context [stringify ?v] =>
              destruct (stringify_defined v ltac:(discriminate)) as [t Ht];
              rewrite Ht in H; discriminate H
          end.
    + intros [[-> [e H]]|[-> ->]]; cbn [formatOutput].
      * exists e. now rewrite H.
      * eexists. reflexivity.
  - intros e ->. cbn [formatOutput].
    destruct (markdownFormatter tt) as [t|e']; cbn [bind]; split; intros H;
      try discriminate H; exact H.
Qed.

End TruncationProperties.

(* ================================================================== *)
(** ** More on error messages *)
(* ================================================================== *)

Section ErrorMessageProperties.

(** X17.  For the statuses with a fixed text (401, 403, 404, 429 and 500
    or more) the message depends on the status alone: nothing of the
    response body, of the error's own message or of its code shows. *)
Theorem handleApiError_fixed_text (st : Z) (msg msg' : string)
    (code code' : option string) (d d' : value) :
  st = 401 \/ st = 403 \/ st = 404 \/ st = 429 \/ st >= 500 ->
  exists text,
    handleApiError (AxiosError msg code (Some (mkResponse st d))) = Ok text
    /\ handleApiError (AxiosError msg' code' (Some (mkResponse st d'))) = Ok text.
Proof.
  intros H. unfold handleApiError. cbn [ErrorHandler.status ErrorHandler.data].
  destruct (Z.eqb_spec st 400); [lia|].
  destruct (Z.eqb_spec st 401); [eexists; split; reflexivity|].
  destruct (Z.eqb_spec st 403); [eexists; split; reflexivity|].
  destruct (Z.eqb_spec st 404); [eexists; split; reflexivity|].
  destruct (Z.eqb_spec st 429); [eexists; split; reflexivity|].
  destruct (Z.geb_spec st 500); [eexists; split; reflexivity | lia].
Qed.

(** X17 at a concrete input. *)
Lemma handleApiError_fixed_text_witness :
  exists text,
    handleApiError (AxiosError "a" None (Some (mkResponse 404 VNull))) = Ok text
    /\ handleApiError
         (AxiosError "b" (Some "ERR_BAD_REQUEST")
            (Some (mkResponse 404 (VObj [("message", VStr "no such call")]))))
       = Ok text.
Proof.
  apply (handleApiError_fixed_text 404). right; right; left; reflexivity.
Defined.

(** X18.  What a 400 response echoes: its [message] when that is a
    non-empty string, whatever its [error] is; its [error], when that is
    a non-empty string and [message] is absent or [null]. *)
Theorem handleApiError_bad_request_echo (msg : string) (code : option string)
    (props : list (string * value)) (text : string) :
  text <> EmptyString ->
  (lookup "message" props = Some (VStr text)
   \/ ((lookup "message" props = None \/ lookup "message" props = Some VNull)
       /\ lookup "error" props = Some (VStr text))) ->
  handleApiError (AxiosError msg code (Some (mkResponse 400 (VObj props))))
  = Ok ("Error: Bad request. " ++ text).
Proof.
  intros Hne H. unfold handleApiError, upstream_message.
  cbn [ErrorHandler.status ErrorHandler.data typeof_object is_null negb andb get_prop].
  assert (Ht : truthy (VStr text) = true).
  { cbn [truthy]. destruct (String.eqb_spec text EmptyString); [contradiction | reflexivity]. }
  destruct H as [Hm|[[Hm|Hm] He]]; rewrite Hm; try rewrite He;
    destruct (lookup "error" props); cbn [nullish_or is_nullish Z.eqb];
    try rewrite Ht; try reflexivity; discriminate.
Qed.

(** X18 at a concrete input. *)
Lemma handleApiError_bad_request_echo_witness :
  handleApiError
    (AxiosError "Request failed with status code 400" None
       (Some (mkResponse 400 (VObj [ ("error", VStr "ignored");
                                     ("message", VStr "Invalid date format") ]))))
  = Ok "Error: Bad request. Invalid date format".
Proof.
  apply handleApiError_bad_request_echo; [discriminate | left; reflexivity].
Defined.

Lemma handleApiError_opens (error : thrown) (text : string) :
  handleApiError error = Ok text -> String.prefix "Error: " text = true.
Proof.
  intros H. destruct (handleApiError_in_classify error text H) as [rest ->].
  destruct (classify error); reflexivity.
Qed.

End ErrorMessageProperties.

(* ================================================================== *)
(** ** The API key, the request and the delete handler *)
(* ================================================================== *)

Section TransportProperties.

Variable axios : AxiosRequestConfig -> AxiosOutcome.

(** X8.  Without a key ([CHORUS_API_KEY] unset or empty) [makeApiRequest]
    rejects with the key error for every endpoint, method, body and
    query, whatever axios would do: the request is not made. *)
Theorem makeApiRequest_without_key (env : option string)
    (other : AxiosRequestConfig -> AxiosOutcome)
    (endpoint : string) (method : option Method) (data : value)
    (params : option (list (string * value))) :
  env = None \/ env = Some EmptyString ->
  makeApiRequest env axios endpoint method data params
    = Rejected (MissingKey MISSING_KEY_MESSAGE)
  /\ makeApiRequest env other endpoint method data params
    = makeApiRequest env axios endpoint method data params.
Proof.
  intros [->| ->]; split; reflexivity.
Qed.

(** X9.  With a key, [makeApiRequest] makes one request, to the endpoint
    under the base URL with the key as [Authorization] header and a
    timeout of 30 seconds; it resolves exactly when axios responds with
    a body that normalises, to the normalised body, and a rejection of
    axios is passed on as it is. *)
Theorem makeApiRequest_with_key (key endpoint : string) (method : option Method)
    (data : value) (params : option (list (string * value))) :
  key <> EmptyString ->
  exists config,
    url config = API_BASE_URL ++ "/" ++ endpoint
    /\ In ("Authorization", key) (headers config)
    /\ timeout config = 30000
    /\ (forall v,
          makeApiRequest (Some key) axios endpoint method data params = Resolved v
          <-> exists body, axios config = Responds body
                           /\ normalizeResponse body = Ok v)
    /\ (forall error,
          axios config = Fails error ->
          makeApiRequest (Some key) axios endpoint method data params
          = Rejected (AxiosRejection error)).
Proof.
  intros Hkey. unfold makeApiRequest, getApiKey.
  destruct (String.eqb_spec key EmptyString) as [?|_]; [contradiction|].
  exists {| method := match method with Some m => m | None => GET end;
            url := API_BASE_URL ++ "/" ++ endpoint;
            headers := [ ("Authorization", key);
                         ("Content-Type", "application/json");
                         ("Accept", "application/json") ];
            timeout := 30000;
            Transport.data := if is_undefined data then None else Some data;
            params := params |}.
  split; [reflexivity|]. split; [left; reflexivity|].
  split; [reflexivity|]. split.
  - intros v.
    match goal with |- context [axios ?c] => destruct (axios c) as [body|error] end.
    + destruct (normalizeResponse body) as [v'|e] eqn:Hn; split.
      * intros H. injection H as <-. now exists body.
      * intros [b [Hb Hv]]. injection Hb as <-. rewrite Hn in Hv. now injection Hv as <-.
      * discriminate.
      * intros [b [Hb Hv]]. injection Hb as <-. rewrite Hn in Hv. discriminate Hv.
    + split; [discriminate | intros [b [Hb _]]; discriminate Hb].
  - intros error H. now rewrite H.
Qed.

(** X10.  [chorus_delete_recording] returns a text unless
    [handleApiError] raises inside the [catch] clause, which it does
    only on a rejected request, and then the handler raises the same
    exception.  A returned text opens with ["Error: "] exactly when the
    request was rejected; it is the confirmation naming the recording
    when the request resolved, and without an API key it is the
    unexpected-error message that names [CHORUS_API_KEY]. *)
Theorem chorus_delete_recording_outcome (env : option string) (conference_id : string) :
  let request :=
    makeApiRequest env axios ("video-conferences/" ++ conference_id)
                   (Some DELETE) VUndefined None in
  let outcome := chorus_delete_recording env axios conference_id in
  (forall text,
      outcome = Ok text ->
      (String.prefix "Error: " text = true <-> exists r, request = Rejected r))
  /\ (forall e,
        outcome = Throw e
        <-> exists r, request = Rejected r /\ handleApiError (caught r) = Throw e)
  /\ ((exists v, request = Resolved v) ->
      outcome = Ok ("Recording " ++ conference_id ++ " deleted successfully."))
  /\ (env = None \/ env = Some EmptyString ->
      outcome = Ok ("Error: Unexpected error occurred: " ++ MISSING_KEY_MESSAGE)).
Proof.
  cbv zeta. unfold chorus_delete_recording.
  split; [|split; [|split]].
  - intros text. destruct (makeApiRequest env axios _ _ _ _) as [v|r]; intros H; split.
    + injection H as <-. discriminate.
    + intros [r Hr]. discriminate Hr.
    + intros _. now exists r.
    + intros _. now apply (handleApiError_opens (caught r)).
  - intros e. destruct (makeApiRequest env axios _ _ _ _) as [v|r]; split.
    + discriminate.
    + intros [r [Hr _]]. discriminate Hr.
    + intros H. now exists r.
    + intros [r' [Hr H]]. now injection Hr as <-.
  - intros [v ->]. reflexivity.
  - intros [->| ->]; reflexivity.
Qed.

End TransportProperties.

(** X8 with the variable unset. *)
Lemma makeApiRequest_without_key_witness :
  makeApiRequest None (fun _ => Responds VNull) "users" None VUndefined None
  = Rejected (MissingKey MISSING_KEY_MESSAGE).
Proof.
  apply (makeApiRequest_without_key (fun _ => Responds VNull) None
           (fun _ => Fails (Thrown VNull eq_refl)) "users" None VUndefined None).
  left; reflexivity.
Defined.

(** X9 for the key and the endpoint of the repository's test. *)
Lemma makeApiRequest_with_key_witness :
  exists config,
    url config = "https://chorus.ai/api/v1/users"
    /\ In ("Authorization", "test-api-key-123") (headers config)
    /\ timeout config = 30000.
Proof.
  destruct (makeApiRequest_with_key (fun _ => Responds VNull)
              "test-api-key-123" "users" None VUndefined None)
    as [config (Hu & Ha & Ht & _)]; [discriminate|].
  exists config. now repeat split.
Defined.


(** X10 on a deletion that succeeds and on one that is refused with a
    403. *)
Lemma chorus_delete_recording_outcome_witness :
  chorus_delete_recording (Some "test-api-key-123") (fun _ => Responds VUndefined) "vc-001"
  = Ok "Recording vc-001 deleted successfully."
  /\ exists text,
       chorus_delete_recording (Some "test-api-key-123")
         (fun _ => Fails (AxiosError "Request failed with status code 403"
                            (Some "ERR_BAD_REQUEST") (Some (mkResponse 403 VNull))))
         "vc-001" = Ok text
       /\ String.prefix "Error: " text = true.
Proof.
  split.
  - pose proof (chorus_delete_recording_outcome (fun _ => Responds VUndefined)
                  (Some "test-api-key-123") "vc-001") as H.
    cbv zeta in H. destruct H as (_ & _ & H & _).
    rewrite H; [reflexivity | eexists; reflexivity].
  - pose proof (chorus_delete_recording_outcome
                  (fun _ => Fails (AxiosError "Request failed with status code 403"
                                     (Some "ERR_BAD_REQUEST")
                                     (Some (mkResponse 403 VNull))))
                  (Some "test-api-key-123") "vc-001") as H.
    cbv zeta in H. destruct H as (H & _).
    eexists. split; [reflexivity|].
    apply (H _ eq_refl). eexists; reflexivity.
Defined.

(* ================================================================== *)
(** ** Paging through the members of a team *)
(* ================================================================== *)

Section TeamMembers.

Variable allUsers : list value.
Variable limit : Z.
Hypothesis limit_positive : 1 <= limit.

Lemma slice_forward {A : Type} (l : list A) (start finish : Z) :
  0 <= start -> start <= finish ->
  slice start finish l
  = firstn (Z.to_nat (Z.min finish (len l) - Z.min start (len l)))
           (skipn (Z.to_nat (Z.min start (len l))) l)
  /\ len (slice start finish l) = Z.min finish (len l) - Z.min start (len l).
Proof.
  intros H0 Hle. unfold slice.
  destruct (Z.ltb_spec start 0); [lia|].
  destruct (Z.ltb_spec finish 0); [lia|].
  split; [reflexivity|].
  unfold len. rewrite length_firstn, length_skipn. unfold len. lia.
Qed.

Lemma len_map {A B : Type} (f : A -> B) (l : list A) : len (map f l) = len l.
Proof.
  unfold len. now rewrite length_map.
Qed.

Lemma Forall_firstn {A : Type} (P : A -> Prop) (n : nat) (l : list A) :
  Forall P l -> Forall P (firstn n l).
Proof.
  intros H. revert n. induction H as [|x l Hx Hl IH]; intros [|n]; cbn [firstn];
    constructor; [exact Hx | apply IH].
Qed.

Lemma Forall_skipn {A : Type} (P : A -> Prop) (n : nat) (l : list A) :
  Forall P l -> Forall P (skipn n l).
Proof.
  intros H. revert n. induction H as [|x l Hx Hl IH]; intros [|n]; cbn [skipn];
    try constructor; try assumption. apply IH.
Qed.

Lemma Forall_slice {A : Type} (P : A -> Prop) (start finish : Z) (l : list A) :
  Forall P l -> Forall P (slice start finish l).
Proof.
  intros H. unfold slice. now apply Forall_firstn, Forall_skipn.
Qed.

(** Where [String()] converts every user id, the members of a page are
    made without an exception. *)
Lemma members_of_page (page : list value) :
  Forall (fun uid => printable uid = true) page ->
  mapM (fun uid => id <- to_string uid ;; Ok (VObj [ ("id", VStr id) ])) page
  = Ok (map (fun uid => VObj [ ("id", VStr (text_of uid)) ]) page).
Proof.
  induction 1 as [|uid page Huid Hpage IH]; [reflexivity|].
  cbn [mapM map]. rewrite IH. unfold text_of.
  destruct (to_string_printable uid Huid) as [t ->]. reflexivity.
Qed.

(** X19.  The page of [chorus_get_team_members] at a non-negative offset,
    when [String()] converts every user id and [offset + limit] is a
    safe integer: it holds [min limit (max 0 (total - offset))]
    members, it has more exactly when [offset + limit] is short of the
    total, the next offset is then [offset + limit], and a page at or
    past the end is empty with nothing more. *)
Theorem teamMembersWindow_page (offset : Z) :
  0 <= offset ->
  safe_integer (offset + limit) = true ->
  Forall (fun uid => printable uid = true) allUsers ->
  exists w,
    teamMembersWindow allUsers offset limit = Ok w
    /\ total w = len allUsers
    /\ count w = Z.min limit (Z.max 0 (len allUsers - offset))
    /\ (has_more w = true <-> offset + limit < len allUsers)
    /\ (has_more w = true -> next_offset w = Some (offset + limit))
    /\ (len allUsers <= offset ->
        items w = [] /\ has_more w = false /\ next_offset w = None).
Proof.
  intros Hoff Hsafe Hprint. unfold teamMembersWindow.
  rewrite (js_add_safe offset limit Hsafe).
  rewrite members_of_page by (now apply Forall_slice).
  cbn [bind]. eexists. split; [reflexivity|].
  unfold buildPaginatedResponse.
  cbn [total count items has_more next_offset].
  destruct (slice_forward allUsers offset (offset + limit) Hoff ltac:(lia))
    as [Hslice Hlen].
  rewrite len_map, Hlen.
  assert (Hn : 0 <= len allUsers) by (unfold len; lia).
  assert (Hsum : safe_integer
                   (offset + (Z.min (offset + limit) (len allUsers)
                              - Z.min offset (len allUsers))) = true).
  { unfold safe_integer in *. apply Z.leb_le in Hsafe. apply Z.leb_le. lia. }
  rewrite (js_add_safe _ _ Hsum).
  split; [reflexivity|]. split; [lia|]. split; [|split].
  - split; intros H; [apply Z.gtb_gt in H | apply Z.gtb_gt]; lia.
  - intros H. rewrite H. apply Z.gtb_gt in H. f_equal. lia.
  - intros Hpast. split.
    + rewrite Hslice.
      replace (Z.min (offset + limit) (len allUsers) - Z.min offset (len allUsers))
        with 0 by lia.
      reflexivity.
    + destruct (Z.gtb_spec (len allUsers)
                  (offset + (Z.min (offset + limit) (len allUsers)
                             - Z.min offset (len allUsers)))); [lia | now split].
Qed.

(** A page that holds a user id [String()] does not convert is not
    built: the exception leaves the handler's [try] block. *)
Lemma teamMembersWindow_raises (uid : value) :
  printable uid = false ->
  exists e, teamMembersWindow [uid] 0 1 = Throw e.
Proof.
  intros H. unfold teamMembersWindow.
  change (slice 0 (js_add 0 1) [uid]) with [uid]. cbn [mapM].
  destruct (to_string_unprintable uid H) as [e ->]. now exists e.
Qed.

Lemma readPages_from (fuel : nat) (offset : Z) :
  Forall (fun uid => printable uid = true) allUsers ->
  safe_integer (len allUsers + limit) = true ->
  0 <= offset <= len allUsers ->
  len allUsers - offset < Z.of_nat fuel ->
  readPages allUsers limit fuel offset
  = Ok (map (fun uid => VObj [ ("id", VStr (text_of uid)) ])
            (skipn (Z.to_nat offset) allUsers)).
Proof.
  intros Hprint Hsafe.
  assert (Hbound : forall z, 0 <= z <= len allUsers + limit -> safe_integer z = true).
  { intros z Hz. unfold safe_integer in *. apply Z.leb_le in Hsafe. apply Z.leb_le.
    assert (0 <= len allUsers) by (unfold len; lia). lia. }
  revert offset. induction fuel as [|fuel IH]; intros offset Hoff Hfuel; [lia|].
  cbn [readPages]. unfold teamMembersWindow.
  rewrite (js_add_safe offset limit) by (apply Hbound; lia).
  rewrite members_of_page by (now apply Forall_slice).
  cbn [bind]. unfold buildPaginatedResponse.
  cbn [items next_offset].
  destruct (slice_forward allUsers offset (offset + limit) ltac:(lia) ltac:(lia))
    as [Hslice Hlen].
  rewrite len_map, Hlen, Hslice.
  replace (Z.min offset (len allUsers)) with offset by lia.
  rewrite js_add_safe by (apply Hbound; lia).
  destruct (Z.gtb_spec (len allUsers)
              (offset + (Z.min (offset + limit) (len allUsers) - offset)))
    as [Hmore|Hlast].
  - replace (Z.min (offset + limit) (len allUsers) - offset) with limit in * by lia.
    rewrite IH by lia. cbn [bind]. rewrite <- map_app. do 2 f_equal.
    replace (Z.to_nat (offset + limit))
      with (Z.to_nat limit + Z.to_nat offset)%nat by lia.
    rewrite <- skipn_skipn. apply firstn_skipn.
  - do 2 f_equal. apply firstn_all2.
    rewrite length_skipn. unfold len in *. lia.
Qed.

(** X20.  When [String()] converts every user id (and the number of
    users plus the page size is a safe integer), a client that starts at
    offset zero and follows [next_offset] reads every member of the team
    once, in order: one page more than there are members is always
    enough. *)
Theorem readPages_reads_all :
  Forall (fun uid => printable uid = true) allUsers ->
  safe_integer (len allUsers + limit) = true ->
  readPages allUsers limit (S (List.length allUsers)) 0
  = Ok (map (fun uid => VObj [ ("id", VStr (text_of uid)) ]) allUsers).
Proof.
  intros Hprint Hsafe.
  rewrite readPages_from; [reflexivity | exact Hprint | exact Hsafe
                           | unfold len; lia | unfold len; lia].
Qed.

End TeamMembers.

(** X19 on the second page of three users, two to a page. *)
Lemma teamMembersWindow_page_witness :
  exists w,
    teamMembersWindow [VStr "u1"; VStr "u2"; VStr "u3"] 2 2 = Ok w
    /\ count w = 1 /\ items w = [ VObj [("id", VStr "u3")] ]
    /\ has_more w = false.
Proof.
  destruct (teamMembersWindow_page [VStr "u1"; VStr "u2"; VStr "u3"] 2
              ltac:(lia) 2 ltac:(lia) eq_refl
              ltac:(repeat constructor))
    as (w & Hw & _ & Hcount & _).
  exists w. split; [exact Hw|].
  vm_compute in Hw. injection Hw as <-. repeat split.
Defined.

(** X20 on three users, one of them a number, two to a page. *)
Lemma readPages_reads_all_witness :
  readPages [VStr "u1"; VNum 2; VStr "u3"] 2 4 0
  = Ok [ VObj [("id", VStr "u1")]; VObj [("id", VStr "2")]; VObj [("id", VStr "u3")] ].
Proof.
  apply (readPages_reads_all [VStr "u1"; VNum 2; VStr "u3"] 2);
    [lia | repeat constructor | reflexivity].
Defined.

(* ================================================================== *)
(** ** Conversation metadata *)
(* ================================================================== *)

Section MetaProperties.

Lemma or_else_truthy (a b : value) : truthy b = true -> truthy (or_else a b) = true.
Proof.
  intros H. unfold or_else. now destruct (truthy a) eqn:E.
Qed.

Lemma truthy_not_nullish (v : value) : truthy v = true -> is_nullish v = false.
Proof.
  destruct v; simpl; intros H; try discriminate H; reflexivity.
Qed.

Lemma or_else_not_nullish (a b : value) :
  is_nullish b = false -> is_nullish (or_else a b) = false.
Proof.
  intros H. unfold or_else. destruct (truthy a) eqn:E; [|exact H].
  now apply truthy_not_nullish.
Qed.

Lemma get_prop_defined (v : value) (k : string) :
  is_nullish v = false -> exists x, get_prop v k = Ok x.
Proof.
  destruct v; simpl; intros H; try discriminate H; try (eexists; reflexivity).
  destruct (lookup k props); eexists; reflexivity.
Qed.

(** X21.  [extractMeta] returns for every conversation other than [null]
    and [undefined], and its defaults hold: the name is truthy, and the
    date, the duration, the participants and the recording are never
    [null] or [undefined]; without a [recording] the date is the empty
    string and the duration zero. *)
Theorem extractMeta_defaults (c : value) :
  is_nullish c = false ->
  exists m,
    extractMeta c = Ok m
    /\ truthy (Handlers.name m) = true
    /\ is_nullish (date m) = false
    /\ is_nullish (duration m) = false
    /\ is_nullish (participants m) = false
    /\ is_nullish (recording m) = false
    /\ (get_prop c "recording" = Ok VUndefined ->
        date m = VStr EmptyString /\ duration m = VNum 0).
Proof.
  intros Hc. unfold extractMeta.
  destruct (get_prop_defined c "recording" Hc) as [r ->].
  destruct (get_prop_defined c "name" Hc) as [n ->].
  destruct (get_prop_defined c "id" Hc) as [i ->].
  cbn [bind].
  assert (Hrec : is_nullish (or_else r (VObj [])) = false)
    by (now apply or_else_not_nullish).
  destruct (get_prop_defined _ "start_time" Hrec) as [start Hstart].
  destruct (get_prop_defined _ "duration" Hrec) as [d Hd].
  rewrite Hstart, Hd.
  destruct (get_prop_defined c "participants" Hc) as [ps ->].
  destruct (get_prop_defined c "status" Hc) as [st ->].
  destruct (get_prop_defined c "summary" Hc) as [su ->].
  destruct (get_prop_defined c "action_items" Hc) as [ai ->].
  cbn [bind]. eexists. split; [reflexivity|].
  cbn [Handlers.name date duration participants recording].
  split; [now apply or_else_truthy|].
  split; [now apply or_else_not_nullish|].
  split; [now apply or_else_not_nullish|].
  split; [now apply or_else_not_nullish|].
  split; [exact Hrec|].
  intros H. injection H as ->. cbn in Hstart, Hd.
  injection Hstart as <-. injection Hd as <-. now split.
Qed.

(** X21 at a concrete input. *)
Lemma extractMeta_defaults_witness :
  exists m,
    extractMeta (VObj [ ("id", VStr "conv-1"); ("name", VStr EmptyString) ]) = Ok m
    /\ Handlers.name m = VStr "Untitled Conversation"
    /\ duration m = VNum 0.
Proof.
  destruct (extractMeta_defaults
              (VObj [ ("id", VStr "conv-1"); ("name", VStr EmptyString) ]) eq_refl)
    as [m (Hm & _)].
  exists m. split; [exact Hm|].
  vm_compute in Hm. injection Hm as <-. now split.
Defined.

End MetaProperties.

(* ================================================================== *)
(** ** More on normalisation *)
(* ================================================================== *)

Section ShapeProperties.

Lemma flattenRecord_result (record : value) :
  (is_nullish record = true -> exists e, flattenRecord record = Throw e)
  /\ (is_nullish record = false -> exists flat, flattenRecord record = Ok flat).
Proof.
  split; intros H.
  - destruct record; try discriminate H; eexists; reflexivity.
  - unfold flattenRecord.
    destruct (get_prop_defined record "id" H) as [i ->].
    destruct (get_prop_defined record "attributes" H) as [a ->].
    eexists; reflexivity.
Qed.

Lemma mapM_flattenRecord_result (records : list value) :
  if existsb is_nullish records
  then exists e, mapM flattenRecord records = Throw e
  else exists flattened, mapM flattenRecord records = Ok flattened.
Proof.
  induction records as [|r rs IH]; cbn [existsb mapM]; [eexists; reflexivity|].
  destruct (is_nullish r) eqn:Hr; cbn [orb].
  - destruct (proj1 (flattenRecord_result r) Hr) as [e ->]. eexists; reflexivity.
  - destruct (proj2 (flattenRecord_result r) Hr) as [flat ->]. cbn [bind].
    destruct (existsb is_nullish rs).
    + destruct IH as [e ->]. eexists; reflexivity.
    + destruct IH as [fl ->]. eexists; reflexivity.
Qed.

Lemma get_opt_defined (v : value) (k : string) : exists x, get_opt v k = Ok x.
Proof.
  unfold get_opt. destruct (is_nullish v) eqn:E; [eexists; reflexivity|].
  now apply get_prop_defined.
Qed.

(** The collection branch, once the records are flattened. *)
Lemma normalizeResponse_list (props : list (string * value)) (first : value)
    (others flattened : list value) :
  lookup "data" props = Some (VArr (first :: others)) ->
  has_attributes first = true ->
  mapM flattenRecord (first :: others) = Ok flattened ->
  exists tot cursor,
    normalizeResponse (VObj props)
    = Ok (VObj [ ("items", VArr flattened); ("total", tot); ("cursor", cursor) ]).
Proof.
  intros Hdata Hattr Hmap.
  assert (Hlist : isJsonApiList (VObj props) = Ok true).
  { unfold isJsonApiList; simpl. unfold has_key. rewrite Hdata. simpl.
    destruct first; try discriminate Hattr. simpl. simpl in Hattr. now rewrite Hattr. }
  unfold normalizeResponse. rewrite Hlist. cbn [bind].
  unfold get_prop at 1. rewrite Hdata. cbn [bind elements]. rewrite Hmap. cbn [bind].
  destruct (get_prop_defined (VObj props) "meta" eq_refl) as [meta ->]. cbn [bind].
  destruct (get_opt_defined meta "page") as [page ->]. cbn [bind].
  destruct (get_opt_defined page "total") as [tot ->]. cbn [bind].
  destruct (get_opt_defined page "cursor") as [cursor ->]. cbn [bind].
  eexists _, _. reflexivity.
Qed.

Lemma normalizeResponse_list_throw (props : list (string * value)) (first : value)
    (others : list value) (e : exn) :
  lookup "data" props = Some (VArr (first :: others)) ->
  has_attributes first = true ->
  mapM flattenRecord (first :: others) = Throw e ->
  normalizeResponse (VObj props) = Throw e.
Proof.
  intros Hdata Hattr Hmap.
  assert (Hlist : isJsonApiList (VObj props) = Ok true).
  { unfold isJsonApiList; simpl. unfold has_key. rewrite Hdata. simpl.
    destruct first; try discriminate Hattr. simpl. simpl in Hattr. now rewrite Hattr. }
  unfold normalizeResponse. rewrite Hlist. cbn [bind].
  unfold get_prop at 1. rewrite Hdata. cbn [bind elements].
  now rewrite Hmap.
Qed.

(** X5.  [normalizeResponse] raises exactly on the bodies whose [data]
    is a non-empty array that either starts with something that is
    neither an object nor an array, or starts with a record carrying an
    attribute bag and holds a [null] or [undefined] further on. *)
Theorem normalizeResponse_raises_iff (body : value) :
  (exists e, normalizeResponse body = Throw e) <-> raises body = true.
Proof.
  unfold raises, data_of.
  destruct body as [| |b|n|s|elems|props];
    try (split; [intros [e H]; discriminate H | discriminate]).
  destruct (lookup "data" props) as [d|] eqn:Hdata.
  2:{ rewrite normalizeResponse_no_data.
      - split; [intros [e H]; discriminate H | discriminate].
      - intros props' H. injection H as <-. unfold has_key. now rewrite Hdata. }
  destruct d as [| |b|n|s|elems|dprops].
  1-5: rewrite (normalizeResponse_data_primitive props _ Hdata I);
       split; [intros [e H]; discriminate H | discriminate].
  - destruct elems as [|first others].
    + unfold normalizeResponse, isJsonApiList, isJsonApiSingle, isEmptyList; simpl.
      unfold has_key. rewrite Hdata. simpl.
      split; [intros [e H]; discriminate H | discriminate].
    + destruct (is_object_or_array first) eqn:Hoa; cbn [negb orb].
      * destruct (has_attributes first) eqn:Hattr; cbn [andb].
        -- pose proof (mapM_flattenRecord_result (first :: others)) as Hm.
           cbn [existsb] in Hm.
           assert (Hf : is_nullish first = false)
             by (destruct first; try discriminate Hoa; reflexivity).
           rewrite Hf in Hm. cbn [orb] in Hm.
           destruct (existsb is_nullish others).
           ++ destruct Hm as [e Hm]. split; [reflexivity|]. intros _.
              exists e. now apply (normalizeResponse_list_throw props first others).
           ++ destruct Hm as [fl Hm].
              destruct (normalizeResponse_list props first others fl Hdata Hattr Hm)
                as [tot [cursor ->]].
              split; [intros [e H]; discriminate H | discriminate].
        -- rewrite (normalizeResponse_data_plain_list props first others Hdata).
           ++ split; [intros [e H]; discriminate H | discriminate].
           ++ destruct first; try discriminate Hoa; simpl; [reflexivity|].
              simpl in Hattr. now rewrite Hattr.
      * split; [reflexivity|]. intros _.
        unfold normalizeResponse, isJsonApiList; simpl.
        unfold has_key. rewrite Hdata. simpl.
        destruct first; try discriminate Hoa; eexists; reflexivity.
  - unfold normalizeResponse, isJsonApiList, isJsonApiSingle, isEmptyList; simpl.
    unfold has_key. rewrite Hdata. simpl.
    destruct (proj2 (flattenRecord_result (VObj dprops)) eq_refl) as [flat Hflat].
    destruct (has_key "attributes" dprops); cbn [bind negb]; try rewrite Hflat;
      (split; [intros [e H]; discriminate H | discriminate]).
Qed.

(** X4.  [normalizeResponse] hands back as it is every body without a
    [data] property, with a [data] that is neither an object nor an
    array, with an object [data] that has no attribute bag, and with a
    non-empty array [data] that starts with an array or with an object
    that has no attribute bag. *)
Theorem normalizeResponse_passthrough (body : value) :
  passes_through body = true -> normalizeResponse body = Ok body.
Proof.
  unfold passes_through, data_of.
  destruct body as [| |b|n|s|elems|props]; try reflexivity.
  destruct (lookup "data" props) as [d|] eqn:Hdata.
  2:{ intros _. apply normalizeResponse_no_data.
      intros props' H. injection H as <-. unfold has_key. now rewrite Hdata. }
  destruct d as [| |b|n|s|elems|dprops]; intros H.
  1-5: exact (normalizeResponse_data_primitive props _ Hdata I).
  - destruct elems as [|first others]; [discriminate H|].
    apply andb_true_iff in H as [Hoa Hattr]. apply negb_true_iff in Hattr.
    apply (normalizeResponse_data_plain_list props first others Hdata).
    destruct first; try discriminate Hoa; simpl; [reflexivity|].
    simpl in Hattr. now rewrite Hattr.
  - apply negb_true_iff in H.
    unfold normalizeResponse, isJsonApiList, isJsonApiSingle, isEmptyList; simpl.
    unfold has_key. rewrite Hdata. simpl.
    fold (has_key "attributes" dprops). now rewrite H.
Qed.

(** X4 at a concrete input. *)
Lemma normalizeResponse_passthrough_witness :
  normalizeResponse (VObj [ ("users", VArr [ VObj [ ("id", VStr "u1") ] ]) ])
  = Ok (VObj [ ("users", VArr [ VObj [ ("id", VStr "u1") ] ]) ]).
Proof.
  apply normalizeResponse_passthrough. reflexivity.
Defined.

(** The third shape: neither shape test holds of an empty [data], and
    the last test does. *)
Lemma normalizeResponse_third_shape (props : list (string * value)) :
  lookup "data" props = Some (VArr []) ->
  normalizeResponse (VObj props)
  = Ok (VObj [ ("items", VArr []); ("total", VNum 0) ]).
Proof.
  intros Hdata.
  unfold normalizeResponse, isJsonApiList, isJsonApiSingle, isEmptyList; simpl.
  unfold has_key. rewrite Hdata. reflexivity.
Qed.

(** X3.  An envelope whose [data] is the empty array becomes the empty
    collection of total zero, whatever else the envelope holds: a
    [meta.page.total] or a cursor beside it is not read. *)
Theorem normalizeResponse_empty (props : list (string * value)) :
  lookup "data" props = Some (VArr []) ->
  normalizeResponse (VObj props)
  = Ok (VObj [ ("items", VArr []); ("total", VNum 0) ]).
Proof.
  intros Hdata. now apply normalizeResponse_third_shape.
Qed.

(** X3 at a concrete input. *)
Lemma normalizeResponse_empty_witness :
  normalizeResponse
    (VObj [ ("data", VArr []);
            ("meta", VObj [ ("page", VObj [ ("total", VNum 50);
                                            ("cursor", VStr "c9") ]) ]) ])
  = Ok (VObj [ ("items", VArr []); ("total", VNum 0) ]).
Proof.
  apply normalizeResponse_empty. reflexivity.
Defined.

(** X6.  Normalising a normalised collection changes nothing: what
    [normalizeResponse] makes of a collection envelope, empty or not, is
    handed back as it is by a second call. *)
Theorem normalizeResponse_collection_idempotent (body v : value) :
  is_collection body = true ->
  normalizeResponse body = Ok v ->
  normalizeResponse v = Ok v.
Proof.
  unfold is_collection, data_of.
  destruct body as [| |b|n|s|elems|props]; try discriminate.
  destruct (lookup "data" props) as [d|] eqn:Hdata; [|discriminate].
  destruct d as [| |b|n|s|elems|dprops]; try discriminate.
  destruct elems as [|first others]; intros Hc Hv.
  - rewrite (normalizeResponse_third_shape props Hdata) in Hv.
    injection Hv as <-. reflexivity.
  - pose proof (mapM_flattenRecord_result (first :: others)) as Hm.
    destruct (existsb is_nullish (first :: others)) eqn:Hex.
    + destruct Hm as [e Hm].
      rewrite (normalizeResponse_list_throw props first others e Hdata Hc Hm) in Hv.
      discriminate Hv.
    + destruct Hm as [fl Hm].
      destruct (normalizeResponse_list props first others fl Hdata Hc Hm)
        as [tot [cursor H]].
      rewrite H in Hv. injection Hv as <-. reflexivity.
Qed.

(** X6 at a concrete input. *)
Lemma normalizeResponse_collection_idempotent_witness :
  normalizeResponse
    (VObj [ ("items", VArr [ VObj [ ("id", VStr "rec-1"); ("title", VStr "Demo") ] ]);
            ("total", VNum 1); ("cursor", VUndefined) ])
  = Ok (VObj [ ("items", VArr [ VObj [ ("id", VStr "rec-1"); ("title", VStr "Demo") ] ]);
               ("total", VNum 1); ("cursor", VUndefined) ]).
Proof.
  apply (normalizeResponse_collection_idempotent
           (VObj [ ("data",
                    VArr [ VObj [ ("id", VStr "rec-1"); ("type", VStr "call");
                                  ("attributes", VObj [ ("title", VStr "Demo") ]) ] ]) ]));
    reflexivity.
Defined.

(** X1.  What [flattenRecord] keeps of a record whose attribute bag is
    an object: every attribute under its own name with its own value,
    the record's [id] when no attribute is named [id], and nothing
    else, so the record's [type] and the like are left behind. *)
Theorem flattenRecord_keeps_attributes
    (props attrs : list (string * value)) :
  lookup "attributes" props = Some (VObj attrs) ->
  NoDup (map fst attrs) ->
  exists flat,
    flattenRecord (VObj props) = Ok (VObj flat)
    /\ (forall k v, lookup k attrs = Some v -> lookup k flat = Some v)
    /\ (forall k, k <> "id" -> lookup k attrs = None -> lookup k flat = None)
    /\ (lookup "id" attrs = None ->
        get_prop (VObj flat) "id" = get_prop (VObj props) "id").
Proof.
  intros Hattr Hnd. unfold flattenRecord. cbn [get_prop]. rewrite Hattr.
  set (i := match lookup "id" props with Some x => x | None => VUndefined end).
  assert (Hi : match lookup "id" props with Some x => Ok x | None => Ok VUndefined end
               = Ok i) by (subst i; now destruct (lookup "id" props)).
  rewrite Hi. cbn [bind]. eexists. split; [reflexivity|].
  unfold spread. cbn [own_props]. split; [|split].
  - intros k v Hk. now apply lookup_fold_present.
  - intros k Hne Hk. rewrite lookup_fold_absent.
    + simpl. destruct (String.eqb_spec k "id"); [contradiction | reflexivity].
    + unfold has_key. now rewrite Hk.
  - intros Hk. cbn [get_prop]. rewrite lookup_fold_absent.
    + reflexivity.
    + unfold has_key. now rewrite Hk.
Qed.

(** X1 at a concrete input. *)
Lemma flattenRecord_keeps_attributes_witness :
  exists flat,
    flattenRecord
      (VObj [ ("id", VStr "rec-1"); ("type", VStr "conversation");
              ("attributes", VObj [ ("title", VStr "Weekly sync") ]) ])
    = Ok (VObj flat)
    /\ lookup "title" flat = Some (VStr "Weekly sync")
    /\ lookup "type" flat = None.
Proof.
  destruct (flattenRecord_keeps_attributes
              [ ("id", VStr "rec-1"); ("type", VStr "conversation");
                ("attributes", VObj [ ("title", VStr "Weekly sync") ]) ]
              [ ("title", VStr "Weekly sync") ] eq_refl)
    as [flat (Hflat & Hkeep & Hdrop & _)].
  { apply distinct_NoDup. reflexivity. }
  exists flat. split; [exact Hflat|]. split.
  - now apply Hkeep.
  - apply Hdrop; [discriminate | reflexivity].
Defined.

(** X2 at an envelope of two records whose page has a cursor and a
    [null] total: the records come back in input order, and the total
    is their number. *)
Lemma normalizeResponse_collection_witness :
  normalizeResponse
    (VObj [ ("data",
             VArr [ VObj [ ("id", VStr "rec-1");
                           ("attributes", VObj [ ("title", VStr "Weekly sync") ]) ];
                    VObj [ ("id", VStr "rec-2");
                           ("attributes", VObj [ ("title", VStr "Demo") ]) ] ]);
            ("meta", VObj [ ("page", VObj [ ("total", VNull);
                                            ("cursor", VStr "c2") ]) ]) ])
  = Ok (VObj [ ("items",
                VArr [ VObj [ ("id", VStr "rec-1"); ("title", VStr "Weekly sync") ];
                       VObj [ ("id", VStr "rec-2"); ("title", VStr "Demo") ] ]);
               ("total", VNum 2);
               ("cursor", VStr "c2") ]).
Proof.
  destruct (normalizeResponse_collection
              [ ("data",
                 VArr [ VObj [ ("id", VStr "rec-1");
                               ("attributes", VObj [ ("title", VStr "Weekly sync") ]) ];
                        VObj [ ("id", VStr "rec-2");
                               ("attributes", VObj [ ("title", VStr "Demo") ]) ] ]);
                ("meta", VObj [ ("page", VObj [ ("total", VNull);
                                                ("cursor", VStr "c2") ]) ]) ]
              (VObj [ ("id", VStr "rec-1");
                      ("attributes", VObj [ ("title", VStr "Weekly sync") ]) ])
              [ VObj [ ("id", VStr "rec-2");
                       ("attributes", VObj [ ("title", VStr "Demo") ]) ] ]
              eq_refl)
    as [fl (H & Hf2 & _)].
  { repeat (constructor; [eexists _, _; split; reflexivity|]). constructor. }
  rewrite H. do 3 f_equal.
  inversion Hf2 as [|r1 f1 rs1 fs1 H1 Hrest]; subst.
  inversion Hrest as [|r2 f2 rs2 fs2 H2 Hnil]; subst.
  inversion Hnil; subst.
  cbn in H1, H2. injection H1 as <-. injection H2 as <-. reflexivity.
Defined.

(** X7 at an envelope with two records, one of them without an [id],
    and no [meta]: the flattened record has an [undefined] [id], the
    collection an [undefined] [cursor], and the result is canonical. *)
Lemma normalizeResponse_canonical_witness :
  canonical
    (VObj [ ("items",
             VArr [ VObj [ ("id", VStr "rec-1"); ("title", VStr "Weekly sync") ];
                    VObj [ ("id", VUndefined); ("title", VStr "Demo");
                           ("talkRatio", VNum (Finite false "45" 0)) ] ]);
            ("total", VNum 2);
            ("cursor", VUndefined) ]) = true.
Proof.
  apply (normalizeResponse_canonical
           (VObj [ ("data",
                    VArr [ VObj [ ("id", VStr "rec-1");
                                  ("attributes",
                                   VObj [ ("title", VStr "Weekly sync") ]) ];
                           VObj [ ("type", VStr "conversation");
                                  ("attributes",
                                   VObj [ ("title", VStr "Demo");
                                          ("talkRatio",
                                           VNum (Finite false "45" 0)) ]) ] ]) ]));
    reflexivity.
Defined.

End ShapeProperties.

(* ================================================================== *)
(** ** Fixtures: wrapping and normalising back *)
(* ================================================================== *)

Section FixtureProperties.

Variable typeName : option string.

Lemma lookup_without (k : string) (props : list (string * value)) :
  k <> "id" -> lookup k (without "id" props) = lookup k props.
Proof.
  intros Hne. induction props as [|[k' v] ps IH]; [reflexivity|].
  cbn [without lookup].
  destruct (String.eqb_spec k' "id") as [->|Hk'].
  - destruct (String.eqb_spec k "id"); [contradiction | exact IH].
  - cbn [lookup]. now rewrite IH.
Qed.

Lemma without_keys (k : string) (props : list (string * value)) :
  In k (map fst (without "id" props)) -> k <> "id" /\ In k (map fst props).
Proof.
  induction props as [|[k' v] ps IH]; [intros []|].
  cbn [without]. destruct (String.eqb_spec k' "id") as [->|Hk'].
  - intros H. destruct (IH H). split; [assumption | now right].
  - simpl. intros [<-|H]; [split; [assumption | now left]|].
    destruct (IH H). split; [assumption | now right].
Qed.

Lemma without_NoDup (props : list (string * value)) :
  NoDup (map fst props) -> NoDup (map fst (without "id" props)).
Proof.
  induction props as [|[k v] ps IH]; [intros _; constructor|].
  simpl. intros H. inversion H as [|? ? Hk Hps]; subst.
  destruct (String.eqb_spec k "id"); [now apply IH|].
  simpl. constructor; [|now apply IH].
  intros Hin. apply Hk. now apply without_keys in Hin.
Qed.

(** A wrapped record is flattened to its [id] followed by its other
    properties. *)
Lemma flatten_wrapped (props : list (string * value)) :
  NoDup (map fst props) ->
  exists i wrapped,
    get_prop (VObj props) "id" = Ok i
    /\ wrapJsonApi (VObj props) typeName = Ok wrapped
    /\ has_attributes wrapped = true
    /\ flattenRecord wrapped = Ok (VObj (("id", i) :: without "id" props)).
Proof.
  intros Hnd. unfold wrapJsonApi. cbn [get_prop own_props].
  set (i := match lookup "id" props with Some x => x | None => VUndefined end).
  assert (Hi : match lookup "id" props with Some x => Ok x | None => Ok VUndefined end
               = Ok i) by (subst i; now destruct (lookup "id" props)).
  rewrite Hi. cbn [bind]. eexists _, _. split; [reflexivity|].
  split; [reflexivity|]. split; [reflexivity|].
  unfold flattenRecord. cbn [get_prop lookup String.eqb Ascii.eqb Bool.eqb bind].
  unfold spread. cbn [own_props]. rewrite build_distinct; [reflexivity|].
  simpl. constructor; [|now apply without_NoDup].
  intros Hin. apply without_keys in Hin as [Hne _]. now apply Hne.
Qed.

Lemma wrapped_agrees (props : list (string * value)) (i : value) (k : string) :
  get_prop (VObj props) "id" = Ok i ->
  get_prop (VObj (("id", i) :: without "id" props)) k = get_prop (VObj props) k.
Proof.
  intros Hi. cbn [get_prop lookup].
  destruct (String.eqb_spec k "id") as [->|Hne].
  - symmetry. exact Hi.
  - now rewrite lookup_without.
Qed.

(** X22.  Wrapping a record as a single-record envelope and normalising
    the envelope gives the record back: the result has the value of the
    record under every key. *)
Theorem wrapJsonApiSingle_round_trip (props : list (string * value)) :
  NoDup (map fst props) ->
  exists envelope flat,
    wrapJsonApiSingle (VObj props) typeName = Ok envelope
    /\ normalizeResponse envelope = Ok flat
    /\ forall k, get_prop flat k = get_prop (VObj props) k.
Proof.
  intros Hnd.
  destruct (flatten_wrapped props Hnd) as [i [wrapped (Hi & Hw & Ha & Hf)]].
  unfold wrapJsonApiSingle. rewrite Hw. cbn [bind].
  eexists _, _. split; [reflexivity|]. split.
  - unfold normalizeResponse, isJsonApiList, isJsonApiSingle, isEmptyList.
    cbn [typeof_object is_null negb in_op has_key lookup String.eqb Ascii.eqb
         Bool.eqb bind get_prop].
    destruct wrapped as [| |b|n|s|elems|wprops]; try discriminate Ha.
    cbn [has_attributes] in Ha.
    cbn [isArray typeof_object is_null negb in_op bind]. rewrite Ha. cbn [bind].
    exact Hf.
  - intros k. now apply wrapped_agrees.
Qed.

Lemma mapM_wrapped (records : list value) :
  Forall (fun r => exists props, r = VObj props /\ NoDup (map fst props)) records ->
  exists wrapped flattened,
    mapM (fun r => wrapJsonApi r typeName) records = Ok wrapped
    /\ Forall (fun w => has_attributes w = true) wrapped
    /\ List.length wrapped = List.length records
    /\ mapM flattenRecord wrapped = Ok flattened
    /\ Forall2 (fun r flat => forall k, get_prop flat k = get_prop r k)
               records flattened.
Proof.
  induction 1 as [|r rs [props [-> Hnd]] Hrs IH].
  - exists [], []. repeat split; constructor.
  - destruct IH as [ws [fl (Hw & Ha & Hl & Hf & Hagree)]].
    destruct (flatten_wrapped props Hnd) as [i [w (Hi & Hw1 & Ha1 & Hf1)]].
    exists (w :: ws), (VObj (("id", i) :: without "id" props) :: fl).
    cbn [mapM]. rewrite Hw1, Hw, Hf1, Hf. cbn [bind List.length].
    repeat split; try (constructor; assumption); try congruence.
    constructor; [|exact Hagree].
    intros k. now apply wrapped_agrees.
Qed.

(** X23.  Wrapping records as a list envelope and normalising the
    envelope gives the records back, in order, with their number as the
    total: each item has the value of its record under every key. *)
Theorem wrapJsonApiList_round_trip (records : list value) :
  Forall (fun r => exists props, r = VObj props /\ NoDup (map fst props)) records ->
  exists envelope result items,
    wrapJsonApiList records typeName = Ok envelope
    /\ normalizeResponse envelope = Ok result
    /\ get_prop result "items" = Ok (VArr items)
    /\ get_prop result "total" = Ok (VNum (len records))
    /\ Forall2 (fun r item => forall k, get_prop item k = get_prop r k)
               records items.
Proof.
  intros Hall.
  destruct (mapM_wrapped records Hall) as [ws [fl (Hw & Ha & Hl & Hf & Hagree)]].
  unfold wrapJsonApiList. rewrite Hw. cbn [bind].
  destruct ws as [|first others].
  - eexists _, _, fl. split; [reflexivity|].
    cbn [mapM] in Hf. injection Hf as <-.
    destruct records; [|discriminate Hl].
    repeat split; try reflexivity. exact Hagree.
  - eexists _, _, fl. split; [reflexivity|].
    pose proof (Forall_inv Ha) as Hfirst. cbv beta in Hfirst.
    assert (Hlist : forall meta,
               isJsonApiList (VObj [ ("data", VArr (first :: others)); ("meta", meta) ])
               = Ok true).
    { intros meta. unfold isJsonApiList. simpl.
      destruct first; try discriminate Hfirst. simpl. simpl in Hfirst.
      now rewrite Hfirst. }
    unfold normalizeResponse. rewrite Hlist. cbn [bind].
    cbn [get_prop lookup String.eqb Ascii.eqb Bool.eqb bind elements].
    rewrite Hf. cbn [bind get_opt is_nullish get_prop lookup String.eqb Ascii.eqb
                     Bool.eqb nullish_or].
    split; [reflexivity|]. split; [reflexivity|]. split; [|exact Hagree].
    cbn [get_prop lookup String.eqb Ascii.eqb Bool.eqb]. unfold len.
    reflexivity.
Qed.

End FixtureProperties.

(** X22 at a concrete input. *)
Lemma wrapJsonApiSingle_round_trip_witness :
  exists envelope flat,
    wrapJsonApiSingle
      (VObj [ ("id", VStr "conv-001"); ("name", VStr "Discovery call") ]) None
    = Ok envelope
    /\ normalizeResponse envelope = Ok flat
    /\ get_prop flat "name" = Ok (VStr "Discovery call").
Proof.
  destruct (wrapJsonApiSingle_round_trip None
              [ ("id", VStr "conv-001"); ("name", VStr "Discovery call") ])
    as [envelope [flat (He & Hn & Hk)]].
  { apply distinct_NoDup. reflexivity. }
  exists envelope, flat. split; [exact He|]. split; [exact Hn|].
  rewrite Hk. reflexivity.
Defined.

(** X23 at a concrete input. *)
Lemma wrapJsonApiList_round_trip_witness :
  exists envelope result,
    wrapJsonApiList [ VObj [ ("id", VStr "u1"); ("name", VStr "Jane") ] ] (Some "user")
    = Ok envelope
    /\ normalizeResponse envelope = Ok result
    /\ get_prop result "total" = Ok (VNum 1).
Proof.
  destruct (wrapJsonApiList_round_trip (Some "user")
              [ VObj [ ("id", VStr "u1"); ("name", VStr "Jane") ] ])
    as [envelope [result [items (He & Hn & _ & Ht & _)]]].
  { constructor; [|constructor]. eexists. split; [reflexivity|].
    apply distinct_NoDup. reflexivity. }
  exists envelope, result. now repeat split.
Defined.
